(** * SquirrelDB: a schema-typed record store over SQLite

    A shallow embedding of [src/index.ts] (class [SquirrelDB]) and the
    properties of its specification.

    Layout:
    - [Js]:     the JavaScript values the store handles ([typeof],
                truthiness, [Number(...)], [String(...)]);
    - [JSON]:   [JSON.stringify] and [JSON.parse] on those values;
    - [Sqlite]: the storage engine behind [bun:sqlite], as a table store;
    - the class itself: schemas, validation, (de)serialisation, the
      public methods and the replication to mirrors;
    - the vocabulary of the properties and the stores of the examples;
    - the properties, C1 to C10, and the examples of the specification;
    - further properties of the code, X1 to X28.

    Conventions.  A method that can throw returns a [Result]; a method that
    changes the instance returns the instance it leaves ([Run]); [await]
    is sequencing.  An instance is a tree: its database, its registry of
    schemas and the list of its mirrors, which are instances. *)

From Stdlib Require Import ZArith String Ascii List Bool Lia.
From Stdlib Require Import Decimal DecimalFacts DecimalPos DecimalZ.
From stdpp Require Import base option list gmap strings fin_maps.

Set Warnings "-register-all".

(* stdpp freezes string concatenation under [simpl]; the proofs below
   compute with it. *)
#[local] Arguments String.append !_ _ / : simpl nomatch.

Local Open Scope string_scope.
Local Open Scope Z_scope.

(* ===================================================================== *)
(** ** JavaScript values *)
(* ===================================================================== *)

Module Js.

(** A JS number.  The model has [NaN], the two infinities and the
    integer-valued numbers; arithmetic on the latter is exact (as binary64
    is below 2^53).  Fractions, the negative zero and rounding are not
    represented. *)
Inductive number : Type :=
| NaN
| PInf
| NInf
| Fin (z : Z).

(** [a + b] on numbers. *)
Definition add (a b : number) : number :=
  match a, b with
  | NaN, _ | _, NaN => NaN
  | PInf, NInf | NInf, PInf => NaN
  | PInf, _ | _, PInf => PInf
  | NInf, _ | _, NInf => NInf
  | Fin x, Fin y => Fin (x + y)
  end.

Definition is_nan (n : number) : bool :=
  match n with NaN => true | _ => false end.

(** A JS value: the primitives, arrays and plain objects.  An object is the
    list of its own enumerable properties in enumeration order; property
    names are distinct in a well-formed object.  Property access reads own
    properties: the members inherited from [Object.prototype] are not part
    of the model. *)
Inductive value : Type :=
| VUndefined
| VNull
| VBool (b : bool)
| VNum (n : number)
| VStr (s : string)
| VBigInt (z : Z)
| VArr (elems : list value)
| VObj (props : list (string * value)).

(** [typeof v] *)
Definition typeof (v : value) : string :=
  match v with
  | VUndefined => "undefined"
  | VNull => "object"
  | VBool _ => "boolean"
  | VNum _ => "number"
  | VStr _ => "string"
  | VBigInt _ => "bigint"
  | VArr _ | VObj _ => "object"
  end.

(** ToBoolean: the falsy values are [undefined], [null], [false], [0],
    [NaN], the empty string and [0n]. *)
Definition truthy (v : value) : bool :=
  match v with
  | VUndefined | VNull => false
  | VBool b => b
  | VNum NaN => false
  | VNum (Fin z) => negb (z =? 0)
  | VNum _ => true
  | VStr s => negb (String.eqb s "")
  | VBigInt z => negb (z =? 0)
  | VArr _ | VObj _ => true
  end.

(** [a || b] *)
Definition or_else (a b : value) : value := if truthy a then a else b.

(** Decimal digits of an integer, as [String(n)] prints them. *)
Fixpoint digits (d : uint) : string :=
  match d with
  | Nil => ""
  | D0 d => String "0" (digits d)
  | D1 d => String "1" (digits d)
  | D2 d => String "2" (digits d)
  | D3 d => String "3" (digits d)
  | D4 d => String "4" (digits d)
  | D5 d => String "5" (digits d)
  | D6 d => String "6" (digits d)
  | D7 d => String "7" (digits d)
  | D8 d => String "8" (digits d)
  | D9 d => String "9" (digits d)
  end.

Definition integer_to_string (z : Z) : string :=
  match Z.to_int z with
  | Pos d => digits d
  | Neg d => String "-" (digits d)
  end.

Definition number_to_string (n : number) : string :=
  match n with
  | NaN => "NaN"
  | PInf => "Infinity"
  | NInf => "-Infinity"
  | Fin z => integer_to_string z
  end.

(** One decimal digit in front of a digit sequence. *)
Definition digit_of (c : ascii) : option (uint -> uint) :=
  match c with
  | "0"%char => Some D0
  | "1"%char => Some D1
  | "2"%char => Some D2
  | "3"%char => Some D3
  | "4"%char => Some D4
  | "5"%char => Some D5
  | "6"%char => Some D6
  | "7"%char => Some D7
  | "8"%char => Some D8
  | "9"%char => Some D9
  | _ => None
  end.

(** The longest prefix of decimal digits of [s], and what follows it. *)
Fixpoint scan_digits (s : string) : uint * string :=
  match s with
  | EmptyString => (Nil, EmptyString)
  | String c rest =>
      match digit_of c with
      | Some D => let '(d, rest') := scan_digits rest in (D d, rest')
      | None => (Nil, s)
      end
  end.

(** White space skipped by [Number(...)] and by [JSON.parse]
    (tab, line feed, carriage return, space). *)
Definition is_ws (c : ascii) : bool :=
  match c with
  | "009"%char | "010"%char | "013"%char | " "%char => true
  | _ => false
  end.

Fixpoint skip_ws (s : string) : string :=
  match s with
  | String c rest => if is_ws c then skip_ws rest else s
  | EmptyString => s
  end.

(** StringToNumber on the literals the model's numbers cover: an optionally
    signed integer or [Infinity], surrounded by white space; the empty
    string is [0]; anything else is [NaN]. *)
Definition unsigned_literal (s : string) : option number :=
  if String.eqb (skip_ws s) "" then None else
  let '(d, rest) := scan_digits s in
  match d with
  | Nil =>
      match s with
      | String "I" (String "n" (String "f" (String "i" (String "n"
          (String "i" (String "t" (String "y" rest'))))))) =>
          if String.eqb (skip_ws rest') "" then Some PInf else None
      | _ => None
      end
  | _ => if String.eqb (skip_ws rest) "" then Some (Fin (Z.of_uint d)) else None
  end.

Definition neg (n : number) : number :=
  match n with
  | NaN => NaN
  | PInf => NInf
  | NInf => PInf
  | Fin z => Fin (- z)
  end.

Definition string_to_number (s : string) : number :=
  match skip_ws s with
  | EmptyString => Fin 0
  | String "-" rest => from_option neg NaN (unsigned_literal rest)
  | String "+" rest => default NaN (unsigned_literal rest)
  | s' => default NaN (unsigned_literal s')
  end.

(** [String(v)], as [JSON.parse] and [Number] apply it to a value that is
    not a string. *)
Fixpoint to_string (v : value) : string :=
  match v with
  | VUndefined => "undefined"
  | VNull => "null"
  | VBool true => "true"
  | VBool false => "false"
  | VNum n => number_to_string n
  | VStr s => s
  | VBigInt z => integer_to_string z
  | VArr elems =>
      let piece (x : value) : string :=
        match x with
        | VUndefined | VNull => ""
        | _ => to_string x
        end in
      String.concat "," (map piece elems)
  | VObj _ => "[object Object]"
  end.

(** [Number(v)] *)
Definition to_number (v : value) : number :=
  match v with
  | VUndefined => NaN
  | VNull => Fin 0
  | VBool true => Fin 1
  | VBool false => Fin 0
  | VNum n => n
  | VStr s => string_to_number s
  | VBigInt z => Fin z
  | VArr _ | VObj _ => string_to_number (to_string v)
  end.

(** [v === null], [v === undefined], [v === 1] *)
Definition is_null (v : value) : bool :=
  match v with VNull => true | _ => false end.

Definition is_undefined (v : value) : bool :=
  match v with VUndefined => true | _ => false end.

Definition is_one (v : value) : bool :=
  match v with VNum (Fin 1) => true | _ => false end.

End Js.

(* ===================================================================== *)
(** ** JSON.stringify and JSON.parse *)
(* ===================================================================== *)

(** The [JSON] object of the runtime, on the values of the model:
    [stringify] writes the compact text (no white space), [parse] reads
    JSON text (white space allowed, the last of two members of one name
    wins).  Characters are the 8-bit ones of [string]; a [\uXXXX] escape
    above 255 has no character in the model and is not accepted. *)
Module JSON.
Import Js.

Definition dquote : ascii := "034"%char.
Definition backslash : ascii := "\"%char.

(** Lower-case hexadecimal digit of a number below 16. *)
Definition hex_digit (n : N) : ascii :=
  match n with
  | 0%N => "0" | 1%N => "1" | 2%N => "2" | 3%N => "3" | 4%N => "4"
  | 5%N => "5" | 6%N => "6" | 7%N => "7" | 8%N => "8" | 9%N => "9"
  | 10%N => "a" | 11%N => "b" | 12%N => "c" | 13%N => "d" | 14%N => "e"
  | _ => "f"
  end%char.

Definition hex_value (c : ascii) : option N :=
  let n := N_of_ascii c in
  if ((48 <=? n) && (n <=? 57))%N then Some (n - 48)%N
  else if ((97 <=? n) && (n <=? 102))%N then Some (n - 87)%N
  else if ((65 <=? n) && (n <=? 70))%N then Some (n - 55)%N
  else None.

(** QuoteJSONString on one character: the quote, the backslash and the
    control characters are escaped, everything else is copied. *)
Definition quote_char (c : ascii) : string :=
  if Ascii.eqb c dquote then String backslash (String dquote "")
  else if Ascii.eqb c backslash then String backslash (String backslash "")
  else if Ascii.eqb c "008" then "\b"
  else if Ascii.eqb c "012" then "\f"
  else if Ascii.eqb c "010" then "\n"
  else if Ascii.eqb c "013" then "\r"
  else if Ascii.eqb c "009" then "\t"
  else if (N_of_ascii c <? 32)%N then
    String backslash (String "u" (String "0" (String "0"
      (String (hex_digit (N_of_ascii c / 16)) (String (hex_digit (N_of_ascii c mod 16)) "")))))
  else String c "".

Fixpoint quote_chars (s : string) : string :=
  match s with
  | EmptyString => EmptyString
  | String c rest => quote_char c ++ quote_chars rest
  end.

Definition quote (s : string) : string :=
  String dquote (quote_chars s ++ String dquote "").

(** What serialising a value gives: text, nothing (the value is
    [undefined]), or a thrown [TypeError] (a BigInt). *)
Inductive written : Type :=
| Throws
| Omitted
| Text (s : string).

(** Text of an array element: a hole prints as [null]. *)
Definition item_text (w : written) : option string :=
  match w with
  | Throws => None
  | Omitted => Some "null"
  | Text s => Some s
  end.

(** Text of an object member: a member without text is left out. *)
Definition member_text (k : string) (w : written) : option (list string) :=
  match w with
  | Throws => None
  | Omitted => Some []
  | Text s => Some [quote k ++ ":" ++ s]
  end.

Fixpoint write (v : value) : written :=
  match v with
  | VUndefined => Omitted
  | VNull => Text "null"
  | VBool true => Text "true"
  | VBool false => Text "false"
  | VNum (Fin z) => Text (integer_to_string z)
  | VNum _ => Text "null"
  | VStr s => Text (quote s)
  | VBigInt _ => Throws
  | VArr elems =>
      let fix items (l : list value) : option (list string) :=
        match l with
        | [] => Some []
        | x :: l' =>
            match item_text (write x), items l' with
            | Some s, Some ss => Some (s :: ss)
            | _, _ => None
            end
        end in
      match items elems with
      | Some ss => Text ("[" ++ String.concat "," ss ++ "]")
      | None => Throws
      end
  | VObj props =>
      let fix members (l : list (string * value)) : option (list string) :=
        match l with
        | [] => Some []
        | (k, x) :: l' =>
            match member_text k (write x), members l' with
            | Some s, Some ss => Some (app s ss)
            | _, _ => None
            end
        end in
      match members props with
      | Some ss => Text ("{" ++ String.concat "," ss ++ "}")
      | None => Throws
      end
  end.

(** [JSON.stringify(v)]: [inl] is the thrown [TypeError]; [inr] the
    returned value, a string or [undefined]. *)
Definition stringify (v : value) : unit + value :=
  match write v with
  | Throws => inl tt
  | Omitted => inr VUndefined
  | Text s => inr (VStr s)
  end.

(** *** Parsing *)

(** [s] without its prefix [p], when it starts with [p]. *)
Fixpoint strip_prefix (p s : string) : option string :=
  match p with
  | EmptyString => Some s
  | String a p' =>
      match s with
      | String b s' => if Ascii.eqb a b then strip_prefix p' s' else None
      | EmptyString => None
      end
  end.

(** Code unit of a [\uXXXX] escape; the model's characters are the code
    units below 256. *)
Definition unicode_escape (h1 h2 h3 h4 : ascii) : option ascii :=
  match hex_value h1, hex_value h2, hex_value h3, hex_value h4 with
  | Some 0%N, Some 0%N, Some a, Some b => Some (ascii_of_N (16 * a + b))
  | _, _, _, _ => None
  end.

Definition prepend (c : ascii) (r : option (string * string)) : option (string * string) :=
  match r with
  | Some (str, rest) => Some (String c str, rest)
  | None => None
  end.

(** The characters of a string literal after its opening quote, up to the
    closing quote; the result is the string and the text after it. *)
Fixpoint parse_chars (s : string) : option (string * string) :=
  match s with
  | EmptyString => None
  | String c rest =>
      if Ascii.eqb c dquote then Some (EmptyString, rest)
      else if Ascii.eqb c backslash then
        match rest with
        | EmptyString => None
        | String e rest1 =>
            if Ascii.eqb e dquote then prepend dquote (parse_chars rest1)
            else if Ascii.eqb e backslash then prepend backslash (parse_chars rest1)
            else if Ascii.eqb e "/" then prepend "/" (parse_chars rest1)
            else if Ascii.eqb e "b" then prepend "008" (parse_chars rest1)
            else if Ascii.eqb e "f" then prepend "012" (parse_chars rest1)
            else if Ascii.eqb e "n" then prepend "010" (parse_chars rest1)
            else if Ascii.eqb e "r" then prepend "013" (parse_chars rest1)
            else if Ascii.eqb e "t" then prepend "009" (parse_chars rest1)
            else if Ascii.eqb e "u" then
              match rest1 with
              | String h1 (String h2 (String h3 (String h4 rest2))) =>
                  match unicode_escape h1 h2 h3 h4 with
                  | Some c' => prepend c' (parse_chars rest2)
                  | None => None
                  end
              | _ => None
              end
            else None
        end
      else if (N_of_ascii c <? 32)%N then None
      else prepend c (parse_chars rest)
  end.

(** A number literal.  The model's numbers are the integers, and so are its
    literals: a fraction or an exponent is not accepted. *)
Definition well_formed_int (d : uint) : bool :=
  match d with
  | Nil => false
  | D0 Nil => true
  | D0 _ => false
  | _ => true
  end.

Definition continues_number (rest : string) : bool :=
  match rest with
  | String c _ => Ascii.eqb c "." || Ascii.eqb c "e" || Ascii.eqb c "E"
  | EmptyString => false
  end.

Definition parse_number (s : string) : option (value * string) :=
  match s with
  | EmptyString => None
  | String c rest =>
      let negative := Ascii.eqb c "-" in
      let '(d, rest') := scan_digits (if negative then rest else s) in
      if well_formed_int d && negb (continues_number rest')
      then Some (VNum (Fin (Z.of_int (if negative then Neg d else Pos d))), rest')
      else None
  end.

(** [obj[k] = x] on a property list: an existing property keeps its place
    and takes the new value, a new one goes last. *)
Fixpoint set_property (k : string) (x : value) (props : list (string * value))
  : list (string * value) :=
  match props with
  | [] => [(k, x)]
  | (k', x') :: props' =>
      if String.eqb k' k then (k', x) :: props'
      else (k', x') :: set_property k x props'
  end.

Fixpoint parse_value (fuel : nat) (s : string) {struct fuel} : option (value * string) :=
  match fuel with
  | O => None
  | S fuel =>
      match skip_ws s with
      | EmptyString => None
      | String c rest =>
          if Ascii.eqb c "[" then
            match skip_ws rest with
            | EmptyString => None
            | String c' rest' =>
                if Ascii.eqb c' "]" then Some (VArr [], rest')
                else
                  match parse_value fuel rest with
                  | Some (x, rest1) => parse_elements fuel [x] rest1
                  | None => None
                  end
            end
          else if Ascii.eqb c "{" then
            match skip_ws rest with
            | EmptyString => None
            | String c' rest' =>
                if Ascii.eqb c' "}" then Some (VObj [], rest')
                else parse_member fuel [] (String c' rest')
            end
          else if Ascii.eqb c dquote then
            match parse_chars rest with
            | Some (str, rest1) => Some (VStr str, rest1)
            | None => None
            end
          else if Ascii.eqb c "n" then
            match strip_prefix "ull" rest with
            | Some rest1 => Some (VNull, rest1)
            | None => None
            end
          else if Ascii.eqb c "t" then
            match strip_prefix "rue" rest with
            | Some rest1 => Some (VBool true, rest1)
            | None => None
            end
          else if Ascii.eqb c "f" then
            match strip_prefix "alse" rest with
            | Some rest1 => Some (VBool false, rest1)
            | None => None
            end
          else parse_number (String c rest)
      end
  end

(** After an element: a comma and the next element, or the closing
    bracket. *)
with parse_elements (fuel : nat) (acc : list value) (s : string) {struct fuel}
  : option (value * string) :=
  match fuel with
  | O => None
  | S fuel =>
      match skip_ws s with
      | EmptyString => None
      | String c rest =>
          if Ascii.eqb c "]" then Some (VArr acc, rest)
          else if Ascii.eqb c "," then
            match parse_value fuel rest with
            | Some (x, rest1) => parse_elements fuel (acc ++ [x]) rest1
            | None => None
            end
          else None
      end
  end

(** One member [name : value], then what follows it. *)
with parse_member (fuel : nat) (acc : list (string * value)) (s : string) {struct fuel}
  : option (value * string) :=
  match fuel with
  | O => None
  | S fuel =>
      match skip_ws s with
      | EmptyString => None
      | String c rest =>
          if Ascii.eqb c dquote then
            match parse_chars rest with
            | Some (k, rest1) =>
                match skip_ws rest1 with
                | EmptyString => None
                | String c1 rest2 =>
                    if Ascii.eqb c1 ":" then
                      match parse_value fuel rest2 with
                      | Some (x, rest3) => parse_members fuel (set_property k x acc) rest3
                      | None => None
                      end
                    else None
                end
            | None => None
            end
          else None
      end
  end

(** After a member: a comma and the next member, or the closing brace. *)
with parse_members (fuel : nat) (acc : list (string * value)) (s : string) {struct fuel}
  : option (value * string) :=
  match fuel with
  | O => None
  | S fuel =>
      match skip_ws s with
      | EmptyString => None
      | String c rest =>
          if Ascii.eqb c "}" then Some (VObj acc, rest)
          else if Ascii.eqb c "," then parse_member fuel acc rest
          else None
      end
  end.

(** [JSON.parse(text)]: [None] is the thrown [SyntaxError]. *)
Definition parse_text (s : string) : option value :=
  match parse_value (2 * String.length s + 2) s with
  | Some (v, rest) =>
      match skip_ws rest with
      | EmptyString => Some v
      | _ => None
      end
  | None => None
  end.

(** [JSON.parse(v)]: the argument is converted to a string first. *)
Definition parse (v : value) : option value := parse_text (to_string v).

(** The values JSON represents (the documents): [null], the booleans, the
    finite numbers, strings, arrays of documents and objects whose members
    are documents.  A hole, [NaN], an infinity or a BigInt is not one. *)
Fixpoint is_document (v : value) : bool :=
  match v with
  | VUndefined | VBigInt _ => false
  | VNull | VBool _ | VStr _ => true
  | VNum (Fin _) => true
  | VNum _ => false
  | VArr elems => forallb is_document elems
  | VObj props =>
      bool_decide (NoDup (map fst props))
      && forallb (fun kx => is_document (snd kx)) props
  end.

(** The two loops of [write], by name. *)
Definition write_items : list value -> option (list string) :=
  fix items (l : list value) : option (list string) :=
    match l with
    | [] => Some []
    | x :: l' =>
        match item_text (write x), items l' with
        | Some s, Some ss => Some (s :: ss)
        | _, _ => None
        end
    end.

Definition write_members : list (string * value) -> option (list string) :=
  fix members (l : list (string * value)) : option (list string) :=
    match l with
    | [] => Some []
    | (k, x) :: l' =>
        match member_text k (write x), members l' with
        | Some s, Some ss => Some (app s ss)
        | _, _ => None
        end
    end.

(** A character that can follow a value inside a document. *)
Definition delimited (rest : string) : bool :=
  match rest with
  | EmptyString => true
  | String c _ => Ascii.eqb c "," || Ascii.eqb c "]" || Ascii.eqb c "}"
  end.

(** What the text of a value starts with, as far as the parser looks:
    neither white space nor a closing bracket. *)
Definition opens_value (s : string) : bool :=
  match s with
  | EmptyString => false
  | String c _ => negb (is_ws c) && negb (Ascii.eqb c "]")
  end.

(** The texts [ts], each after a comma. *)
Fixpoint after_commas (ts : list string) : string :=
  match ts with
  | [] => EmptyString
  | t :: ts' => "," ++ t ++ after_commas ts'
  end.

(** What the round trip asks of a value and its text: the text is what
    [write] gives, it starts like a value, and the parser reads the value
    back from it and stops after it. *)
Definition reads_back (x : value) (t : string) : Prop :=
  write x = Text t /\ opens_value t = true /\
  forall fuel rest, delimited rest = true ->
    (String.length (t ++ rest) < fuel)%nat ->
    parse_value fuel (t ++ rest) = Some (x, rest).

(** The same for a member and its text [name:value]. *)
Definition member_reads_back (kx : string * value) (m : string) : Prop :=
  exists t, m = quote (fst kx) ++ ":" ++ t /\ reads_back (snd kx) t.

(** The properties of an object under construction: distinct names,
    documents as values. *)
Definition document_members (props : list (string * value)) : Prop :=
  NoDup (map fst props) /\ Forall (fun kx => is_document (snd kx) = true) props.

End JSON.

(* ===================================================================== *)
(** ** The storage engine *)
(* ===================================================================== *)

(** Modelled from the spec: the storage engine ([bun:sqlite]) is an external
    collaborator of the store, a capability offering statement execution
    and queries that are atomic per statement.  The statements the store
    issues are kept as operations on tables: a table has its declared
    columns and its rows in insertion order; a row gives every column a
    stored value.  What the model takes from SQLite beyond the spec: a
    statement on a missing table or column fails; [INSERT OR REPLACE]
    removes the row with the same primary key; a [NaN] is stored as
    [NULL]; [LIKE] ignores the case of ASCII letters.  Type affinity
    conversions and the row-id alias of an [INTEGER PRIMARY KEY] are not
    modelled. *)
Module Sqlite.
Import Js.

(** A stored value as JS sees it. *)
Inductive cell : Type :=
| SNull
| SNum (n : number)
| SText (s : string).

#[global] Instance number_eq_dec : EqDecision number.
Proof. solve_decision. Defined.

#[global] Instance cell_eq_dec : EqDecision cell.
Proof. solve_decision. Defined.

Definition to_js (c : cell) : value :=
  match c with
  | SNull => VNull
  | SNum n => VNum n
  | SText s => VStr s
  end.

(** Binding a statement parameter; arrays and objects cannot be bound. *)
Definition bind (v : value) : option cell :=
  match v with
  | VUndefined | VNull => Some SNull
  | VBool b => Some (SNum (Fin (if b then 1 else 0)))
  | VNum NaN => Some SNull
  | VNum n => Some (SNum n)
  | VStr s => Some (SText s)
  | VBigInt z => Some (SNum (Fin z))
  | VArr _ | VObj _ => None
  end.

Record column : Type := Column {
  c_name : string;
  c_type : string;
  c_primary_key : bool
}.

#[global] Instance column_eq_dec : EqDecision column.
Proof. solve_decision. Defined.

Record table : Type := Table {
  t_columns : list column;
  t_rows : list (gmap string cell)
}.

Abbreviation database := (gmap string table).

(** A name that can be written into a statement as it is. *)
Definition is_letter (c : ascii) : bool :=
  let n := N_of_ascii c in
  ((65 <=? n) && (n <=? 90) || (97 <=? n) && (n <=? 122) || (n =? 95))%N.

Definition is_digit (c : ascii) : bool :=
  let n := N_of_ascii c in ((48 <=? n) && (n <=? 57))%N.

Fixpoint all_chars (p : ascii -> bool) (s : string) : bool :=
  match s with
  | EmptyString => true
  | String c rest => p c && all_chars p rest
  end.

Definition identifier (s : string) : bool :=
  match s with
  | EmptyString => false
  | String c rest => is_letter c && all_chars (fun x => is_letter x || is_digit x) rest
  end.

Definition column_names (t : table) : list string := map c_name (t_columns t).

Definition has_column (t : table) (c : string) : bool :=
  bool_decide (c ∈ column_names t).

(** [CREATE TABLE IF NOT EXISTS name (columns)] *)
Definition create_table_if_not_exists (db : database) (name : string)
    (cols : list column) : string + database :=
  if negb (identifier name && forallb (fun c => identifier (c_name c)) cols)
  then inl "syntax error"
  else match db !! name with
       | Some _ => inr db
       | None =>
           if bool_decide (NoDup (map c_name cols))
           then inr (<[name := Table cols []]> db)
           else inl "duplicate column name"
       end.

(** The row of a table in which every column is [NULL]. *)
Definition null_row (t : table) : gmap string cell :=
  list_to_map (map (fun c => (c, SNull)) (column_names t)).

Fixpoint assign (cols : list string) (vals : list cell) (row : gmap string cell)
  : gmap string cell :=
  match cols, vals with
  | c :: cols', v :: vals' => assign cols' vals' (<[c := v]> row)
  | _, _ => row
  end.

(** Two rows clash when they agree on a primary-key column that is not
    [NULL] in them. *)
Definition same_key (t : table) (new old : gmap string cell) : bool :=
  existsb (fun c =>
    c_primary_key c &&
    match new !! c_name c, old !! c_name c with
    | Some SNull, _ | _, Some SNull => false
    | Some a, Some b => bool_decide (a = b)
    | _, _ => false
    end) (t_columns t).

Fixpoint bind_all (vals : list value) : option (list cell) :=
  match vals with
  | [] => Some []
  | v :: vals' =>
      match bind v, bind_all vals' with
      | Some c, Some cs => Some (c :: cs)
      | _, _ => None
      end
  end.

(** [INSERT OR REPLACE INTO name (cols) VALUES (?, ...)] run on [vals] *)
Definition insert_or_replace (db : database) (name : string)
    (cols : list string) (vals : list value) : string + database :=
  match db !! name with
  | None => inl ("no such table: " ++ name)
  | Some t =>
      if negb (forallb (has_column t) cols) then inl "table has no such column"
      else match bind_all vals with
           | None => inl "this value cannot be bound"
           | Some cells =>
               let row := assign cols cells (null_row t) in
               let kept := filter (fun old => same_key t row old = false) (t_rows t) in
               inr (<[name := Table (t_columns t) (kept ++ [row])]> db)
           end
  end.

(** The columns [cols] of a row, as the row object of a query result. *)
Definition project (cols : list string) (row : gmap string cell) : gmap string cell :=
  list_to_map (omap (fun c => pair c <$> row !! c) cols).

(** [id = ?] *)
Definition id_is (param : cell) (row : gmap string cell) : bool :=
  match param, row !! "id" with
  | SNull, _ | _, None | _, Some SNull => false
  | p, Some c => bool_decide (p = c)
  end.

Definition query (db : database) (name : string) (cols : list string)
    (where_id : bool) : string + table :=
  match db !! name with
  | None => inl ("no such table: " ++ name)
  | Some t =>
      if forallb (has_column t) cols && (negb where_id || has_column t "id")
      then inr t
      else inl "no such column"
  end.

(** [SELECT cols FROM name WHERE id = ?], first row *)
Definition select_by_id (db : database) (name : string) (cols : list string)
    (param : value) : string + option (gmap string cell) :=
  match query db name cols true, bind param with
  | inl e, _ => inl e
  | _, None => inl "this value cannot be bound"
  | inr t, Some p => inr (project cols <$> head (filter (fun r => id_is p r = true) (t_rows t)))
  end.

(** [SELECT cols FROM name], all rows *)
Definition select_all (db : database) (name : string) (cols : list string)
  : string + list (gmap string cell) :=
  match query db name cols false with
  | inl e => inl e
  | inr t => inr (map (project cols) (t_rows t))
  end.

Definition lower (c : ascii) : ascii :=
  let n := N_of_ascii c in
  if ((65 <=? n) && (n <=? 90))%N then ascii_of_N (n + 32) else c.

(** [text LIKE pattern]: [%] stands for any characters, [_] for one. *)
Fixpoint like (pattern text : string) : bool :=
  match pattern with
  | EmptyString => match text with EmptyString => true | _ => false end
  | String p pattern' =>
      if Ascii.eqb p "%" then
        (fix from (s : string) : bool :=
           like pattern' s ||
           match s with
           | String _ s' => from s'
           | EmptyString => false
           end) text
      else
        match text with
        | EmptyString => false
        | String c text' =>
            (Ascii.eqb p "_" || Ascii.eqb (lower p) (lower c)) && like pattern' text'
        end
  end.

Definition id_like (pattern : string) (row : gmap string cell) : bool :=
  match row !! "id" with
  | Some (SText s) => like pattern s
  | _ => false
  end.

(** [SELECT cols FROM name WHERE id LIKE ?] *)
Definition select_like (db : database) (name : string) (cols : list string)
    (pattern : string) : string + list (gmap string cell) :=
  match query db name cols true with
  | inl e => inl e
  | inr t => inr (map (project cols) (filter (fun r => id_like pattern r = true) (t_rows t)))
  end.

(** [DELETE FROM name WHERE id = ?]; the second component is [changes]. *)
Definition delete_by_id (db : database) (name : string) (param : value)
  : string + (database * Z) :=
  match query db name [] true, bind param with
  | inl e, _ => inl e
  | _, None => inl "this value cannot be bound"
  | inr t, Some p =>
      let kept := filter (fun r => id_is p r = false) (t_rows t) in
      inr (<[name := Table (t_columns t) kept]> db,
           Z.of_nat (length (t_rows t) - length kept))
  end.

(** [DELETE FROM name] *)
Definition delete_all (db : database) (name : string) : string + (database * Z) :=
  match query db name [] false with
  | inl e => inl e
  | inr t => inr (<[name := Table (t_columns t) []]> db, Z.of_nat (length (t_rows t)))
  end.

End Sqlite.

(* ===================================================================== *)
(** ** The store: [class SquirrelDB] *)
(* ===================================================================== *)

Import Js.

Inductive ErrorKind : Type :=
| MissingValue
| ParseException
| InvalidType.

(** ['string' | 'number' | 'boolean' | 'json'] *)
Inductive ColumnType : Type :=
| Tstring
| Tnumber
| Tboolean
| Tjson.

#[global] Instance ColumnType_eq_dec : EqDecision ColumnType.
Proof. solve_decision. Defined.

Definition ColumnDefinition : Type := string * ColumnType.

#[global] Instance ColumnDefinition_eq_dec : EqDecision ColumnDefinition.
Proof. unfold ColumnDefinition. apply _. Defined.

Record TableSchema : Type := Schema {
  columns : list ColumnDefinition
}.

#[global] Instance TableSchema_eq_dec : EqDecision TableSchema.
Proof. solve_decision. Defined.

(** [Record<string, any>]: the own properties of a record. *)
Abbreviation RowData := (gmap string value).

(** [data[name]]: [undefined] when the property is missing. *)
Definition prop (data : RowData) (name : string) : value :=
  default VUndefined (data !! name).

(** What a method can throw: an error made by [createError], which carries
    a [kind], or an error of the runtime or of the storage engine, which
    carries none. *)
Inductive Error : Type :=
| SquirrelError (message : string) (kind : ErrorKind)
| SyntaxError
| TypeError
| SQLiteError (message : string).

Definition createError (message : string) (kind : ErrorKind) : Error :=
  SquirrelError message kind.

(** [error.kind] *)
Definition kind_of (e : Error) : option ErrorKind :=
  match e with
  | SquirrelError _ kind => Some kind
  | _ => None
  end.

Inductive Result (A : Type) : Type :=
| Ok (a : A)
| Throw (e : Error).
Arguments Ok {A} a.
Arguments Throw {A} e.

#[global] Instance result_bind : MBind Result := fun A B f m =>
  match m with
  | Ok a => f a
  | Throw e => Throw e
  end.

#[global] Instance result_fmap : FMap Result := fun A B f m =>
  match m with
  | Ok a => Ok (f a)
  | Throw e => Throw e
  end.

(** A value between double quotes, as the messages show it. *)
Definition quoted (s : string) : string :=
  String JSON.dquote (s ++ String JSON.dquote "").

(** The schema argument of [initTable] as its guard tells it apart:
    no schema, a schema without a [columns] array, or a schema. *)
Inductive SchemaArg : Type :=
| NoSchema
| NoColumns
| SchemaOf (schema : TableSchema).

(** An instance: its database, its schema registry and its mirrors.  The
    fields [path] and [predefinedTables] are written by the constructor and
    never read, they are left out. *)
Inductive SquirrelDB : Type := Instance {
  db : Sqlite.database;
  tableSchemas : gmap string TableSchema;
  mirrors : list SquirrelDB
}.

(** [new SquirrelDB({filePath})] on the database the file holds. *)
Definition new_SquirrelDB (file : Sqlite.database) : SquirrelDB :=
  {| db := file; tableSchemas := ∅; mirrors := [] |}.

(** [primary.mirrors.push(mirror)] *)
Definition attach (primary mirror : SquirrelDB) : SquirrelDB :=
  {| db := db primary; tableSchemas := tableSchemas primary;
     mirrors := mirrors primary ++ [mirror] |}.

(** The two errors several methods raise. *)
Definition not_a_string (what : string) (v : value) : Error :=
  createError (what ++ " must be a string, received " ++ quoted (typeof v)) InvalidType.

Definition no_schema (tableName : string) : Error :=
  createError ("Table " ++ tableName ++ " does not exist or has no schema defined")
    InvalidType.

Definition snapshot (d : Sqlite.database) : Sqlite.database := d.

Definition getSQLiteType (type : ColumnType) : string :=
  match type with
  | Tstring => "TEXT"
  | Tnumber => "REAL"
  | Tboolean => "INTEGER"
  | Tjson => "TEXT"
  end.

(** The schema after [createTableIfNotExists] has made sure of its [id]
    column ([schema.columns.unshift(['id', 'string'])]). *)
Definition with_id (schema : TableSchema) : TableSchema :=
  let hasIdColumn := existsb (fun '(name, _) => String.eqb name "id") (columns schema) in
  if negb hasIdColumn
  then {| columns := ("id", Tstring) :: columns schema |}
  else schema.

(** The result is the instance's new database and registry, and the schema
    object, which the method has changed in place. *)
Definition createTableIfNotExists (this : SquirrelDB) (tableName : string)
    (schema : TableSchema)
  : Result (Sqlite.database * gmap string TableSchema * TableSchema) :=
  let schema := with_id schema in
  let columnDefinitions :=
    map (fun '(name, type) =>
           Sqlite.Column name (getSQLiteType type) (String.eqb name "id"))
        (columns schema) in
  match Sqlite.create_table_if_not_exists (db this) tableName columnDefinitions with
  | inl message => Throw (SQLiteError message)
  | inr db' => Ok (db', <[tableName := schema]> (tableSchemas this), schema)
  end.

(** The body of the validation loop for one column. *)
Definition validateColumn (data : RowData) (column : ColumnDefinition) : Result unit :=
  let '(columnName, columnType) := column in
  match data !! columnName with
  | Some value =>
      if is_null value then Ok tt
      else
        match columnType with
        | Tstring =>
            if String.eqb (typeof value) "string" then Ok tt
            else Throw (createError
              ("Column '" ++ columnName ++ "' expects string, got " ++ typeof value)
              InvalidType)
        | Tnumber =>
            if String.eqb (typeof value) "number" then Ok tt
            else Throw (createError
              ("Column '" ++ columnName ++ "' expects number, got " ++ typeof value)
              InvalidType)
        | Tboolean =>
            if String.eqb (typeof value) "boolean" then Ok tt
            else Throw (createError
              ("Column '" ++ columnName ++ "' expects boolean, got " ++ typeof value)
              InvalidType)
        | Tjson =>
            match JSON.stringify value with
            | inr _ => Ok tt
            | inl _ => Throw (createError
                ("Column '" ++ columnName ++ "' contains non-serializable JSON data")
                InvalidType)
            end
        end
  | None => Ok tt
  end.

Fixpoint for_each {A : Type} (body : A -> Result unit) (l : list A) : Result unit :=
  match l with
  | [] => Ok tt
  | x :: l' => body x ≫= fun _ => for_each body l'
  end.

Definition validateRowData (this : SquirrelDB) (tableName : string) (data : RowData)
  : Result unit :=
  match tableSchemas this !! tableName with
  | None => Throw (no_schema tableName)
  | Some schema =>
      if negb (truthy (prop data "id"))
      then Throw (createError "Field 'id' is required for all operations" MissingValue)
      else for_each (validateColumn data) (columns schema)
  end.

Definition serializeValue (value : Js.value) (type : ColumnType) : Result Js.value :=
  match type with
  | Tjson =>
      match JSON.stringify value with
      | inr text => Ok text
      | inl _ => Throw TypeError
      end
  | Tboolean => Ok (VNum (Fin (if truthy value then 1 else 0)))
  | _ => Ok value
  end.

Definition deserializeValue (value : Js.value) (type : ColumnType) : Result Js.value :=
  if is_null value then Ok VNull
  else
    match type with
    | Tjson =>
        match JSON.parse value with
        | Some document => Ok document
        | None => Throw SyntaxError
        end
    | Tboolean => Ok (VBool (is_one value))
    | Tnumber => Ok (VNum (to_number value))
    | Tstring => Ok value
    end.

(** The loop of [add] that collects [columnsToInsert] and [values]. *)
Fixpoint columnsToInsert (data : RowData) (cols : list ColumnDefinition)
  : Result (list string * list value) :=
  match cols with
  | [] => Ok ([], [])
  | (columnName, columnType) :: cols' =>
      match data !! columnName with
      | Some value =>
          if is_undefined value then columnsToInsert data cols'
          else
            serialized ← serializeValue value columnType;
            '(names, values) ← columnsToInsert data cols';
            Ok (columnName :: names, serialized :: values)
      | None => columnsToInsert data cols'
      end
  end.

(** The loop of [get], [all] and [startsWith] that builds [result] from a
    row. *)
Fixpoint deserializeRow (row : gmap string Sqlite.cell) (cols : list ColumnDefinition)
    (result : RowData) : Result RowData :=
  match cols with
  | [] => Ok result
  | (columnName, columnType) :: cols' =>
      match row !! columnName with
      | Some stored =>
          value ← deserializeValue (Sqlite.to_js stored) columnType;
          deserializeRow row cols' (<[columnName := value]> result)
      | None => deserializeRow row cols' result
      end
  end.

(** [rows.map(row => ...)] *)
Fixpoint deserializeRows (rows : list (gmap string Sqlite.cell))
    (cols : list ColumnDefinition) : Result (list RowData) :=
  match rows with
  | [] => Ok []
  | row :: rows' =>
      first ← deserializeRow row cols ∅;
      others ← deserializeRows rows' cols;
      Ok (first :: others)
  end.

(** *** Calls and traces

    Every public method notes its call, with the instance it runs on; an
    instance is named by its path from the primary (the i-th mirror of the
    instance [p] is [p ++ [i]]).  The trace is what the properties on
    replication talk about; it has no influence on the results. *)
Inductive Call : Type :=
| CallInitTable (tableName : value) (schema : SchemaArg)
| CallAdd (tableName : value) (data : RowData)
| CallGet (tableName id : value)
| CallAll (tableName : value)
| CallHas (tableName id : value)
| CallDelete (tableName id : value)
| CallDeleteAll (tableName : value)
| CallStartsWith (tableName query : value)
| CallIncrement (tableName id : value) (column : string) (delta : number).

Definition Event : Type := list nat * Call.

(** What a call that may change the instance leaves. *)
Record Run (A : Type) : Type := MkRun {
  trace : list Event;
  result : Result A;
  final : SquirrelDB
}.
Arguments MkRun {A} trace result final.
Arguments trace {A} r.
Arguments result {A} r.
Arguments final {A} r.

(** [for (const mirror of this.mirrors) { await call(mirror) }]: the
    mirrors are called one after the other; the first that throws ends the
    loop. *)
Definition replicate {A : Type} (self : list nat)
    (call : list nat -> SquirrelDB -> Run A)
  : nat -> list SquirrelDB -> list Event * option Error * list SquirrelDB :=
  fix loop (i : nat) (ms : list SquirrelDB) :=
    match ms with
    | [] => ([], None, [])
    | mirror :: ms' =>
        let r := call (self ++ [i])%list mirror in
        match result r with
        | Throw e => (trace r, Some e, final r :: ms')
        | Ok _ =>
            let '(events, thrown, ms'') := loop (S i) ms' in
            ((trace r ++ events)%list, thrown, final r :: ms'')
        end
    end.

(** *** The public methods *)

(** [initTable] on the instance itself, before the mirrors.  A value [v]
    has [typeof v === "string"] exactly when it is a [VStr] (see
    [typeof_string]), so the guards on [tableName], [id] and [query] are
    written as a match on the value.  The warning on a table name that is
    already registered prints and changes nothing. *)
Definition initTable_local (this : SquirrelDB) (tableName : value) (schema : SchemaArg)
  : Result (Sqlite.database * gmap string TableSchema * TableSchema) :=
  match tableName with
  | VStr name =>
      match schema with
      | SchemaOf schema => createTableIfNotExists this name schema
      | _ => Throw (createError "Schema must contain a 'columns' array" InvalidType)
      end
  | _ => Throw (not_a_string "Table name" tableName)
  end.

Fixpoint initTable (self : list nat) (this : SquirrelDB) (tableName : value)
    (schema : SchemaArg) {struct this} : Run unit :=
  let here := (self, CallInitTable tableName schema) in
  match initTable_local this tableName schema with
  | Throw e => MkRun [here] (Throw e) this
  | Ok (db', schemas', schema') =>
      match this with
      | Instance _ _ ms =>
          let '(events, thrown, ms') :=
            replicate self (fun p mirror => initTable p mirror tableName (SchemaOf schema'))
              0%nat ms in
          MkRun (here :: events)
                (match thrown with Some e => Throw e | None => Ok tt end)
                (Instance db' schemas' ms')
      end
  end.

(** [add] on the instance itself, up to [snapshot]. *)
Definition add_local (this : SquirrelDB) (tableName : value) (data : RowData)
  : Result Sqlite.database :=
  match tableName with
  | VStr name =>
      _ ← validateRowData this name data;
      match tableSchemas this !! name with
      | None => Throw TypeError
      | Some schema =>
          '(names, values) ← columnsToInsert data (columns schema);
          match Sqlite.insert_or_replace (db this) name names values with
          | inl message =>
              Throw (createError
                ("Failed to insert data into table " ++ name ++ ": " ++ message)
                InvalidType)
          | inr db' => Ok (snapshot db')
          end
      end
  | _ => Throw (not_a_string "Table name" tableName)
  end.

Fixpoint add (self : list nat) (this : SquirrelDB) (tableName : value)
    (data : RowData) {struct this} : Run RowData :=
  let here := (self, CallAdd tableName data) in
  match add_local this tableName data with
  | Throw e => MkRun [here] (Throw e) this
  | Ok db' =>
      match this with
      | Instance _ schemas ms =>
          let '(events, thrown, ms') :=
            replicate self (fun p mirror => add p mirror tableName data) 0%nat ms in
          MkRun (here :: events)
                (match thrown with Some e => Throw e | None => Ok data end)
                (Instance db' schemas ms')
      end
  end.

Definition get_result (this : SquirrelDB) (tableName id : value)
  : Result (option RowData) :=
  match tableName with
  | VStr name =>
      match id with
      | VStr _ =>
          match tableSchemas this !! name with
          | None => Throw (no_schema name)
          | Some schema =>
              let names := map fst (columns schema) in
              match Sqlite.select_by_id (db this) name names id with
              | inl message => Throw (SQLiteError message)
              | inr None => Ok None
              | inr (Some row) => Some <$> deserializeRow row (columns schema) ∅
              end
          end
      | _ => Throw (not_a_string "ID" id)
      end
  | _ => Throw (not_a_string "Table name" tableName)
  end.

Definition get (self : list nat) (this : SquirrelDB) (tableName id : value)
  : list Event * Result (option RowData) :=
  ([(self, CallGet tableName id)], get_result this tableName id).

Definition all (self : list nat) (this : SquirrelDB) (tableName : value)
  : list Event * Result (list RowData) :=
  ([(self, CallAll tableName)],
   match tableName with
   | VStr name =>
       match tableSchemas this !! name with
       | None => Throw (no_schema name)
       | Some schema =>
           let names := map fst (columns schema) in
           match Sqlite.select_all (db this) name names with
           | inl message => Throw (SQLiteError message)
           | inr rows => deserializeRows rows (columns schema)
           end
       end
   | _ => Throw (not_a_string "Table name" tableName)
   end).

Definition has (self : list nat) (this : SquirrelDB) (tableName id : value)
  : list Event * Result bool :=
  let '(events, found) := get self this tableName id in
  ((self, CallHas tableName id) :: events,
   (fun record => match record with Some _ => true | None => false end) <$> found).

Definition delete_local (this : SquirrelDB) (tableName id : value)
  : Result (Sqlite.database * Z) :=
  match tableName with
  | VStr name =>
      match id with
      | VStr _ =>
          match Sqlite.delete_by_id (db this) name id with
          | inl message => Throw (SQLiteError message)
          | inr (db', changes) => Ok (snapshot db', changes)
          end
      | _ => Throw (not_a_string "ID" id)
      end
  | _ => Throw (not_a_string "Table name" tableName)
  end.

Fixpoint delete (self : list nat) (this : SquirrelDB) (tableName id : value)
    {struct this} : Run number :=
  let here := (self, CallDelete tableName id) in
  match delete_local this tableName id with
  | Throw e => MkRun [here] (Throw e) this
  | Ok (db', changes) =>
      match this with
      | Instance _ schemas ms =>
          let '(events, thrown, ms') :=
            replicate self (fun p mirror => delete p mirror tableName id) 0%nat ms in
          MkRun (here :: events)
                (match thrown with
                 | Some e => Throw e
                 | None => Ok (Fin (if 0 <? changes then 1 else 0))
                 end)
                (Instance db' schemas ms')
      end
  end.

Definition deleteAll_local (this : SquirrelDB) (tableName : value)
  : Result (Sqlite.database * Z) :=
  match tableName with
  | VStr name =>
      match Sqlite.delete_all (db this) name with
      | inl message => Throw (SQLiteError message)
      | inr (db', changes) => Ok (snapshot db', changes)
      end
  | _ => Throw (not_a_string "Table name" tableName)
  end.

Fixpoint deleteAll (self : list nat) (this : SquirrelDB) (tableName : value)
    {struct this} : Run number :=
  let here := (self, CallDeleteAll tableName) in
  match deleteAll_local this tableName with
  | Throw e => MkRun [here] (Throw e) this
  | Ok (db', changes) =>
      match this with
      | Instance _ schemas ms =>
          let '(events, thrown, ms') :=
            replicate self (fun p mirror => deleteAll p mirror tableName) 0%nat ms in
          MkRun (here :: events)
                (match thrown with Some e => Throw e | None => Ok (Fin changes) end)
                (Instance db' schemas ms')
      end
  end.

Definition startsWith (self : list nat) (this : SquirrelDB) (tableName query : value)
  : list Event * Result (list RowData) :=
  ([(self, CallStartsWith tableName query)],
   match tableName with
   | VStr name =>
       match query with
       | VStr prefix =>
           match tableSchemas this !! name with
           | None => Throw (no_schema name)
           | Some schema =>
               let names := map fst (columns schema) in
               match Sqlite.select_like (db this) name names (prefix ++ "%") with
               | inl message => Throw (SQLiteError message)
               | inr rows => deserializeRows rows (columns schema)
               end
           end
       | _ => Throw (not_a_string "Query" query)
       end
   | _ => Throw (not_a_string "Table name" tableName)
   end).

Definition increment (self : list nat) (this : SquirrelDB) (tableName id : value)
    (column : string) (value : number) : Run number :=
  let here := (self, CallIncrement tableName id column value) in
  match tableName with
  | VStr name =>
      let '(events, found) := get self this tableName id in
      match found with
      | Throw e => MkRun (here :: events) (Throw e) this
      | Ok None =>
          MkRun (here :: events)
            (Throw (createError
               ("Record with id '" ++ to_string id ++ "' not found in table '" ++ name ++ "'")
               MissingValue))
            this
      | Ok (Some record) =>
          match or_else (prop record column) (VNum (Fin 0)) with
          | VNum currentValue =>
              let newValue := Js.add currentValue value in
              let record := <[column := VNum newValue]> record in
              let written := add self this tableName record in
              MkRun (here :: events ++ trace written)%list
                    ((fun _ => newValue) <$> result written)
                    (final written)
          | _ =>
              MkRun (here :: events)
                (Throw (createError ("Column '" ++ column ++ "' is not a number") InvalidType))
                this
          end
      end
  | _ => MkRun [here] (Throw (not_a_string "Table name" tableName)) this
  end.

(* ===================================================================== *)
(** ** Vocabulary of the properties *)
(* ===================================================================== *)

(** A value of the logical type of a column. *)
Definition of_type (v : value) (type : ColumnType) : bool :=
  match type, v with
  | Tstring, VStr _ => true
  | Tnumber, VNum _ => true
  | Tboolean, VBool _ => true
  | Tjson, _ => JSON.is_document v
  | _, _ => false
  end.

(** The instance tree with every schema registry emptied. *)
Fixpoint without_schemas (this : SquirrelDB) : SquirrelDB :=
  match this with
  | Instance d _ ms => Instance d ∅ (map without_schemas ms)
  end.

(** [schema.columns.some(([name]) => name === 'id')] *)
Definition has_id_column (schema : TableSchema) : bool :=
  existsb (fun '(name, _) => String.eqb name "id") (columns schema).

(** Exactly one column is named [id], it has type [Tstring], and it is at
    index [i]. *)
Definition one_text_id_at (i : nat) (cols : list ColumnDefinition) : Prop :=
  cols !! i = Some ("id", Tstring) /\
  forall j type, cols !! j = Some ("id", type) -> j = i.

(** A call that is rejected with an error of the given kind and leaves the
    instance, its mirrors included, as it was. *)
Definition rejected_with {A : Type} (kind : ErrorKind) (run : Run A)
    (before : SquirrelDB) : Prop :=
  (exists message, result run = Throw (SquirrelError message kind)) /\
  final run = before.

(** [p] names a mirror of the instance [self]. *)
Definition child_of (self p : list nat) : bool :=
  match drop (length self) p with
  | [_] => bool_decide (take (length self) p = self)
  | _ => false
  end.

(** The calls an instance made on its own mirrors, among the events of a
    trace. *)
Definition direct_calls (self : list nat) (events : list Event) : list Event :=
  filter (fun ev => child_of self (fst ev) = true) events.

(** An event of an instance strictly below [p]. *)
Definition below (p : list nat) (ev : Event) : Prop :=
  exists i q, fst ev = (p ++ i :: q)%list.

(** What the loop over the mirrors [ms] of [self] did, for a method [call]
    noted as [c]: it called the first [k] mirrors, in order, each call
    complete before the next; every mirror was called unless the last call
    threw. *)
Definition replayed_in_order {A : Type} (self : list nat) (ms : list SquirrelDB)
    (call : list nat -> SquirrelDB -> Run A) (c : Call)
    (events : list Event) (thrown : option Error) (ms' : list SquirrelDB) : Prop :=
  exists k, (k <= length ms)%nat /\
    events = concat (imap (fun i m => trace (call (self ++ [i])%list m)) (take k ms)) /\
    direct_calls self events = imap (fun i _ => ((self ++ [i])%list, c)) (take k ms) /\
    ms' = (imap (fun i m => final (call (self ++ [i])%list m)) (take k ms) ++ drop k ms)%list /\
    match thrown with
    | None =>
        k = length ms /\
        forall i m, ms !! i = Some m -> exists a, result (call (self ++ [i])%list m) = Ok a
    | Some e =>
        exists j m, k = S j /\ ms !! j = Some m /\
          result (call (self ++ [j])%list m) = Throw e
    end.

(** The stored table has the columns of the schema, declared as
    [createTableIfNotExists] declares them. *)
Definition declared_as (schema : TableSchema) (t : Sqlite.table) : Prop :=
  Forall (fun '(name, type) =>
            Sqlite.Column name (getSQLiteType type) (String.eqb name "id")
            ∈ Sqlite.t_columns t)
         (columns schema).

(** The table [name] is registered with [schema], its [id] column is of
    type [Tstring], its column names are distinct, and the table in the
    database is the one the schema describes (the registration has not
    drifted from the storage). *)
Definition registered (this : SquirrelDB) (name : string) (schema : TableSchema) : Prop :=
  tableSchemas this !! name = Some schema /\
  NoDup (map fst (columns schema)) /\
  ("id", Tstring) ∈ columns schema /\
  match db this !! name with
  | Some t => declared_as schema t
  | None => False
  end.

#[global] Instance declared_as_dec schema t : Decision (declared_as schema t).
Proof. apply Forall_dec. intros [name type]. apply _. Defined.

#[global] Instance registered_dec this name schema : Decision (registered this name schema).
Proof. unfold registered. destruct (db this !! name); apply _. Defined.

(** A value of the logical type of a column that the storage represents:
    as [of_type], but for [NaN], which the engine stores as [NULL]. *)
Definition storable (v : value) (type : ColumnType) : bool :=
  match type, v with
  | Tstring, VStr _ => true
  | Tnumber, VNum n => negb (is_nan n)
  | Tboolean, VBool _ => true
  | Tjson, _ => JSON.is_document v
  | _, _ => false
  end.



(** What [add] leaves in the column [c] of type [type] of the row it
    writes for [data], when serialising and binding go through. *)
Definition cell_written (data : RowData) (c : string) (type : ColumnType)
  : option Sqlite.cell :=
  match data !! c with
  | Some v =>
      if is_undefined v then Some Sqlite.SNull
      else match serializeValue v type with
           | Ok stored => Sqlite.bind stored
           | Throw _ => None
           end
  | None => Some Sqlite.SNull
  end.

(** The shape of the trace of a replicated method on one instance: its
    own call first, then events of instances below it. *)
Definition own_call_first (c : Call) (p : list nat) (events : list Event) : Prop :=
  exists rest, events = (p, c) :: rest /\ Forall (below p) rest.


(* ===================================================================== *)
(** ** The stores of the examples *)
(* ===================================================================== *)

(** The store of the examples: a table [users] with a text, a number, a
    boolean and a JSON column. *)
Definition users_schema : TableSchema :=
  Schema [("name", Tstring); ("age", Tnumber); ("active", Tboolean); ("meta", Tjson)].

Definition users_store : SquirrelDB :=
  final (initTable [] (new_SquirrelDB ∅) (VStr "users") (SchemaOf users_schema)).

Definition john : RowData :=
  list_to_map [("id", VStr "user-001"); ("name", VStr "John Doe"); ("age", VNum (Fin 30));
               ("active", VBool true);
               ("meta", VObj [("role", VStr "admin"); ("tags", VArr [VNum (Fin 1); VNull])])].



(** A table whose column [body] was registered as text, filled, and
    registered again as JSON. *)
Definition notes_reregistered : SquirrelDB :=
  let s1 := final (initTable [] (new_SquirrelDB ∅) (VStr "notes")
                     (SchemaOf (Schema [("body", Tstring)]))) in
  let s2 := final (add [] s1 (VStr "notes")
                     (<[ "body" := VStr "{oops" ]> {[ "id" := VStr "n1" ]})) in
  final (initTable [] s2 (VStr "notes") (SchemaOf (Schema [("body", Tjson)]))).



(** A table [t] with a number column [score], and the record [x] without
    a score. *)
Definition scores_store : SquirrelDB :=
  let s1 := final (initTable [] (new_SquirrelDB ∅) (VStr "t")
                     (SchemaOf (Schema [("score", Tnumber)]))) in
  final (add [] s1 (VStr "t") {[ "id" := VStr "x" ]}).

(** The table [t] with the rows [a-1], [a-2] and [b-1]. *)
Definition prefixes_store : SquirrelDB :=
  let s1 := final (initTable [] (new_SquirrelDB ∅) (VStr "t")
                     (SchemaOf (Schema [("id", Tstring)]))) in
  let s2 := final (add [] s1 (VStr "t") {[ "id" := VStr "a-1" ]}) in
  let s3 := final (add [] s2 (VStr "t") {[ "id" := VStr "a-2" ]}) in
  final (add [] s3 (VStr "t") {[ "id" := VStr "b-1" ]}).

(** A primary with one mirror, both with the table [users]. *)
Definition mirrored_store : SquirrelDB :=
  final (initTable [] (attach (new_SquirrelDB ∅) (new_SquirrelDB ∅)) (VStr "users")
           (SchemaOf users_schema)).

(* ===================================================================== *)
(** ** Vocabulary of the further properties *)
(* ===================================================================== *)

(** The instances of a tree: the instance itself, then the instances of
    its mirrors, in the order of the lists. *)
Fixpoint instances (this : SquirrelDB) : list SquirrelDB :=
  this :: match this with
          | Instance _ _ ms => concat (map instances ms)
          end.

(** A property of every instance of the tree. *)
Definition everywhere (P : SquirrelDB -> Prop) (this : SquirrelDB) : Prop :=
  Forall P (instances this).

(** The instance tree with every database emptied: what is left is the
    registries and the shape of the tree. *)
Fixpoint without_data (this : SquirrelDB) : SquirrelDB :=
  match this with
  | Instance _ schemas ms => Instance ∅ schemas (map without_data ms)
  end.




(** A table as [createTableIfNotExists] creates it: its primary key is
    the column named [id], and no other. *)
Definition keyed_by_id (t : Sqlite.table) : Prop :=
  Forall (fun c => Sqlite.c_primary_key c = String.eqb (Sqlite.c_name c) "id")
         (Sqlite.t_columns t).

(** An instance all of whose tables are keyed by [id]. *)
Definition store_made (this : SquirrelDB) : Prop :=
  map_Forall (fun _ t => keyed_by_id t) (db this).

(** The record has the string [s] as its [id]. *)
Definition has_id (s : string) (record : RowData) : bool :=
  match record !! "id" with
  | Some (VStr s') => String.eqb s' s
  | _ => false
  end.

(** Two instances on which the readers return the same for the table
    [name]: [get] by any id, [all], and [startsWith] by any query. *)
Definition same_reads (name : string) (a b : SquirrelDB) : Prop :=
  (forall id, get_result a (VStr name) id = get_result b (VStr name) id) /\
  snd (all [] a (VStr name)) = snd (all [] b (VStr name)) /\
  (forall query, snd (startsWith [] a (VStr name) query)
                 = snd (startsWith [] b (VStr name) query)).

(** A record as the readers build it for a schema: every field is a
    column of the schema, and holds [null] or a value of the column's
    type; a text column holds what is stored, as it is. *)
Definition read_from (schema : TableSchema) (record : RowData) : Prop :=
  forall c v, record !! c = Some v ->
    exists type, (c, type) ∈ columns schema /\
      (v = VNull \/ (type = Tstring /\ exists cell, v = Sqlite.to_js cell) \/
       (type <> Tstring /\ of_type v type = true)).


(** *** What a JSON column gives back *)

(** A value all of whose objects have distinct property names, as the
    objects of JS have. *)
Fixpoint distinct_names (v : value) : bool :=
  match v with
  | VArr elems => forallb distinct_names elems
  | VObj props =>
      bool_decide (NoDup (map fst props))
      && forallb (fun kx => distinct_names (snd kx)) props
  | _ => true
  end.

(** The document that [JSON.stringify] writes for a value: [NaN] and the
    infinities are written as [null], a hole of an array as [null], and a
    member that is [undefined] is left out. *)
Fixpoint as_document (v : value) : value :=
  match v with
  | VNum (Fin z) => VNum (Fin z)
  | VNum _ => VNull
  | VArr elems =>
      VArr (map (fun x => match x with VUndefined => VNull | _ => as_document x end) elems)
  | VObj props =>
      let fix members (l : list (string * value)) : list (string * value) :=
        match l with
        | [] => []
        | (k, x) :: l' =>
            match x with
            | VUndefined => members l'
            | _ => (k, as_document x) :: members l'
            end
        end in
      VObj (members props)
  | _ => v
  end.

(** The two loops of [as_document], by name. *)
Definition item_document (x : value) : value :=
  match x with VUndefined => VNull | _ => as_document x end.

Definition member_documents : list (string * value) -> list (string * value) :=
  fix members (l : list (string * value)) : list (string * value) :=
    match l with
    | [] => []
    | (k, x) :: l' =>
        match x with
        | VUndefined => members l'
        | _ => (k, as_document x) :: members l'
        end
    end.

(** What [get] returns in a column of type [type] after [add] was given
    [v] for it ([undefined]: nothing): a text or a number comes back as
    it is, but for [NaN], which comes back as [null]; a boolean column
    gives the truthiness of what was given, so [false] for [null]; a JSON
    column gives the document written. *)
Definition read_back (type : ColumnType) (v : value) : value :=
  if is_undefined v then VNull
  else match type with
       | Tstring => v
       | Tnumber => match v with VNum NaN => VNull | _ => v end
       | Tboolean => VBool (truthy v)
       | Tjson => as_document v
       end.

(** A table name as SQLite compares it: without regard to the case of
    ASCII letters. *)
Fixpoint fold_case (s : string) : string :=
  match s with
  | EmptyString => EmptyString
  | String c rest => String (Sqlite.lower c) (fold_case rest)
  end.

(* ===================================================================== *)
(** ** JSON: writing and parsing *)
(* ===================================================================== *)
Module JSONFacts.
Import Js JSON.

Lemma append_assoc (a b c : string) : (a ++ b) ++ c = a ++ (b ++ c).
Proof. induction a as [|x a IH]; simpl; [reflexivity | now rewrite IH]. Qed.

Lemma length_append (a b : string) :
  String.length (a ++ b) = (String.length a + String.length b)%nat.
Proof. induction a as [|x a IH]; simpl; [reflexivity | now rewrite IH]. Qed.

Lemma quote_char_parse (c : ascii) (s : string) :
  parse_chars (quote_char c ++ s) = prepend c (parse_chars s).
Proof.
  destruct c as [[] [] [] [] [] [] [] []]; reflexivity.
Qed.

Lemma parse_chars_quote (s rest : string) :
  parse_chars (quote_chars s ++ String dquote rest) = Some (s, rest).
Proof.
  induction s as [|c s IH]; [reflexivity|].
  cbn [quote_chars]. rewrite append_assoc, quote_char_parse, IH. reflexivity.
Qed.

Lemma scan_digits_digits (d : uint) (rest : string) :
  match rest with String c _ => digit_of c = None | EmptyString => True end ->
  scan_digits (digits d ++ rest) = (d, rest).
Proof.
  intros Hrest.
  induction d as [|d IH|d IH|d IH|d IH|d IH|d IH|d IH|d IH|d IH|d IH];
    try (cbn [digits append scan_digits]; cbn [digit_of]; rewrite IH; reflexivity).
  cbn [digits append]. destruct rest as [|c rest]; [reflexivity|].
  cbn [scan_digits]. now rewrite Hrest.
Qed.

Lemma delimited_no_digit (rest : string) :
  delimited rest = true ->
  match rest with String c _ => digit_of c = None | EmptyString => True end.
Proof.
  destruct rest as [|c rest]; [trivial|]. cbn [delimited]. intros H.
  apply orb_true_iff in H as [H|H]; [apply orb_true_iff in H as [H|H]|];
    apply Ascii.eqb_eq in H; subst c; reflexivity.
Qed.

Lemma delimited_no_fraction (rest : string) :
  delimited rest = true -> continues_number rest = false.
Proof.
  destruct rest as [|c rest]; [trivial|]. cbn [delimited]. intros H.
  apply orb_true_iff in H as [H|H]; [apply orb_true_iff in H as [H|H]|];
    apply Ascii.eqb_eq in H; subst c; reflexivity.
Qed.

Lemma to_uint_well_formed (p : positive) : well_formed_int (Pos.to_uint p) = true.
Proof.
  pose proof (Unsigned.to_uint_nonnil p) as Hnil.
  pose proof (Unsigned.to_uint_nonzero p) as Hzero.
  pose proof (Unsigned.to_of (Pos.to_uint p)) as Hnorm.
  rewrite Unsigned.of_to in Hnorm. cbn [N.to_uint] in Hnorm.
  destruct (Pos.to_uint p) as [|d|d|d|d|d|d|d|d|d|d] eqn:E; try reflexivity.
  - congruence.
  - exfalso. unfold unorm in Hnorm.
    destruct (nzhead (D0 d)) eqn:En; try (apply (nzhead_nonzero _ _ En)); try congruence.
Qed.

Lemma digits_head (d : uint) :
  d <> Nil ->
  exists c t, digits d = String c t /\ is_Some (digit_of c).
Proof.
  destruct d; [congruence|..]; intros _; cbn [digits]; eexists _, _; (split; [reflexivity|]);
    cbn; eauto.
Qed.

Lemma digit_not_special (c : ascii) :
  is_Some (digit_of c) ->
  is_ws c = false /\ Ascii.eqb c "[" = false /\ Ascii.eqb c "]" = false /\
  Ascii.eqb c "{" = false /\ Ascii.eqb c dquote = false /\ Ascii.eqb c "n" = false /\
  Ascii.eqb c "t" = false /\ Ascii.eqb c "f" = false /\ Ascii.eqb c "-" = false.
Proof.
  destruct c as [[] [] [] [] [] [] [] []]; cbn; intros [? H]; try discriminate H;
    repeat split; reflexivity.
Qed.

Lemma to_int_cases (z : Z) :
  exists d, well_formed_int d = true /\
    (Z.to_int z = Pos d \/ Z.to_int z = Neg d).
Proof.
  destruct z as [|p|p]; cbn [Z.to_int].
  - exists (D0 Nil). split; [reflexivity | now left].
  - exists (Pos.to_uint p). split; [apply to_uint_well_formed | now left].
  - exists (Pos.to_uint p). split; [apply to_uint_well_formed | now right].
Qed.

Lemma well_formed_nonnil (d : uint) : well_formed_int d = true -> d <> Nil.
Proof. destruct d; [discriminate | congruence ..]. Qed.

(** The text of an integer starts a value and parses back to the integer. *)
Lemma parse_value_integer (fuel : nat) (z : Z) (rest : string) :
  delimited rest = true ->
  parse_value (S fuel) (integer_to_string z ++ rest) = Some (VNum (Fin z), rest).
Proof.
  intros Hrest.
  pose proof (of_to z) as Hz.
  destruct (to_int_cases z) as (d & Hwf & [E|E]); unfold integer_to_string;
    rewrite E in *;
    destruct (digits_head d (well_formed_nonnil d Hwf)) as (c & t & Ed & Hc);
    destruct (digit_not_special c Hc) as (W & H1 & H2 & H3 & H4 & H5 & H6 & H7 & H8).
  - rewrite Ed. cbn [parse_value append skip_ws]. rewrite W, H1, H3, H4, H5, H6, H7.
    unfold parse_number. rewrite H8.
    change (String c (t ++ rest)) with (String c t ++ rest).
    rewrite <- Ed, scan_digits_digits by now apply delimited_no_digit.
    rewrite Hwf, delimited_no_fraction by assumption. cbn [negb andb]. now rewrite Hz.
  - cbn [parse_value append skip_ws is_ws]. cbn [Ascii.eqb Bool.eqb andb].
    unfold parse_number. cbn [Ascii.eqb Bool.eqb andb].
    rewrite scan_digits_digits by now apply delimited_no_digit.
    rewrite Hwf, delimited_no_fraction by assumption. cbn [negb andb]. now rewrite Hz.
Qed.

Lemma integer_opens_value (z : Z) (rest : string) :
  opens_value (integer_to_string z ++ rest) = true.
Proof.
  destruct (to_int_cases z) as (d & Hwf & [E|E]); unfold integer_to_string; rewrite E.
  - destruct (digits_head d (well_formed_nonnil d Hwf)) as (c & t & Ed & Hc).
    destruct (digit_not_special c Hc) as (W & H1 & H2 & _).
    rewrite Ed. cbn. now rewrite W, H2.
  - reflexivity.
Qed.

Lemma value_nested_ind (P : value -> Prop) :
  P VUndefined -> P VNull -> (forall b, P (VBool b)) -> (forall n, P (VNum n)) ->
  (forall s, P (VStr s)) -> (forall z, P (VBigInt z)) ->
  (forall elems, Forall P elems -> P (VArr elems)) ->
  (forall props, Forall (fun kx => P (snd kx)) props -> P (VObj props)) ->
  forall v, P v.
Proof.
  intros Hu Hn Hb Hnum Hs Hz Harr Hobj.
  fix IH 1. intros [| |b|n|s|z|elems|props].
  - exact Hu.
  - exact Hn.
  - apply Hb.
  - apply Hnum.
  - apply Hs.
  - apply Hz.
  - apply Harr. induction elems as [|x elems IHl]; constructor; [apply IH | exact IHl].
  - apply Hobj. induction props as [|[k x] props IHl]; constructor; [apply IH | exact IHl].
Qed.

Lemma write_arr (elems : list value) :
  write (VArr elems) =
  match write_items elems with
  | Some ss => Text ("[" ++ String.concat "," ss ++ "]")
  | None => Throws
  end.
Proof. reflexivity. Qed.

Lemma write_obj (props : list (string * value)) :
  write (VObj props) =
  match write_members props with
  | Some ss => Text ("{" ++ String.concat "," ss ++ "}")
  | None => Throws
  end.
Proof. reflexivity. Qed.

Lemma concat_commas (t : string) (ts : list string) :
  String.concat "," (t :: ts) = t ++ after_commas ts.
Proof.
  revert t. induction ts as [|t' ts IH]; intros t.
  - cbn. induction t; cbn; [reflexivity | now f_equal].
  - change (String.concat "," (t :: t' :: ts)) with (t ++ "," ++ String.concat "," (t' :: ts)).
    now rewrite IH.
Qed.

Lemma opens_value_append (t rest : string) :
  opens_value t = true -> opens_value (t ++ rest) = true.
Proof. destruct t; [discriminate | trivial]. Qed.

Lemma skip_ws_opens (s : string) : opens_value s = true -> skip_ws s = s.
Proof.
  destruct s as [|c s]; [discriminate|]. cbn. intros H.
  apply andb_true_iff in H as [H _]. now destruct (is_ws c).
Qed.

Lemma set_property_fresh (k : string) (x : value) (props : list (string * value)) :
  k ∉ map fst props -> set_property k x props = (props ++ [(k, x)])%list.
Proof.
  induction props as [|[k' x'] props IH]; intros Hk; [reflexivity|].
  cbn [set_property]. cbn [map fst] in Hk. apply not_elem_of_cons in Hk as [Hne Hk].
  destruct (String.eqb_spec k' k); [congruence|]. now rewrite IH.
Qed.

Lemma delimited_after_commas (ts : list string) (close : ascii) (rest : string) :
  close = "]"%char \/ close = "}"%char ->
  delimited (after_commas ts ++ String close rest) = true.
Proof. intros [-> | ->]; destruct ts; reflexivity. Qed.

Lemma write_items_documents (elems : list value) :
  Forall (fun x => is_document x = true -> exists t, reads_back x t) elems ->
  forallb is_document elems = true ->
  exists ts, write_items elems = Some ts /\ Forall2 reads_back elems ts.
Proof.
  induction 1 as [|x elems Hx _ IH]; intros Hdoc.
  - exists []. split; [reflexivity | constructor].
  - cbn [forallb] in Hdoc. apply andb_true_iff in Hdoc as [Hd Hds].
    destruct (Hx Hd) as (t & Ht). destruct (IH Hds) as (ts & Hts & Hall).
    exists (t :: ts). split; [|now constructor].
    cbn [write_items]. fold write_items. destruct Ht as (-> & _). cbn [item_text].
    now rewrite Hts.
Qed.

Lemma parse_elements_rest (xs : list value) (ts : list string) :
  Forall2 reads_back xs ts ->
  forall acc fuel rest,
    (String.length (after_commas ts ++ String "]" rest) < fuel)%nat ->
    parse_elements fuel acc (after_commas ts ++ String "]" rest)
    = Some (VArr (acc ++ xs), rest).
Proof.
  induction 1 as [|x t xs ts (Hw & Ho & Hp) _ IH]; intros acc fuel rest Hlen.
  - destruct fuel as [|fuel]; [cbn in Hlen; lia|].
    cbn. now rewrite app_nil_r.
  - destruct fuel as [|fuel]; [cbn in Hlen; lia|].
    cbn [after_commas] in *. rewrite !append_assoc in *.
    cbn [append] in *. cbn [parse_elements skip_ws is_ws].
    cbn [Ascii.eqb Bool.eqb]. cbn [String.length] in Hlen.
    rewrite Hp.
    + rewrite IH; [now rewrite <- app_assoc|].
      rewrite length_append in Hlen. lia.
    + now apply delimited_after_commas; left.
    + lia.
Qed.

Lemma write_members_documents (props : list (string * value)) :
  Forall (fun kx => is_document (snd kx) = true -> exists t, reads_back (snd kx) t) props ->
  forallb (fun kx => is_document (snd kx)) props = true ->
  exists ms, write_members props = Some ms /\ Forall2 member_reads_back props ms.
Proof.
  induction 1 as [|[k x] props Hx _ IH]; intros Hdoc.
  - exists []. split; [reflexivity | constructor].
  - cbn [forallb] in Hdoc. apply andb_true_iff in Hdoc as [Hd Hds].
    destruct (Hx Hd) as (t & Ht). destruct (IH Hds) as (ms & Hms & Hall).
    exists ((quote k ++ ":" ++ t) :: ms). split.
    + cbn [write_members]. fold write_members. destruct Ht as (Hw & _).
      cbn [snd] in Hw. rewrite Hw. cbn [member_text]. now rewrite Hms.
    + constructor; [|assumption]. now exists t.
Qed.

Lemma quote_append (k s : string) :
  quote k ++ s = String dquote (quote_chars k ++ String dquote s).
Proof. unfold quote. cbn [append]. now rewrite append_assoc. Qed.

Lemma length_quote (k : string) : (2 <= String.length (quote k))%nat.
Proof. unfold quote. cbn [String.length]. rewrite length_append. cbn. lia. Qed.

Lemma parse_member_step (k : string) (x : value) (t : string)
    (acc : list (string * value)) (fuel : nat) (R : string) :
  reads_back x t -> k ∉ map fst acc -> delimited R = true ->
  (String.length (t ++ R) < fuel)%nat ->
  parse_member (S fuel) acc (quote k ++ ":" ++ t ++ R)
  = parse_members fuel (acc ++ [(k, x)]) R.
Proof.
  intros (Hw & Ho & Hp) Hk HR Hlen.
  rewrite quote_append. cbn [parse_member skip_ws].
  change (is_ws dquote) with false. cbn iota.
  rewrite Ascii.eqb_refl, parse_chars_quote.
  cbn [append skip_ws is_ws]. cbn [Ascii.eqb Bool.eqb].
  rewrite Hp by assumption. now rewrite set_property_fresh.
Qed.

Lemma parse_member_list (props : list (string * value)) :
  forall kx m ms acc fuel rest,
    Forall2 member_reads_back (kx :: props) (m :: ms) ->
    NoDup (map fst (acc ++ kx :: props)) ->
    (String.length (m ++ after_commas ms ++ String "}" rest) < fuel)%nat ->
    parse_member fuel acc (m ++ after_commas ms ++ String "}" rest)
    = Some (VObj (acc ++ kx :: props), rest).
Proof.
  induction props as [|kx' props IH]; intros [k x] m ms acc fuel rest Hall Hnd Hlen;
    apply Forall2_cons_1 in Hall as [(t & -> & Hrb) Hall]; cbn [fst snd] in *;
    rewrite !append_assoc in *;
    pose proof (length_quote k) as Hq;
    rewrite !length_append in Hlen; cbn [String.length] in Hlen;
    (destruct fuel as [|[|fuel]]; [lia | lia |]);
    assert (Hfresh : k ∉ map fst acc)
      by (rewrite map_app in Hnd; apply NoDup_app in Hnd as (_ & Hdis & _);
          intros Hin; apply (Hdis _ Hin); cbn; left);
    (rewrite (parse_member_step k x t); [| assumption | assumption
      | now apply delimited_after_commas; right | rewrite !length_append; cbn; lia ]).
  - apply Forall2_nil_inv_l in Hall as ->. cbn. reflexivity.
  - destruct ms as [|m' ms]; [now apply Forall2_cons_nil_inv in Hall|].
    cbn [after_commas append parse_members skip_ws is_ws].
    cbn [Ascii.eqb Bool.eqb]. rewrite !append_assoc.
    rewrite (IH kx' m' ms (acc ++ [(k, x)])%list); [now rewrite <- app_assoc | assumption | now rewrite <- app_assoc |].
    cbn [after_commas] in Hlen. rewrite !length_append in *. cbn in *. lia.
Qed.

Lemma document_reads_back (v : value) :
  is_document v = true -> exists t, reads_back v t.
Proof.
  induction v as [| |b|n|s|z|elems IH|props IH] using value_nested_ind; intros Hdoc;
    try discriminate Hdoc.
  - exists "null". split; [reflexivity | split; [reflexivity|]].
    intros [|fuel] rest _ Hlen; [cbn in Hlen; lia | reflexivity].
  - exists (if b then "true" else "false").
    split; [now destruct b | split; [now destruct b|]].
    intros [|fuel] rest _ Hlen; [cbn in Hlen; lia | now destruct b].
  - destruct n as [| | |z]; try discriminate Hdoc.
    exists (integer_to_string z). split; [reflexivity | split].
    + rewrite <- (integer_opens_value z ""). f_equal.
      clear. induction (integer_to_string z); cbn; [reflexivity | now f_equal].
    + intros [|fuel] rest Hrest Hlen; [cbn in Hlen; lia|].
      now apply parse_value_integer.
  - exists (quote s). split; [reflexivity | split; [reflexivity|]].
    intros [|fuel] rest _ Hlen; [cbn in Hlen; lia|].
    rewrite quote_append. cbn [parse_value skip_ws].
    change (is_ws dquote) with false. cbn iota.
    change (Ascii.eqb dquote "[") with false. change (Ascii.eqb dquote "{") with false.
    cbn iota. rewrite Ascii.eqb_refl, parse_chars_quote. reflexivity.
  - cbn [is_document] in Hdoc.
    destruct (write_items_documents elems IH Hdoc) as (ts & Hts & Hall).
    exists ("[" ++ String.concat "," ts ++ "]").
    split; [now rewrite write_arr, Hts | split; [reflexivity|]].
    intros [|fuel] rest Hrest Hlen; [cbn in Hlen; lia|].
    destruct Hall as [|x t xs ts Hx Hall].
    + reflexivity.
    + rewrite concat_commas in *. rewrite ?append_assoc. cbn [append].
      rewrite ?append_assoc. cbn [append].
      rewrite ?append_assoc in Hlen. cbn [append String.length] in Hlen.
      rewrite ?append_assoc in Hlen. cbn [append] in Hlen.
      destruct Hx as (Hw & Ho & Hp).
      cbn [parse_value skip_ws is_ws]. cbn [Ascii.eqb Bool.eqb].
      pose proof (opens_value_append t (after_commas ts ++ String "]" rest) Ho) as Ho'.
      rewrite (skip_ws_opens _ Ho').
      destruct (t ++ after_commas ts ++ String "]" rest) as [|c' r'] eqn:E;
        [discriminate Ho'|].
      cbn [opens_value] in Ho'. apply andb_true_iff in Ho' as [_ Hc'].
      apply negb_true_iff in Hc'. rewrite Hc'. rewrite <- E.
      rewrite Hp; [| now apply delimited_after_commas; left | rewrite E; cbn in *; lia].
      rewrite (parse_elements_rest xs ts Hall); [reflexivity|].
      apply (f_equal String.length) in E. rewrite length_append in E.
      cbn in *. lia.
  - cbn [is_document] in Hdoc. apply andb_true_iff in Hdoc as [Hnd Hdoc].
    apply bool_decide_eq_true in Hnd.
    destruct (write_members_documents props IH Hdoc) as (ms & Hms & Hall).
    exists ("{" ++ String.concat "," ms ++ "}").
    split; [now rewrite write_obj, Hms | split; [reflexivity|]].
    intros [|fuel] rest Hrest Hlen; [cbn in Hlen; lia|].
    destruct Hall as [|kx m props ms Hkx Hall].
    + reflexivity.
    + rewrite concat_commas in *. rewrite ?append_assoc. cbn [append].
      rewrite ?append_assoc. cbn [append].
      rewrite ?append_assoc in Hlen. cbn [append String.length] in Hlen.
      rewrite ?append_assoc in Hlen. cbn [append] in Hlen.
      cbn [parse_value skip_ws is_ws]. cbn [Ascii.eqb Bool.eqb].
      assert (Hm : exists r, m = String dquote r).
      { destruct Hkx as (t & -> & _). rewrite quote_append. eauto. }
      destruct Hm as (r & ->). cbn [append skip_ws].
      change (is_ws dquote) with false. cbn iota.
      change (Ascii.eqb dquote "}") with false. cbn iota.
      change (String dquote (r ++ after_commas ms ++ String "}" rest))
        with (String dquote r ++ after_commas ms ++ String "}" rest).
      rewrite (parse_member_list props kx (String dquote r) ms []);
        [reflexivity | now constructor | assumption | cbn in *; lia].
Qed.

(** Parsing the text written for a document gives the document back. *)
Lemma parse_text_write (v : value) :
  is_document v = true ->
  exists t, write v = Text t /\ parse_text t = Some v.
Proof.
  intros Hdoc. destruct (document_reads_back v Hdoc) as (t & Hw & _ & Hp).
  exists t. split; [assumption|]. unfold parse_text.
  specialize (Hp (2 * String.length t + 2)%nat "" eq_refl).
  assert (Hnil : t ++ "" = t).
  { clear. induction t; cbn; [reflexivity | now f_equal]. }
  rewrite Hnil in Hp. rewrite Hp by lia. reflexivity.
Qed.
End JSONFacts.

Module JSONDocuments.
Import Js JSON JSONFacts.

Lemma set_property_names k x props :
  forall k', k' ∈ map fst (set_property k x props) <-> k' = k \/ k' ∈ map fst props.
Proof.
  induction props as [|[k0 x0] props IH]; intros k'; cbn [set_property map fst].
  - rewrite elem_of_cons, elem_of_nil. tauto.
  - destruct (String.eqb_spec k0 k) as [->|Hne]; cbn [map fst].
    + rewrite !elem_of_cons. tauto.
    + rewrite !elem_of_cons, IH. tauto.
Qed.

Lemma set_property_document k x props :
  is_document x = true -> document_members props ->
  document_members (set_property k x props).
Proof.
  intros Hx [Hnd Hall]. induction props as [|[k0 x0] props IH]; cbn [set_property].
  - split; [cbn; apply NoDup_singleton | now constructor].
  - cbn [map fst] in Hnd. apply NoDup_cons in Hnd as [Hfresh Hnd].
    apply Forall_cons in Hall as [Hx0 Hall].
    destruct (String.eqb_spec k0 k) as [->|Hne].
    + split; [cbn; now apply NoDup_cons | now constructor].
    + destruct (IH Hnd Hall) as [Hnd' Hall']. split; [|now constructor].
      cbn [map fst]. apply NoDup_cons. split; [|exact Hnd'].
      rewrite set_property_names. intros [-> | Hin]; [congruence | contradiction].
Qed.

Lemma document_object props : document_members props -> is_document (VObj props) = true.
Proof.
  intros [Hnd Hall]. cbn [is_document]. apply andb_true_iff. split.
  - now apply bool_decide_eq_true.
  - apply forallb_forall. intros kx Hin. apply list_elem_of_In in Hin.
    eapply Forall_forall in Hall; eauto.
Qed.

Lemma document_array elems :
  Forall (fun x => is_document x = true) elems -> is_document (VArr elems) = true.
Proof.
  intros Hall. cbn [is_document]. apply forallb_forall. intros x Hin.
  apply list_elem_of_In in Hin. eapply Forall_forall in Hall; eauto.
Qed.

Lemma parse_number_document s v rest :
  parse_number s = Some (v, rest) -> is_document v = true.
Proof.
  unfold parse_number. destruct s as [|c s]; [discriminate|].
  destruct (scan_digits _) as [d rest']. destruct (_ && _); [|discriminate].
  now intros [= <- _].
Qed.

(** Whatever the parser returns is a document. *)
Lemma parse_document (fuel : nat) :
  (forall s v rest, parse_value fuel s = Some (v, rest) -> is_document v = true) /\
  (forall acc s v rest, Forall (fun x => is_document x = true) acc ->
     parse_elements fuel acc s = Some (v, rest) -> is_document v = true) /\
  (forall acc s v rest, document_members acc ->
     parse_member fuel acc s = Some (v, rest) -> is_document v = true) /\
  (forall acc s v rest, document_members acc ->
     parse_members fuel acc s = Some (v, rest) -> is_document v = true).
Proof.
  induction fuel as [|fuel (IHv & IHe & IHm & IHms)];
    [repeat split; intros; discriminate|].
  split; [|split; [|split]].
  - intros s v rest. cbn [parse_value].
    repeat case_match; try discriminate; intros Hres; simplify_eq; try reflexivity.
    + eapply IHe; [|eassumption]. constructor; [|constructor]. eapply IHv; eassumption.
    + eapply IHm; [|eassumption]. split; constructor.
    + eapply parse_number_document; eassumption.
  - intros acc s v rest Hacc. cbn [parse_elements].
    repeat case_match; try discriminate; intros Hres; simplify_eq.
    + now apply document_array.
    + eapply IHe; [|eassumption]. apply Forall_app. split; [exact Hacc|].
      constructor; [|constructor]. eapply IHv; eassumption.
  - intros acc s v rest Hacc. cbn [parse_member].
    repeat case_match; try discriminate; intros Hres; simplify_eq.
    eapply IHms; [|eassumption]. apply set_property_document; [|exact Hacc].
    eapply IHv; eassumption.
  - intros acc s v rest Hacc. cbn [parse_members].
    repeat case_match; try discriminate; intros Hres; simplify_eq.
    + now apply document_object.
    + eapply IHm; eassumption.
Qed.

Lemma parse_text_document (s : string) (v : value) :
  parse_text s = Some v -> is_document v = true.
Proof.
  unfold parse_text. destruct (parse_value _ s) as [[v' rest]|] eqn:E; [|discriminate].
  destruct (skip_ws rest); [|discriminate]. intros [= <-].
  eapply (proj1 (parse_document _)); eassumption.
Qed.

End JSONDocuments.

(* ===================================================================== *)
(** ** Serialising and deserialising *)
(* ===================================================================== *)

Import JSONFacts.

(** *** C1 *)




(* ===================================================================== *)
(** ** The instance tree and the replication loop *)
(* ===================================================================== *)

Lemma typeof_string (v : value) : typeof v = "string" <-> exists s, v = VStr s.
Proof.
  split; [|intros (s & ->); reflexivity].
  destruct v; try discriminate; eauto.
Qed.

Lemma SquirrelDB_nested_ind (P : SquirrelDB -> Prop) :
  (forall d schemas ms, Forall P ms -> P (Instance d schemas ms)) ->
  forall this, P this.
Proof.
  intros Hstep. fix IH 1. intros [d schemas ms]. apply Hstep.
  induction ms as [|m ms IHms]; constructor; [apply IH | exact IHms].
Qed.

Lemma initTable_unfold self this tableName schema :
  initTable self this tableName schema =
  match initTable_local this tableName schema with
  | Throw e => MkRun [(self, CallInitTable tableName schema)] (Throw e) this
  | Ok (db', schemas', schema') =>
      let '(events, thrown, ms') :=
        replicate self (fun p mirror => initTable p mirror tableName (SchemaOf schema'))
          0%nat (mirrors this) in
      MkRun ((self, CallInitTable tableName schema) :: events)
            (match thrown with Some e => Throw e | None => Ok tt end)
            (Instance db' schemas' ms')
  end.
Proof. destruct this; reflexivity. Qed.

Lemma add_unfold self this tableName data :
  add self this tableName data =
  match add_local this tableName data with
  | Throw e => MkRun [(self, CallAdd tableName data)] (Throw e) this
  | Ok db' =>
      let '(events, thrown, ms') :=
        replicate self (fun p mirror => add p mirror tableName data) 0%nat (mirrors this) in
      MkRun ((self, CallAdd tableName data) :: events)
            (match thrown with Some e => Throw e | None => Ok data end)
            (Instance db' (tableSchemas this) ms')
  end.
Proof. destruct this; reflexivity. Qed.

Lemma delete_unfold self this tableName id :
  delete self this tableName id =
  match delete_local this tableName id with
  | Throw e => MkRun [(self, CallDelete tableName id)] (Throw e) this
  | Ok (db', changes) =>
      let '(events, thrown, ms') :=
        replicate self (fun p mirror => delete p mirror tableName id) 0%nat (mirrors this) in
      MkRun ((self, CallDelete tableName id) :: events)
            (match thrown with
             | Some e => Throw e
             | None => Ok (Fin (if 0 <? changes then 1 else 0))
             end)
            (Instance db' (tableSchemas this) ms')
  end.
Proof. destruct this; reflexivity. Qed.

Lemma deleteAll_unfold self this tableName :
  deleteAll self this tableName =
  match deleteAll_local this tableName with
  | Throw e => MkRun [(self, CallDeleteAll tableName)] (Throw e) this
  | Ok (db', changes) =>
      let '(events, thrown, ms') :=
        replicate self (fun p mirror => deleteAll p mirror tableName) 0%nat (mirrors this) in
      MkRun ((self, CallDeleteAll tableName) :: events)
            (match thrown with Some e => Throw e | None => Ok (Fin changes) end)
            (Instance db' (tableSchemas this) ms')
  end.
Proof. destruct this; reflexivity. Qed.

(** An error that leaves the loop was thrown by one of the mirrors. *)
Lemma replicate_thrown {A : Type} (self : list nat)
    (call : list nat -> SquirrelDB -> Run A) (Q : Error -> Prop) (ms : list SquirrelDB) :
  Forall (fun m => forall p e, result (call p m) = Throw e -> Q e) ms ->
  forall i e, (replicate self call i ms).1.2 = Some e -> Q e.
Proof.
  induction 1 as [|m ms Hm _ IH]; intros i e; cbn [replicate].
  - discriminate.
  - destruct (result (call (self ++ [i])%list m)) as [a|e'] eqn:E.
    + specialize (IH (S i) e).
      destruct (replicate self call (S i) ms) as [[events thrown] ms']. exact IH.
    + cbn. intros [= <-]. eapply Hm, E.
Qed.

(* ===================================================================== *)
(** ** The properties of the methods *)
(* ===================================================================== *)

(** *** C10 *)

(** The loop on mirrors that differ by [f] only, under calls that do not
    look at the difference. *)
Lemma replicate_map {A : Type} (self : list nat)
    (call : list nat -> SquirrelDB -> Run A) (f : SquirrelDB -> SquirrelDB)
    (ms : list SquirrelDB) :
  Forall (fun m => forall p,
            trace (call p (f m)) = trace (call p m) /\
            result (call p (f m)) = result (call p m) /\
            final (call p (f m)) = f (final (call p m))) ms ->
  forall i,
    replicate self call i (map f ms) =
    let '(events, thrown, ms') := replicate self call i ms in
    (events, thrown, map f ms').
Proof.
  induction 1 as [|m ms Hm _ IH]; intros i; cbn [replicate map]; [reflexivity|].
  destruct (Hm (self ++ [i])%list) as (Ht & Hr & Hf). rewrite Ht, Hr, Hf.
  destruct (result (call (self ++ [i])%list m)); [|reflexivity].
  rewrite IH. now destruct (replicate self call (S i) ms) as [[events thrown] ms'].
Qed.

Lemma delete_thrown_by_engine self this (name id : string) (e : Error) :
  result (delete self this (VStr name) (VStr id)) = Throw e ->
  exists message, e = SQLiteError message.
Proof.
  revert self e. induction this as [d schemas ms IH] using SquirrelDB_nested_ind.
  intros self e. rewrite delete_unfold. unfold delete_local. cbn [db mirrors].
  destruct (Sqlite.delete_by_id d name (VStr id)) as [message|[db' changes]].
  - cbn. intros [= <-]. eauto.
  - pose proof (replicate_thrown self
      (fun p mirror => delete p mirror (VStr name) (VStr id))
      (fun e => exists message, e = SQLiteError message) ms) as Hrep.
    specialize (Hrep ltac:(eapply Forall_impl; [exact IH | cbn; eauto]) 0%nat).
    destruct (replicate _ _ _ ms) as [[events thrown] ms']. cbn in *.
    destruct thrown as [e'|]; [|discriminate]. intros [= <-]. now apply Hrep.
Qed.

Lemma deleteAll_thrown_by_engine self this (name : string) (e : Error) :
  result (deleteAll self this (VStr name)) = Throw e ->
  exists message, e = SQLiteError message.
Proof.
  revert self e. induction this as [d schemas ms IH] using SquirrelDB_nested_ind.
  intros self e. rewrite deleteAll_unfold. unfold deleteAll_local. cbn [db mirrors].
  destruct (Sqlite.delete_all d name) as [message|[db' changes]].
  - cbn. intros [= <-]. eauto.
  - pose proof (replicate_thrown self
      (fun p mirror => deleteAll p mirror (VStr name))
      (fun e => exists message, e = SQLiteError message) ms) as Hrep.
    specialize (Hrep ltac:(eapply Forall_impl; [exact IH | cbn; eauto]) 0%nat).
    destruct (replicate _ _ _ ms) as [[events thrown] ms']. cbn in *.
    destruct thrown as [e'|]; [|discriminate]. intros [= <-]. now apply Hrep.
Qed.

Lemma delete_without_schemas this : forall self tableName id,
  trace (delete self (without_schemas this) tableName id)
    = trace (delete self this tableName id) /\
  result (delete self (without_schemas this) tableName id)
    = result (delete self this tableName id) /\
  final (delete self (without_schemas this) tableName id)
    = without_schemas (final (delete self this tableName id)).
Proof.
  induction this as [d schemas ms IH] using SquirrelDB_nested_ind.
  intros self tableName id. rewrite !delete_unfold. cbn [without_schemas].
  unfold delete_local. cbn [db mirrors tableSchemas].
  destruct tableName; try (cbn; auto).
  destruct id; try (cbn; auto).
  destruct (Sqlite.delete_by_id d s (VStr s0)) as [message|[db' changes]]; [cbn; auto|].
  rewrite (replicate_map self _ without_schemas ms).
  - destruct (replicate _ _ _ ms) as [[events thrown] ms']. cbn. auto.
  - eapply Forall_impl; [exact IH|]. cbn. intros m Hm p. apply Hm.
Qed.

Lemma deleteAll_without_schemas this : forall self tableName,
  trace (deleteAll self (without_schemas this) tableName)
    = trace (deleteAll self this tableName) /\
  result (deleteAll self (without_schemas this) tableName)
    = result (deleteAll self this tableName) /\
  final (deleteAll self (without_schemas this) tableName)
    = without_schemas (final (deleteAll self this tableName)).
Proof.
  induction this as [d schemas ms IH] using SquirrelDB_nested_ind.
  intros self tableName. rewrite !deleteAll_unfold. cbn [without_schemas].
  unfold deleteAll_local. cbn [db mirrors tableSchemas].
  destruct tableName; try (cbn; auto).
  destruct (Sqlite.delete_all d s) as [message|[db' changes]]; [cbn; auto|].
  rewrite (replicate_map self _ without_schemas ms).
  - destruct (replicate _ _ _ ms) as [[events thrown] ms']. cbn. auto.
  - eapply Forall_impl; [exact IH|]. cbn. intros m Hm p. apply Hm.
Qed.

(** C10: [delete] and [deleteAll] never look at the schema registry.  On
    any table name that is a string (and an id that is one) an error they
    raise is an error of the storage engine, never the [InvalidType] of an
    unregistered table; they run the same on the instance whose registries
    are empty; [get], [all] and [startsWith] on an unregistered table raise
    that [InvalidType] error. *)
Theorem delete_never_consults_registry self this (name id : string) :
  (forall e, result (delete self this (VStr name) (VStr id)) = Throw e ->
             exists message, e = SQLiteError message) /\
  (forall e, result (deleteAll self this (VStr name)) = Throw e ->
             exists message, e = SQLiteError message) /\
  (result (delete self (without_schemas this) (VStr name) (VStr id))
     = result (delete self this (VStr name) (VStr id)) /\
   final (delete self (without_schemas this) (VStr name) (VStr id))
     = without_schemas (final (delete self this (VStr name) (VStr id)))) /\
  (result (deleteAll self (without_schemas this) (VStr name))
     = result (deleteAll self this (VStr name)) /\
   final (deleteAll self (without_schemas this) (VStr name))
     = without_schemas (final (deleteAll self this (VStr name)))) /\
  (tableSchemas this !! name = None ->
     kind_of (no_schema name) = Some InvalidType /\
     snd (get self this (VStr name) (VStr id)) = Throw (no_schema name) /\
     snd (all self this (VStr name)) = Throw (no_schema name) /\
     snd (startsWith self this (VStr name) (VStr id)) = Throw (no_schema name)).
Proof.
  split; [intros e; apply delete_thrown_by_engine|].
  split; [intros e; apply deleteAll_thrown_by_engine|].
  split; [split; apply delete_without_schemas|].
  split; [split; apply deleteAll_without_schemas|].
  intros Hnone. unfold get, get_result, all, startsWith. cbn [snd]. rewrite Hnone.
  repeat split; reflexivity.
Qed.

Lemma delete_never_consults_registry_witness :
  (exists message,
     result (delete [] (new_SquirrelDB ∅) (VStr "ghost") (VStr "x")) = Throw (SQLiteError message)) /\
  snd (get [] (new_SquirrelDB ∅) (VStr "ghost") (VStr "x")) = Throw (no_schema "ghost").
Proof.
  pose proof (delete_never_consults_registry [] (new_SquirrelDB ∅) "ghost" "x")
    as (Hdel & _ & _ & _ & Hget).
  split.
  - destruct (result (delete [] (new_SquirrelDB ∅) (VStr "ghost") (VStr "x"))) as [n|e] eqn:E.
    + vm_compute in E. discriminate E.
    + destruct (Hdel e eq_refl) as (message & ->). now exists message.
  - apply Hget. reflexivity.
Defined.

(** *** C7 *)

Lemma has_id_column_spec (schema : TableSchema) :
  has_id_column schema = true <-> exists i type, columns schema !! i = Some ("id", type).
Proof.
  unfold has_id_column. rewrite existsb_exists. split.
  - intros ([name type] & Hin & Heq). apply String.eqb_eq in Heq as ->.
    apply list_elem_of_In, list_elem_of_lookup in Hin as (i & Hi). eauto.
  - intros (i & type & Hi). exists ("id", type). split; [|reflexivity].
    apply list_elem_of_In, list_elem_of_lookup. eauto.
Qed.

Lemma with_id_spec (schema : TableSchema) :
  with_id schema =
  if has_id_column schema then schema else Schema (("id", Tstring) :: columns schema).
Proof. unfold with_id, has_id_column. now destruct (existsb _ _). Qed.

Lemma with_id_has_id (schema : TableSchema) : has_id_column (with_id schema) = true.
Proof.
  rewrite with_id_spec. destruct (has_id_column schema) eqn:E; [exact E | reflexivity].
Qed.

Lemma with_id_idempotent (schema : TableSchema) : with_id (with_id schema) = with_id schema.
Proof. rewrite (with_id_spec (with_id schema)). now rewrite with_id_has_id. Qed.

(** What a call of [initTable] that returned has registered. *)
Lemma initTable_registers self this (name : string) (schema : TableSchema) :
  result (initTable self this (VStr name) (SchemaOf schema)) = Ok tt ->
  tableSchemas (final (initTable self this (VStr name) (SchemaOf schema))) !! name
  = Some (with_id schema).
Proof.
  rewrite initTable_unfold. unfold initTable_local, createTableIfNotExists.
  destruct (Sqlite.create_table_if_not_exists _ _ _) as [message|db'];
    [discriminate|].
  destruct (replicate _ _ _ _) as [[events thrown] ms']. cbn.
  intros _. apply lookup_insert_eq.
Qed.

(** C7, as the code has it: the schema [initTable] registers has a column
    named [id].  When the caller supplied none, it is the caller's list
    behind a new first column [id] of type [Tstring], which is then the
    only [id] column; when the caller supplied one, the list is registered
    as it came, so the [id] column keeps its place and its declared type,
    whatever that is. *)
Theorem registered_schema_id_column self this (name : string) (schema : TableSchema) :
  result (initTable self this (VStr name) (SchemaOf schema)) = Ok tt ->
  exists stored,
    tableSchemas (final (initTable self this (VStr name) (SchemaOf schema))) !! name
      = Some stored /\
    has_id_column stored = true /\
    (has_id_column schema = false ->
       columns stored = ("id", Tstring) :: columns schema /\
       one_text_id_at 0 (columns stored)) /\
    (has_id_column schema = true -> stored = schema).
Proof.
  intros Hok. exists (with_id schema). split; [now apply initTable_registers|].
  split; [apply with_id_has_id|]. rewrite with_id_spec. split; intros Hid; rewrite Hid.
  - split; [reflexivity|]. split; [reflexivity|].
    intros [|j] type Hj; [reflexivity|]. exfalso. cbn in Hj.
    assert (has_id_column schema = true) by (apply has_id_column_spec; eauto).
    congruence.
  - reflexivity.
Qed.

Lemma registered_schema_id_column_witness :
  exists stored,
    tableSchemas (final (initTable [] (new_SquirrelDB ∅) (VStr "products")
      (SchemaOf (Schema [("name", Tstring); ("price", Tnumber)])))) !! "products"
      = Some stored /\
    one_text_id_at 0 (columns stored).
Proof.
  destruct (registered_schema_id_column [] (new_SquirrelDB ∅) "products"
              (Schema [("name", Tstring); ("price", Tnumber)]))
    as (stored & Hs & _ & Hnew & _).
  - vm_compute. reflexivity.
  - exists stored. split; [exact Hs|]. apply Hnew. reflexivity.
Defined.

(** C7 as stated fails: a caller's [id] column of another type is
    registered with that type. *)
Lemma registered_id_column_not_text :
  result (initTable [] (new_SquirrelDB ∅) (VStr "t") (SchemaOf (Schema [("id", Tnumber)])))
    = Ok tt /\
  tableSchemas (final (initTable [] (new_SquirrelDB ∅) (VStr "t")
    (SchemaOf (Schema [("id", Tnumber)])))) !! "t" = Some (Schema [("id", Tnumber)]) /\
  forall i, ~ one_text_id_at i [("id", Tnumber)].
Proof.
  split; [vm_compute; reflexivity|]. split; [vm_compute; reflexivity|].
  intros [|i] [H _]; cbn in H; discriminate H.
Qed.

(** *** C8 *)

Lemma initTable_thrown_by_engine this : forall self (name : string) (schema : TableSchema) e,
  result (initTable self this (VStr name) (SchemaOf schema)) = Throw e ->
  exists message, e = SQLiteError message.
Proof.
  induction this as [d schemas ms IH] using SquirrelDB_nested_ind.
  intros self name schema e. rewrite initTable_unfold.
  unfold initTable_local, createTableIfNotExists. cbn [db mirrors tableSchemas].
  destruct (Sqlite.create_table_if_not_exists _ _ _) as [message|db'].
  - cbn. intros [= <-]. eauto.
  - pose proof (replicate_thrown self
      (fun p mirror => initTable p mirror (VStr name) (SchemaOf (with_id schema)))
      (fun e => exists message, e = SQLiteError message) ms) as Hrep.
    specialize (Hrep ltac:(eapply Forall_impl; [exact IH | cbn; eauto]) 0%nat).
    destruct (replicate _ _ _ ms) as [[events thrown] ms']. cbn in *.
    destruct thrown as [e'|]; [|discriminate]. intros [= <-]. now apply Hrep.
Qed.

(** C8, as the code has it: [initTable] is rejected with [InvalidType],
    and nothing changes, when the table name is not a string or when the
    schema or its [columns] array is missing.  A name that is a string,
    the empty string too, and a [columns] array, the empty one too, pass
    these checks: whatever is thrown then is an error of the storage
    engine; with an empty array the call runs as with the single
    column [id] of type [Tstring], which is what gets registered. *)
Theorem initTable_argument_checks self this :
  (forall tableName schema, typeof tableName <> "string" ->
     rejected_with InvalidType (initTable self this tableName schema) this) /\
  (forall tableName schema, schema = NoSchema \/ schema = NoColumns ->
     rejected_with InvalidType (initTable self this tableName schema) this) /\
  (forall (name : string) (schema : TableSchema) e,
     result (initTable self this (VStr name) (SchemaOf schema)) = Throw e ->
     exists message, e = SQLiteError message) /\
  (forall name : string,
     result (initTable self this (VStr name) (SchemaOf (Schema [])))
       = result (initTable self this (VStr name) (SchemaOf (Schema [("id", Tstring)]))) /\
     final (initTable self this (VStr name) (SchemaOf (Schema [])))
       = final (initTable self this (VStr name) (SchemaOf (Schema [("id", Tstring)])))).
Proof.
  split; [|split; [|split]].
  - intros tableName schema Htype. rewrite initTable_unfold.
    destruct tableName; try (split; [eexists; reflexivity | reflexivity]).
    now contradict Htype.
  - intros tableName schema Hschema. rewrite initTable_unfold.
    destruct tableName; try (split; [eexists; reflexivity | reflexivity]).
    destruct Hschema as [-> | ->]; (split; [eexists; reflexivity | reflexivity]).
  - intros name schema e. apply initTable_thrown_by_engine.
  - intros name. rewrite !initTable_unfold.
    unfold initTable_local, createTableIfNotExists.
    change (with_id (Schema [])) with (Schema [("id", Tstring)]).
    change (with_id (Schema [("id", Tstring)])) with (Schema [("id", Tstring)]).
    destruct (Sqlite.create_table_if_not_exists (db this) name _); [auto|].
    destruct (replicate _ _ _ _) as [[events thrown] ms']. auto.
Qed.

Lemma initTable_argument_checks_witness :
  rejected_with InvalidType
    (initTable [] (new_SquirrelDB ∅) (VNum (Fin 7)) (SchemaOf (Schema [("name", Tstring)])))
    (new_SquirrelDB ∅) /\
  rejected_with InvalidType (initTable [] (new_SquirrelDB ∅) (VStr "t") NoColumns)
    (new_SquirrelDB ∅).
Proof.
  pose proof (initTable_argument_checks [] (new_SquirrelDB ∅)) as (Hname & Hschema & _).
  split.
  - apply Hname. vm_compute. discriminate.
  - apply Hschema. right. reflexivity.
Defined.

(** C8 as stated fails: an empty [columns] array is accepted, and the
    table is registered with the [id] column alone; an empty table name is
    not rejected with [InvalidType] either, it is the engine that refuses
    the statement. *)
Lemma initTable_accepts_empty_columns :
  ~ rejected_with InvalidType
      (initTable [] (new_SquirrelDB ∅) (VStr "t") (SchemaOf (Schema [])))
      (new_SquirrelDB ∅) /\
  result (initTable [] (new_SquirrelDB ∅) (VStr "t") (SchemaOf (Schema []))) = Ok tt /\
  tableSchemas (final (initTable [] (new_SquirrelDB ∅) (VStr "t") (SchemaOf (Schema []))))
    !! "t" = Some (Schema [("id", Tstring)]) /\
  ~ rejected_with InvalidType
      (initTable [] (new_SquirrelDB ∅) (VStr "") (SchemaOf (Schema [("name", Tstring)])))
      (new_SquirrelDB ∅) /\
  result (initTable [] (new_SquirrelDB ∅) (VStr "") (SchemaOf (Schema [("name", Tstring)])))
    = Throw (SQLiteError "syntax error").
Proof.
  split; [|split; [|split; [|split]]]; try (vm_compute; reflexivity).
  - intros [(message & H) _]. vm_compute in H. discriminate H.
  - intros [(message & H) _]. vm_compute in H. discriminate H.
Qed.

(** *** C5 *)






(** *** C6 *)

(** C6 fails on the code: text that is not JSON, deserialised for a JSON
    column, makes [JSON.parse] throw its [SyntaxError], and nothing wraps
    it: the error has no [kind].  No input makes [deserializeValue] raise
    an error of kind [ParseException]. *)
Theorem deserialize_invalid_json_is_raw_SyntaxError :
  deserializeValue (VStr "{oops") Tjson = Throw SyntaxError /\
  kind_of SyntaxError = None /\
  snd (get [] notes_reregistered (VStr "notes") (VStr "n1")) = Throw SyntaxError /\
  snd (all [] notes_reregistered (VStr "notes")) = Throw SyntaxError /\
  snd (startsWith [] notes_reregistered (VStr "notes") (VStr "n")) = Throw SyntaxError /\
  forall value type,
    deserializeValue value type = Throw SyntaxError \/
    exists v, deserializeValue value type = Ok v.
Proof.
  do 5 (split; [vm_compute; reflexivity|]).
  intros value type. unfold deserializeValue.
  destruct (is_null value); [eauto|].
  destruct type; eauto. destruct (JSON.parse value); eauto.
Qed.

(** *** C4 *)


Lemma increment_unfold self this (name : string) id column delta :
  increment self this (VStr name) id column delta =
  let here := (self, CallIncrement (VStr name) id column delta) in
  let events := [(self, CallGet (VStr name) id)] in
  match get_result this (VStr name) id with
  | Throw e => MkRun (here :: events) (Throw e) this
  | Ok None =>
      MkRun (here :: events)
        (Throw (createError
           ("Record with id '" ++ to_string id ++ "' not found in table '" ++ name ++ "'")
           MissingValue))
        this
  | Ok (Some record) =>
      match or_else (prop record column) (VNum (Fin 0)) with
      | VNum currentValue =>
          let written :=
            add self this (VStr name) (<[column := VNum (Js.add currentValue delta)]> record) in
          MkRun (here :: events ++ trace written)%list
                ((fun _ => Js.add currentValue delta) <$> result written)
                (final written)
      | _ =>
          MkRun (here :: events)
            (Throw (createError ("Column '" ++ column ++ "' is not a number") InvalidType))
            this
      end
  end.
Proof. reflexivity. Qed.




(** *** C3 *)

Lemma child_of_child (self : list nat) (i : nat) : child_of self (self ++ [i]) = true.
Proof.
  unfold child_of. rewrite drop_app_length, take_app_length.
  now apply bool_decide_eq_true.
Qed.

Lemma child_of_below (self : list nat) (i j : nat) (q : list nat) :
  child_of self (self ++ i :: j :: q) = false.
Proof. unfold child_of. now rewrite drop_app_length. Qed.

Lemma direct_calls_own_call_first (self : list nat) (i : nat) (c : Call) events :
  own_call_first c (self ++ [i]) events ->
  direct_calls self events = [((self ++ [i])%list, c)].
Proof.
  intros (rest & -> & Hrest). unfold direct_calls.
  rewrite filter_cons_True by (cbn; apply child_of_child). f_equal.
  induction Hrest as [|ev rest (j & q & Hev) _ IH]; [reflexivity|].
  rewrite filter_cons_False; [exact IH|].
  rewrite Hev, <- app_assoc. cbn. rewrite child_of_below. discriminate.
Qed.

Lemma direct_calls_app (self : list nat) (a b : list Event) :
  direct_calls self (a ++ b) = (direct_calls self a ++ direct_calls self b)%list.
Proof. apply filter_app. Qed.

Lemma below_deeper (self : list nat) (i : nat) (ev : Event) :
  below (self ++ [i]) ev -> below self ev.
Proof.
  intros (j & q & Hev). exists i, (j :: q). now rewrite Hev, <- app_assoc.
Qed.

(** The loop, from the mirror number [i] on. *)
Lemma replicate_from {A : Type} (self : list nat)
    (call : list nat -> SquirrelDB -> Run A) (c : Call) (ms : list SquirrelDB) :
  Forall (fun m => forall p, own_call_first c p (trace (call p m))) ms ->
  forall i,
    let '(events, thrown, ms') := replicate self call i ms in
    exists k, (k <= length ms)%nat /\
      events = concat (imap (fun j m => trace (call (self ++ [(i + j)%nat])%list m)) (take k ms)) /\
      direct_calls self events
        = imap (fun j _ => ((self ++ [(i + j)%nat])%list, c)) (take k ms) /\
      Forall (below self) events /\
      ms' = (imap (fun j m => final (call (self ++ [(i + j)%nat])%list m)) (take k ms)
             ++ drop k ms)%list /\
      match thrown with
      | None =>
          k = length ms /\
          forall j m, ms !! j = Some m ->
            exists a, result (call (self ++ [(i + j)%nat])%list m) = Ok a
      | Some e =>
          exists j m, k = S j /\ ms !! j = Some m /\
            result (call (self ++ [(i + j)%nat])%list m) = Throw e
      end.
Proof.
  induction 1 as [|m ms Hm _ IH]; intros i; cbn [replicate].
  - exists 0%nat. cbn. repeat split; try reflexivity; try constructor.
    intros j m Hj. now rewrite lookup_nil in Hj.
  - assert (Hall : Forall (below self) (trace (call (self ++ [i])%list m))).
    { destruct (Hm (self ++ [i])%list) as (rest & -> & Hrest). constructor.
      - exists i, []. reflexivity.
      - eapply Forall_impl; [exact Hrest|]. intros ev. apply below_deeper. }
    destruct (result (call (self ++ [i])%list m)) as [a|e] eqn:E.
    + specialize (IH (S i)).
      destruct (replicate self call (S i) ms) as [[events thrown] ms'].
      destruct IH as (k & Hk & Hev & Hdir & Hbelow & Hms & Hthrown).
      exists (S k). cbn [length take imap concat drop].
      rewrite Nat.add_0_r.
      assert (Hshift : forall B (f : nat -> SquirrelDB -> B) l,
                imap ((fun j => f (i + j)%nat) ∘ S) l = imap (fun j => f (S i + j)%nat) l).
      { intros B f l. apply imap_ext. intros j x _. cbn. f_equal. lia. }
      split; [lia|]. split; [|split; [|split; [|split]]].
      * rewrite Hev. f_equal. f_equal. symmetry.
        apply (Hshift _ (fun n m => trace (call (self ++ [n])%list m))).
      * rewrite direct_calls_app.
        rewrite (direct_calls_own_call_first self i c) by apply Hm.
        rewrite Hdir. cbn. f_equal. symmetry.
        apply (Hshift _ (fun n _ => ((self ++ [n])%list, c))).
      * now apply Forall_app.
      * rewrite Hms. cbn. f_equal. f_equal. symmetry.
        apply (Hshift _ (fun n m => final (call (self ++ [n])%list m))).
      * destruct thrown as [e|].
        -- destruct Hthrown as (j & m' & -> & Hj & Hres).
           exists (S j), m'. repeat split; [exact Hj|].
           now replace (i + S j)%nat with (S i + j)%nat by lia.
        -- destruct Hthrown as (-> & Hok). split; [reflexivity|].
           intros [|j] m' Hj.
           ++ cbn in Hj. injection Hj as <-. rewrite Nat.add_0_r. eauto.
           ++ cbn in Hj. replace (i + S j)%nat with (S i + j)%nat by lia. eauto.
    + exists 1%nat. cbn [length take imap concat drop]. rewrite Nat.add_0_r, app_nil_r.
      split; [lia|]. repeat split.
      * apply direct_calls_own_call_first, Hm.
      * exact Hall.
      * exists 0%nat, m. rewrite Nat.add_0_r. auto.
Qed.

Lemma replicate_replayed {A : Type} (self : list nat)
    (call : list nat -> SquirrelDB -> Run A) (c : Call) (ms : list SquirrelDB) :
  Forall (fun m => forall p, own_call_first c p (trace (call p m))) ms ->
  forall events thrown ms',
    replicate self call 0%nat ms = (events, thrown, ms') ->
    replayed_in_order self ms call c events thrown ms' /\ Forall (below self) events.
Proof.
  intros Hms events thrown ms' Hrep.
  pose proof (replicate_from self call c ms Hms 0%nat) as H. rewrite Hrep in H.
  destruct H as (k & Hk & Hev & Hdir & Hbelow & Hfin & Hthrown).
  split; [|exact Hbelow]. exists k. cbn in *. auto 10.
Qed.

Lemma initTable_own_call_first this : forall p tableName schema,
  own_call_first (CallInitTable tableName schema) p (trace (initTable p this tableName schema)).
Proof.
  induction this as [d schemas ms IH] using SquirrelDB_nested_ind.
  intros p tableName schema. rewrite initTable_unfold.
  destruct (initTable_local _ _ _) as [[[db' schemas'] schema']|e];
    [|exists []; split; [reflexivity | constructor]].
  cbn [mirrors].
  destruct (replicate p _ 0%nat ms) as [[events thrown] ms'] eqn:E.
  eapply replicate_replayed in E as [_ Hbelow];
    [|eapply Forall_impl; [exact IH|]; cbn; intros m Hm q; apply Hm].
  exists events. split; [reflexivity | exact Hbelow].
Qed.

Lemma add_own_call_first this : forall p tableName data,
  own_call_first (CallAdd tableName data) p (trace (add p this tableName data)).
Proof.
  induction this as [d schemas ms IH] using SquirrelDB_nested_ind.
  intros p tableName data. rewrite add_unfold.
  destruct (add_local _ _ _) as [db'|e];
    [|exists []; split; [reflexivity | constructor]].
  cbn [mirrors].
  destruct (replicate p _ 0%nat ms) as [[events thrown] ms'] eqn:E.
  eapply replicate_replayed in E as [_ Hbelow];
    [|eapply Forall_impl; [exact IH|]; cbn; intros m Hm q; apply Hm].
  exists events. split; [reflexivity | exact Hbelow].
Qed.

Lemma delete_own_call_first this : forall p tableName id,
  own_call_first (CallDelete tableName id) p (trace (delete p this tableName id)).
Proof.
  induction this as [d schemas ms IH] using SquirrelDB_nested_ind.
  intros p tableName id. rewrite delete_unfold.
  destruct (delete_local _ _ _) as [[db' changes]|e];
    [|exists []; split; [reflexivity | constructor]].
  cbn [mirrors].
  destruct (replicate p _ 0%nat ms) as [[events thrown] ms'] eqn:E.
  eapply replicate_replayed in E as [_ Hbelow];
    [|eapply Forall_impl; [exact IH|]; cbn; intros m Hm q; apply Hm].
  exists events. split; [reflexivity | exact Hbelow].
Qed.

Lemma deleteAll_own_call_first this : forall p tableName,
  own_call_first (CallDeleteAll tableName) p (trace (deleteAll p this tableName)).
Proof.
  induction this as [d schemas ms IH] using SquirrelDB_nested_ind.
  intros p tableName. rewrite deleteAll_unfold.
  destruct (deleteAll_local _ _) as [[db' changes]|e];
    [|exists []; split; [reflexivity | constructor]].
  cbn [mirrors].
  destruct (replicate p _ 0%nat ms) as [[events thrown] ms'] eqn:E.
  eapply replicate_replayed in E as [_ Hbelow];
    [|eapply Forall_impl; [exact IH|]; cbn; intros m Hm q; apply Hm].
  exists events. split; [reflexivity | exact Hbelow].
Qed.

(** The schema object the mirrors receive from [initTable] is the caller's,
    after the local call has put the [id] column in; a mirror does with it
    what it would do with the caller's columns. *)
Lemma initTable_with_id self this tableName (schema : TableSchema) :
  result (initTable self this tableName (SchemaOf (with_id schema)))
    = result (initTable self this tableName (SchemaOf schema)) /\
  final (initTable self this tableName (SchemaOf (with_id schema)))
    = final (initTable self this tableName (SchemaOf schema)).
Proof.
  rewrite !initTable_unfold. unfold initTable_local, createTableIfNotExists.
  rewrite with_id_idempotent.
  destruct tableName; auto.
  destruct (Sqlite.create_table_if_not_exists _ _ _); auto.
  destruct (replicate _ _ _ _) as [[events thrown] ms']. auto.
Qed.

(** A mirror that is attached goes last: the order of the list is the
    order of attachment. *)
Lemma attach_last (primary mirror : SquirrelDB) :
  mirrors (attach primary mirror) = (mirrors primary ++ [mirror])%list.
Proof. reflexivity. Qed.

Lemma child_of_self (self : list nat) : child_of self self = false.
Proof. unfold child_of. now rewrite drop_all. Qed.

(** C3: on an instance with mirrors, each of [initTable], [add], [delete]
    and [deleteAll], once it has succeeded on the instance itself, calls
    the same method with the same arguments on the mirrors, in the order of
    the list, each call complete before the next one starts (the loop ends
    early only at a mirror that throws); before that success no mirror is
    called.  The schema [initTable] hands on is the caller's object, which
    by then has its [id] column.  [get], [all], [has] and [startsWith] call
    no mirror. *)
Theorem mutations_replay_on_mirrors self this :
  (forall tableName schema,
     match initTable_local this tableName schema with
     | Throw e =>
         initTable self this tableName schema
         = MkRun [(self, CallInitTable tableName schema)] (Throw e) this
     | Ok (db', schemas', schema') =>
         (exists columns, schema = SchemaOf columns /\ schema' = with_id columns) /\
         exists events thrown ms',
           initTable self this tableName schema
           = MkRun ((self, CallInitTable tableName schema) :: events)
                   (match thrown with Some e => Throw e | None => Ok tt end)
                   (Instance db' schemas' ms') /\
           replayed_in_order self (mirrors this)
             (fun p mirror => initTable p mirror tableName (SchemaOf schema'))
             (CallInitTable tableName (SchemaOf schema')) events thrown ms'
     end) /\
  (forall tableName data,
     match add_local this tableName data with
     | Throw e =>
         add self this tableName data = MkRun [(self, CallAdd tableName data)] (Throw e) this
     | Ok db' =>
         exists events thrown ms',
           add self this tableName data
           = MkRun ((self, CallAdd tableName data) :: events)
                   (match thrown with Some e => Throw e | None => Ok data end)
                   (Instance db' (tableSchemas this) ms') /\
           replayed_in_order self (mirrors this)
             (fun p mirror => add p mirror tableName data)
             (CallAdd tableName data) events thrown ms'
     end) /\
  (forall tableName id,
     match delete_local this tableName id with
     | Throw e =>
         delete self this tableName id
         = MkRun [(self, CallDelete tableName id)] (Throw e) this
     | Ok (db', changes) =>
         exists events thrown ms',
           delete self this tableName id
           = MkRun ((self, CallDelete tableName id) :: events)
                   (match thrown with
                    | Some e => Throw e
                    | None => Ok (Fin (if 0 <? changes then 1 else 0))
                    end)
                   (Instance db' (tableSchemas this) ms') /\
           replayed_in_order self (mirrors this)
             (fun p mirror => delete p mirror tableName id)
             (CallDelete tableName id) events thrown ms'
     end) /\
  (forall tableName,
     match deleteAll_local this tableName with
     | Throw e =>
         deleteAll self this tableName
         = MkRun [(self, CallDeleteAll tableName)] (Throw e) this
     | Ok (db', changes) =>
         exists events thrown ms',
           deleteAll self this tableName
           = MkRun ((self, CallDeleteAll tableName) :: events)
                   (match thrown with Some e => Throw e | None => Ok (Fin changes) end)
                   (Instance db' (tableSchemas this) ms') /\
           replayed_in_order self (mirrors this)
             (fun p mirror => deleteAll p mirror tableName)
             (CallDeleteAll tableName) events thrown ms'
     end) /\
  (forall tableName id,
     fst (get self this tableName id) = [(self, CallGet tableName id)] /\
     fst (all self this tableName) = [(self, CallAll tableName)] /\
     fst (has self this tableName id)
       = [(self, CallHas tableName id); (self, CallGet tableName id)] /\
     fst (startsWith self this tableName id) = [(self, CallStartsWith tableName id)] /\
     direct_calls self (fst (get self this tableName id)) = [] /\
     direct_calls self (fst (all self this tableName)) = [] /\
     direct_calls self (fst (has self this tableName id)) = [] /\
     direct_calls self (fst (startsWith self this tableName id)) = []) /\
  (forall p mirror tableName columns,
     result (initTable p mirror tableName (SchemaOf (with_id columns)))
       = result (initTable p mirror tableName (SchemaOf columns)) /\
     final (initTable p mirror tableName (SchemaOf (with_id columns)))
       = final (initTable p mirror tableName (SchemaOf columns))).
Proof.
  split; [|split; [|split; [|split; [|split]]]].
  - intros tableName schema. rewrite initTable_unfold.
    destruct (initTable_local this tableName schema) as [[[db' schemas'] schema']|e] eqn:El;
      [|reflexivity].
    split.
    { unfold initTable_local, createTableIfNotExists in El.
      destruct tableName; try discriminate. destruct schema as [| |columns]; try discriminate.
      destruct (Sqlite.create_table_if_not_exists _ _ _); [discriminate|].
      injection El as _ _ <-. eauto. }
    destruct (replicate self _ 0%nat (mirrors this)) as [[events thrown] ms'] eqn:E.
    exists events, thrown, ms'. split; [reflexivity|].
    eapply replicate_replayed; [|exact E].
    apply Forall_forall. intros m _ p. apply initTable_own_call_first.
  - intros tableName data. rewrite add_unfold.
    destruct (add_local this tableName data) as [db'|e]; [|reflexivity].
    destruct (replicate self _ 0%nat (mirrors this)) as [[events thrown] ms'] eqn:E.
    exists events, thrown, ms'. split; [reflexivity|].
    eapply replicate_replayed; [|exact E].
    apply Forall_forall. intros m _ p. apply add_own_call_first.
  - intros tableName id. rewrite delete_unfold.
    destruct (delete_local this tableName id) as [[db' changes]|e]; [|reflexivity].
    destruct (replicate self _ 0%nat (mirrors this)) as [[events thrown] ms'] eqn:E.
    exists events, thrown, ms'. split; [reflexivity|].
    eapply replicate_replayed; [|exact E].
    apply Forall_forall. intros m _ p. apply delete_own_call_first.
  - intros tableName. rewrite deleteAll_unfold.
    destruct (deleteAll_local this tableName) as [[db' changes]|e]; [|reflexivity].
    destruct (replicate self _ 0%nat (mirrors this)) as [[events thrown] ms'] eqn:E.
    exists events, thrown, ms'. split; [reflexivity|].
    eapply replicate_replayed; [|exact E].
    apply Forall_forall. intros m _ p. apply deleteAll_own_call_first.
  - intros tableName id. unfold get, all, has, startsWith, get. cbn [fst].
    unfold direct_calls.
    repeat split; try reflexivity;
      repeat (rewrite filter_cons_False by (cbn; rewrite child_of_self; discriminate));
      reflexivity.
  - intros p mirror tableName columns. apply initTable_with_id.
Qed.

(** An instance with two mirrors, of which the first has no table
    [users]: [add] succeeds on the instance, the first mirror throws, and
    the second mirror is not called. *)
Lemma replication_stops_at_throwing_mirror :
  trace (add [] (attach (attach users_store (new_SquirrelDB ∅)) users_store)
           (VStr "users") john)
  = [([], CallAdd (VStr "users") john); ([0%nat], CallAdd (VStr "users") john)] /\
  result (add [] (attach (attach users_store (new_SquirrelDB ∅)) users_store)
            (VStr "users") john)
  = Throw (no_schema "users").
Proof. split; vm_compute; reflexivity. Qed.

(* ===================================================================== *)
(** ** Rows written and read *)
(* ===================================================================== *)

Lemma assign_other (names : list string) : forall cells base c,
  c ∉ names -> Sqlite.assign names cells base !! c = base !! c.
Proof.
  induction names as [|n names IH]; intros cells base c Hc; [reflexivity|].
  destruct cells as [|cell cells]; [reflexivity|]. cbn [Sqlite.assign].
  apply not_elem_of_cons in Hc as [Hne Hc].
  rewrite IH by assumption. now apply lookup_insert_ne.
Qed.

Lemma assign_is_Some (names : list string) : forall cells base c,
  is_Some (base !! c) -> is_Some (Sqlite.assign names cells base !! c).
Proof.
  induction names as [|n names IH]; intros cells base c Hc; [exact Hc|].
  destruct cells as [|cell cells]; [exact Hc|]. cbn [Sqlite.assign].
  apply IH. destruct (decide (n = c)) as [->|Hne].
  - rewrite lookup_insert_eq. eauto.
  - now rewrite lookup_insert_ne.
Qed.

Lemma null_row_lookup (t : Sqlite.table) (c : string) :
  c ∈ Sqlite.column_names t -> Sqlite.null_row t !! c = Some Sqlite.SNull.
Proof.
  intros Hc. unfold Sqlite.null_row.
  apply (elem_of_list_to_map_1' _ c Sqlite.SNull).
  - intros y Hy. apply list_elem_of_fmap in Hy as (c' & [= _ ->] & _). reflexivity.
  - apply list_elem_of_fmap. eauto.
Qed.

Lemma project_lookup (cols : list string) (row : gmap string Sqlite.cell) (c : string) :
  c ∈ cols -> Sqlite.project cols row !! c = row !! c.
Proof.
  intros Hc. unfold Sqlite.project.
  destruct (row !! c) as [cell|] eqn:E.
  - apply (elem_of_list_to_map_1' _ c cell).
    + intros y Hy. apply list_elem_of_omap in Hy as (c' & _ & Hy).
      destruct (row !! c') eqn:E'; [|discriminate]. cbn in Hy.
      injection Hy as <- <-. congruence.
    + apply list_elem_of_omap. exists c. split; [exact Hc|]. now rewrite E.
  - apply not_elem_of_list_to_map_1. intros Hin.
    apply list_elem_of_fmap in Hin as ([c' cell] & Heq & Hin). cbn in Heq. subst c'.
    apply list_elem_of_omap in Hin as (c' & _ & Hy).
    destruct (row !! c') eqn:E'; [|discriminate]. cbn in Hy.
    injection Hy as <- <-. congruence.
Qed.


Lemma columnsToInsert_names data cols : forall names values,
  columnsToInsert data cols = Ok (names, values) ->
  forall c, c ∈ names -> c ∈ map fst cols.
Proof.
  induction cols as [|[c0 t0] cols IH]; intros names values H c Hc; cbn in H.
  - injection H as <- <-. now apply elem_of_nil in Hc.
  - cbn [map fst]. destruct (data !! c0) as [v|].
    + destruct (is_undefined v).
      * right. eapply IH; eauto.
      * destruct (serializeValue v t0) as [sv|]; [|discriminate]. cbn in H.
        destruct (columnsToInsert data cols) as [[names' values']|]; [|discriminate].
        cbn in H. injection H as <- <-.
        apply elem_of_cons in Hc as [-> | Hc]; [left | right; eapply IH; eauto].
    + right. eapply IH; eauto.
Qed.

(** The row [add] writes has, in every column of the schema, the cell
    written for the record. *)
Lemma written_row data cols : forall names values cells base,
  NoDup (map fst cols) ->
  columnsToInsert data cols = Ok (names, values) ->
  Sqlite.bind_all values = Some cells ->
  forall c type, (c, type) ∈ cols -> base !! c = Some Sqlite.SNull ->
    Sqlite.assign names cells base !! c = cell_written data c type.
Proof.
  induction cols as [|[c0 t0] cols IH]; intros names values cells base Hnd H Hb c type Hin Hbase;
    [now apply elem_of_nil in Hin|].
  cbn [map fst] in Hnd. apply NoDup_cons in Hnd as [Hfresh Hnd]. cbn in H.
  assert (Hskip : forall names values cells,
            columnsToInsert data cols = Ok (names, values) ->
            Sqlite.bind_all values = Some cells ->
            (data !! c0 = None \/ data !! c0 = Some VUndefined) ->
            Sqlite.assign names cells base !! c = cell_written data c type).
  { intros names' values' cells' H' Hb' Hc0.
    apply elem_of_cons in Hin as [[= -> ->] | Hin]; [|eapply IH; eauto].
    rewrite assign_other.
    - rewrite Hbase. unfold cell_written. now destruct Hc0 as [-> | ->].
    - intros Hc. apply Hfresh. eapply columnsToInsert_names; eauto. }
  destruct (data !! c0) as [v|] eqn:Ec0; [|eapply Hskip; eauto].
  destruct (is_undefined v) eqn:Eu.
  { eapply Hskip; eauto. right. now destruct v. }
  destruct (serializeValue v t0) as [sv|] eqn:Es; [|discriminate]. cbn in H.
  destruct (columnsToInsert data cols) as [[names' values']|] eqn:Ec; [|discriminate].
  cbn in H. injection H as <- <-. cbn in Hb.
  destruct (Sqlite.bind sv) as [cell0|] eqn:Eb; [|discriminate].
  destruct (Sqlite.bind_all values') as [cells'|] eqn:Eb'; [|discriminate].
  injection Hb as <-. cbn [Sqlite.assign].
  apply elem_of_cons in Hin as [[= -> ->] | Hin].
  - rewrite assign_other, lookup_insert_eq.
    + unfold cell_written. now rewrite Ec0, Eu, Es.
    + intros Hc. apply Hfresh. eapply columnsToInsert_names; eauto.
  - eapply IH; eauto. rewrite lookup_insert_ne; [exact Hbase|].
    intros ->. apply Hfresh. apply list_elem_of_fmap. now exists (c, type).
Qed.

Lemma for_each_ok {A : Type} (body : A -> Result unit) (l : list A) :
  for_each body l = Ok tt -> forall x, x ∈ l -> body x = Ok tt.
Proof.
  induction l as [|y l IH]; intros H x Hx; [now apply elem_of_nil in Hx|].
  cbn in H. destruct (body y) as [[]|] eqn:E; [|discriminate]. cbn in H.
  apply elem_of_cons in Hx as [-> | Hx]; [exact E | now apply IH].
Qed.

Lemma insert_or_replace_inv d name names values d' :
  Sqlite.insert_or_replace d name names values = inr d' ->
  exists t cells,
    d !! name = Some t /\
    forallb (Sqlite.has_column t) names = true /\
    Sqlite.bind_all values = Some cells /\
    d' = <[name := Sqlite.Table (Sqlite.t_columns t)
             (filter (fun old =>
                        Sqlite.same_key t (Sqlite.assign names cells (Sqlite.null_row t)) old
                        = false) (Sqlite.t_rows t)
              ++ [Sqlite.assign names cells (Sqlite.null_row t)])]> d.
Proof.
  unfold Sqlite.insert_or_replace. destruct (d !! name) as [t|]; [|discriminate].
  destruct (forallb _ _) eqn:Ef; [|discriminate]. cbn [negb].
  destruct (Sqlite.bind_all values) as [cells|]; [|discriminate].
  intros [= <-]. eauto 10.
Qed.

Lemma id_is_text (s : string) (row : gmap string Sqlite.cell) :
  Sqlite.id_is (Sqlite.SText s) row = true <-> row !! "id" = Some (Sqlite.SText s).
Proof.
  unfold Sqlite.id_is. destruct (row !! "id") as [[|n|s']|]; split; try discriminate.
  - intros H. apply bool_decide_eq_true in H. congruence.
  - intros [= ->]. now apply bool_decide_eq_true.
Qed.

(** No row kept by [INSERT OR REPLACE] has the id of the new row. *)
Lemma kept_rows_miss (t : Sqlite.table) (row : gmap string Sqlite.cell) (s type : string)
    (rows : list (gmap string Sqlite.cell)) :
  Sqlite.Column "id" type true ∈ Sqlite.t_columns t ->
  row !! "id" = Some (Sqlite.SText s) ->
  filter (fun r => Sqlite.id_is (Sqlite.SText s) r = true)
    (filter (fun old => Sqlite.same_key t row old = false) rows) = [].
Proof.
  intros Hid Hrow. induction rows as [|r rows IH]; [reflexivity|].
  destruct (Sqlite.same_key t row r) eqn:Ek.
  - rewrite (filter_cons_False _ r) by (rewrite Ek; discriminate). exact IH.
  - rewrite (filter_cons_True _ r) by exact Ek.
    rewrite filter_cons_False; [exact IH|].
    intros Hr. apply id_is_text in Hr.
    assert (Sqlite.same_key t row r = true); [|congruence].
    unfold Sqlite.same_key. apply existsb_exists.
    exists (Sqlite.Column "id" type true). split; [now apply list_elem_of_In|].
    cbn. rewrite Hrow, Hr. now apply bool_decide_eq_true.
Qed.

(** The row just written under a text id is the row a query by that id
    finds. *)
Lemma select_written d name (t : Sqlite.table) (row : gmap string Sqlite.cell)
    (cols : list string) (s type : string) :
  Sqlite.Column "id" type true ∈ Sqlite.t_columns t ->
  row !! "id" = Some (Sqlite.SText s) ->
  Forall (fun c => c ∈ Sqlite.column_names t) cols ->
  Sqlite.select_by_id
    (<[name := Sqlite.Table (Sqlite.t_columns t)
         (filter (fun old => Sqlite.same_key t row old = false) (Sqlite.t_rows t) ++ [row])]> d)
    name cols (VStr s)
  = inr (Some (Sqlite.project cols row)).
Proof.
  intros Hid Hrow Hcols. unfold Sqlite.select_by_id, Sqlite.query.
  rewrite lookup_insert_eq. cbn [negb orb].
  assert (Hid' : Sqlite.has_column
            (Sqlite.Table (Sqlite.t_columns t)
               (filter (fun old => Sqlite.same_key t row old = false) (Sqlite.t_rows t) ++ [row]))
            "id" = true).
  { apply bool_decide_eq_true. unfold Sqlite.column_names. cbn.
    apply list_elem_of_fmap. now exists (Sqlite.Column "id" type true). }
  rewrite Hid'.
  assert (Hall : forallb (Sqlite.has_column
            (Sqlite.Table (Sqlite.t_columns t)
               (filter (fun old => Sqlite.same_key t row old = false) (Sqlite.t_rows t) ++ [row])))
            cols = true).
  { apply forallb_forall. intros c Hc. apply bool_decide_eq_true.
    apply list_elem_of_In in Hc. eapply Forall_forall in Hcols; eauto. }
  rewrite Hall. cbn [andb Sqlite.bind Sqlite.t_rows]. do 2 f_equal.
  rewrite filter_app.
  rewrite (kept_rows_miss t row s type (Sqlite.t_rows t) Hid Hrow).
 cbn [app].
  rewrite filter_cons_True by now apply id_is_text. reflexivity.
Qed.

(** Reading a row through distinct columns whose cells deserialise. *)
Lemma deserializeRow_distinct (row : gmap string Sqlite.cell) (cols : list ColumnDefinition) :
  NoDup (map fst cols) ->
  Forall (fun '(c, type) => exists cell v,
            row !! c = Some cell /\ deserializeValue (Sqlite.to_js cell) type = Ok v) cols ->
  forall acc, exists record,
    deserializeRow row cols acc = Ok record /\
    (forall c type cell, (c, type) ∈ cols -> row !! c = Some cell ->
       Ok <$> record !! c = Some (deserializeValue (Sqlite.to_js cell) type)) /\
    (forall c, c ∉ map fst cols -> record !! c = acc !! c).
Proof.
  induction cols as [|[c0 t0] cols IH]; intros Hnd Hall acc.
  - exists acc. split; [reflexivity|]. split; [|reflexivity].
    intros c type cell Hin. now apply elem_of_nil in Hin.
  - cbn [map fst] in Hnd. apply NoDup_cons in Hnd as [Hfresh Hnd].
    apply Forall_cons in Hall as [(cell0 & v0 & Hc0 & Hv0) Hall].
    cbn [deserializeRow]. rewrite Hc0, Hv0. cbn.
    destruct (IH Hnd Hall (<[c0 := v0]> acc)) as (record & Hrec & Hin & Hout).
    exists record. split; [exact Hrec|]. split.
    + intros c type cell Hc Hcell. apply elem_of_cons in Hc as [[= -> ->] | Hc].
      * rewrite (Hout c0 Hfresh), lookup_insert_eq. cbn. congruence.
      * now apply Hin.
    + intros c Hc. cbn [map fst] in Hc. apply not_elem_of_cons in Hc as [Hne Hc].
      rewrite (Hout c Hc). now apply lookup_insert_ne.
Qed.

(** *** C2 *)




Lemma add_local_inv this (name : string) data db' :
  add_local this (VStr name) data = Ok db' ->
  exists schema names values,
    tableSchemas this !! name = Some schema /\
    truthy (prop data "id") = true /\
    for_each (validateColumn data) (columns schema) = Ok tt /\
    columnsToInsert data (columns schema) = Ok (names, values) /\
    Sqlite.insert_or_replace (db this) name names values = inr db'.
Proof.
  unfold add_local, validateRowData.
  destruct (tableSchemas this !! name) as [schema|]; [|discriminate].
  destruct (truthy (prop data "id")); [|discriminate]. cbn [negb].
  destruct (for_each _ _) as [[]|] eqn:Ef; [|discriminate]. cbn.
  destruct (columnsToInsert _ _) as [[names values]|] eqn:Ec; [|discriminate]. cbn.
  destruct (Sqlite.insert_or_replace _ _ _ _) as [|d'] eqn:Ei; [discriminate|].
  intros [= <-]. exists schema, names, values. auto.
Qed.

Lemma declared_column (schema : TableSchema) (t : Sqlite.table) c type :
  declared_as schema t -> (c, type) ∈ columns schema ->
  Sqlite.Column c (getSQLiteType type) (String.eqb c "id") ∈ Sqlite.t_columns t /\
  c ∈ Sqlite.column_names t.
Proof.
  intros Hdecl Hin. unfold declared_as in Hdecl.
  eapply Forall_forall in Hdecl; [|exact Hin]. cbn in Hdecl. split; [exact Hdecl|].
  unfold Sqlite.column_names. apply list_elem_of_fmap. eexists. split; [|exact Hdecl].
  reflexivity.
Qed.

(** The id of a record [add] accepts for a schema whose [id] column is
    text is a string that is not empty. *)
Lemma accepted_id_is_text (schema : TableSchema) (data : RowData) :
  ("id", Tstring) ∈ columns schema ->
  truthy (prop data "id") = true ->
  for_each (validateColumn data) (columns schema) = Ok tt ->
  exists s, data !! "id" = Some (VStr s) /\ s <> "".
Proof.
  intros Hid Htruthy Hvalid.
  pose proof (for_each_ok _ _ Hvalid _ Hid) as Hcol. unfold validateColumn in Hcol.
  unfold prop in Htruthy. destruct (data !! "id") as [v|]; [|discriminate].
  destruct v; try discriminate. exists s. split; [reflexivity|].
  intros ->. discriminate.
Qed.

(** What [get] finds after [add] has written a record on the instance
    itself. *)
Lemma get_after_add_local this (name : string) (schema : TableSchema) (data : RowData)
    db' ms' :
  registered this name schema ->
  add_local this (VStr name) data = Ok db' ->
  (forall c type, (c, type) ∈ columns schema ->
     exists cell v, cell_written data c type = Some cell /\
       deserializeValue (Sqlite.to_js cell) type = Ok v) ->
  exists record,
    get_result (Instance db' (tableSchemas this) ms') (VStr name) (prop data "id")
      = Ok (Some record) /\
    (forall c type cell, (c, type) ∈ columns schema ->
       cell_written data c type = Some cell ->
       Ok <$> record !! c = Some (deserializeValue (Sqlite.to_js cell) type)) /\
    (forall c, c ∉ map fst (columns schema) -> record !! c = None).
Proof.
  intros (Hschema & Hnd & Hidcol & Hdb) Hadd Hcells.
  destruct (db this !! name) as [t|] eqn:Ht; [|contradiction]. rename Hdb into Hdecl.
  destruct (add_local_inv _ _ _ _ Hadd)
    as (schema' & names & values & Hs' & Htruthy & Hvalid & Hcols & Hins).
  rewrite Hschema in Hs'. injection Hs' as <-.
  destruct (accepted_id_is_text schema data Hidcol Htruthy Hvalid) as (s & Hid & Hne).
  destruct (insert_or_replace_inv _ _ _ _ _ Hins) as (t' & cells & Ht' & Hhas & Hbind & ->).
  rewrite Ht in Ht'. injection Ht' as <-.
  set (row := Sqlite.assign names cells (Sqlite.null_row t)).
  assert (Hrow : forall c type, (c, type) ∈ columns schema ->
            row !! c = cell_written data c type).
  { intros c type Hin. unfold row. eapply written_row; eauto.
    apply null_row_lookup. eapply declared_column; eauto. }
  assert (Hrowid : row !! "id" = Some (Sqlite.SText s)).
  { rewrite (Hrow "id" Tstring Hidcol). unfold cell_written. now rewrite Hid. }
  unfold get_result, prop. rewrite Hid. cbn [default tableSchemas db]. rewrite Hschema.
  rewrite (select_written _ _ t row (map fst (columns schema)) s (getSQLiteType Tstring)).
  - destruct (deserializeRow_distinct (Sqlite.project (map fst (columns schema)) row)
                (columns schema) Hnd) with (acc := (∅ : RowData)) as (record & Hrec & Hin & Hout).
    { apply Forall_forall. intros [c type] Hc.
      destruct (Hcells c type Hc) as (cell & v & Hcell & Hv). exists cell, v.
      split; [|exact Hv]. rewrite project_lookup.
      - now rewrite (Hrow c type Hc).
      - apply list_elem_of_fmap. now exists (c, type). }
    exists record. rewrite Hrec. split; [reflexivity|]. split.
    + intros c type cell Hc Hcell. apply (Hin c type cell Hc).
      rewrite project_lookup; [now rewrite (Hrow c type Hc)|].
      apply list_elem_of_fmap. now exists (c, type).
    + intros c Hc. now rewrite (Hout c Hc).
  - destruct (declared_column schema t "id" Tstring Hdecl Hidcol) as [Hc _]. exact Hc.
  - exact Hrowid.
  - apply Forall_forall. intros c Hc. apply list_elem_of_fmap in Hc as ([c' type] & -> & Hc).
    eapply declared_column; eauto.
Qed.


Lemma add_ok_inv self this tableName data out :
  result (add self this tableName data) = Ok out ->
  exists db' ms',
    add_local this tableName data = Ok db' /\
    final (add self this tableName data) = Instance db' (tableSchemas this) ms'.
Proof.
  rewrite add_unfold. destruct (add_local this tableName data) as [db'|]; [|discriminate].
  destruct (replicate _ _ _ _) as [[events thrown] ms']. cbn. eauto.
Qed.


(** What a registration on a database without the table sets up. *)
Lemma initTable_registered self this (name : string) (schema : TableSchema) :
  db this !! name = None ->
  ("id", Tstring) ∈ columns (with_id schema) ->
  result (initTable self this (VStr name) (SchemaOf schema)) = Ok tt ->
  registered (final (initTable self this (VStr name) (SchemaOf schema))) name (with_id schema).
Proof.
  intros Hfresh Hid. rewrite initTable_unfold.
  unfold initTable_local, createTableIfNotExists, Sqlite.create_table_if_not_exists.
  destruct (negb _); [discriminate|]. rewrite Hfresh.
  destruct (bool_decide _) eqn:End; [|discriminate].
  destruct (replicate _ _ _ _) as [[events thrown] ms']. cbn. intros _.
  apply bool_decide_eq_true in End. rewrite map_map in End.
  split; [apply lookup_insert_eq|]. split; [|split; [exact Hid|]].
  - erewrite map_ext; [exact End|]. now intros [c type].
  - cbn [db]. rewrite lookup_insert_eq. apply Forall_forall. intros [c type] Hin. cbn.
    apply list_elem_of_fmap. now exists (c, type).
Qed.

(** [add] keeps a registered table registered: it changes rows, not
    columns, and leaves the registry alone. *)
Lemma add_keeps_registered self this tableName (data : RowData) (name : string)
    (schema : TableSchema) :
  registered this name schema ->
  registered (final (add self this tableName data)) name schema.
Proof.
  intros Hreg. rewrite add_unfold.
  destruct (add_local this tableName data) as [db'|] eqn:Hlocal; [|exact Hreg].
  destruct (replicate _ _ _ _) as [[events thrown] ms']. cbn [final].
  destruct Hreg as (Hschema & Hnd & Hid & Hdb).
  split; [exact Hschema|]. split; [exact Hnd|]. split; [exact Hid|]. cbn [db].
  destruct tableName as [| | | |written| | |]; try discriminate Hlocal.
  destruct (add_local_inv _ _ _ _ Hlocal) as (_ & names & values & _ & _ & _ & _ & Hins).
  destruct (insert_or_replace_inv _ _ _ _ _ Hins) as (t & cells & Ht & _ & _ & ->).
  destruct (decide (written = name)) as [->|Hne].
  - rewrite lookup_insert_eq. rewrite Ht in Hdb. exact Hdb.
  - now rewrite lookup_insert_ne.
Qed.

Lemma users_registered : registered users_store "users" (with_id users_schema).
Proof. apply initTable_registered; vm_compute; try reflexivity. left. Qed.



(** A [null] in a boolean column is written as 0 and read back as
    [false]. *)
Lemma null_boolean_reads_false :
  result (add [] users_store (VStr "users") (<[ "active" := VNull ]> {[ "id" := VStr "x" ]}))
    = Ok (<[ "active" := VNull ]> {[ "id" := VStr "x" ]}) /\
  snd (get [] (final (add [] users_store (VStr "users")
                        (<[ "active" := VNull ]> {[ "id" := VStr "x" ]})))
         (VStr "users") (VStr "x"))
  = Ok (Some (<[ "meta" := VNull ]> (<[ "active" := VBool false ]> (<[ "age" := VNull ]>
                (<[ "name" := VNull ]> {[ "id" := VStr "x" ]}))))).
Proof. split; vm_compute; reflexivity. Qed.

(** *** C9 *)

Import JSONDocuments.

Lemma deserializeRow_inv (row : gmap string Sqlite.cell) (cols : list ColumnDefinition) :
  NoDup (map fst cols) ->
  forall acc record, deserializeRow row cols acc = Ok record ->
    (forall c type, (c, type) ∈ cols ->
       match row !! c with
       | Some cell => exists v,
           deserializeValue (Sqlite.to_js cell) type = Ok v /\ record !! c = Some v
       | None => record !! c = acc !! c
       end) /\
    (forall c, c ∉ map fst cols -> record !! c = acc !! c).
Proof.
  induction cols as [|[c0 t0] cols IH]; intros Hnd acc record Hrec.
  - cbn in Hrec. injection Hrec as <-. split; [|reflexivity].
    intros c type Hin. now apply elem_of_nil in Hin.
  - cbn [map fst] in Hnd. apply NoDup_cons in Hnd as [Hfresh Hnd].
    cbn [deserializeRow] in Hrec.
    destruct (row !! c0) as [cell0|] eqn:Ec0.
    + destruct (deserializeValue (Sqlite.to_js cell0) t0) as [v0|] eqn:Ev0; [|discriminate].
      cbn in Hrec. destruct (IH Hnd _ _ Hrec) as [Hin Hout]. split.
      * intros c type Hc. apply elem_of_cons in Hc as [[= -> ->] | Hc].
        -- rewrite Ec0. exists v0. split; [exact Ev0|].
           rewrite (Hout c0 Hfresh). apply lookup_insert_eq.
        -- specialize (Hin c type Hc). destruct (row !! c); [exact Hin|].
           rewrite Hin. apply lookup_insert_ne. intros ->. apply Hfresh.
           apply list_elem_of_fmap. now exists (c, type).
      * intros c Hc. cbn [map fst] in Hc. apply not_elem_of_cons in Hc as [Hne Hc].
        rewrite (Hout c Hc). now apply lookup_insert_ne.
    + destruct (IH Hnd _ _ Hrec) as [Hin Hout]. split.
      * intros c type Hc. apply elem_of_cons in Hc as [[= -> ->] | Hc].
        -- rewrite Ec0. now apply Hout.
        -- now apply Hin.
      * intros c Hc. cbn [map fst] in Hc. apply not_elem_of_cons in Hc as [Hne Hc].
        now apply Hout.
Qed.

Lemma get_result_inv this (name s : string) (schema : TableSchema) record :
  tableSchemas this !! name = Some schema ->
  get_result this (VStr name) (VStr s) = Ok (Some record) ->
  exists row,
    Sqlite.select_by_id (db this) name (map fst (columns schema)) (VStr s)
      = inr (Some row) /\
    deserializeRow row (columns schema) ∅ = Ok record.
Proof.
  intros Hschema. unfold get_result. rewrite Hschema.
  destruct (Sqlite.select_by_id _ _ _ _) as [message|[row|]]; [discriminate | | discriminate].
  destruct (deserializeRow _ _ _) as [record'|] eqn:E; [|discriminate].
  cbn. intros [= <-]. eauto.
Qed.

Lemma select_by_id_inv d name cols (s : string) row :
  Sqlite.select_by_id d name cols (VStr s) = inr (Some row) ->
  exists found, row = Sqlite.project cols found /\
    found !! "id" = Some (Sqlite.SText s).
Proof.
  unfold Sqlite.select_by_id. destruct (Sqlite.query _ _ _ _) as [|t]; [discriminate|].
  cbn [Sqlite.bind].
  destruct (filter _ (Sqlite.t_rows t)) as [|found rest] eqn:Ef; [discriminate|].
  cbn. intros [= <-]. exists found. split; [reflexivity|].
  assert (Hin : found ∈ filter (fun r => Sqlite.id_is (Sqlite.SText s) r = true)
                          (Sqlite.t_rows t)) by (rewrite Ef; left).
  apply list_elem_of_filter in Hin as [Hid _]. now apply id_is_text.
Qed.

(** The id of a record that [get] has found under a text [id] column. *)
Lemma found_record_id this (name s : string) (schema : TableSchema) record :
  tableSchemas this !! name = Some schema ->
  NoDup (map fst (columns schema)) ->
  ("id", Tstring) ∈ columns schema ->
  get_result this (VStr name) (VStr s) = Ok (Some record) ->
  record !! "id" = Some (VStr s).
Proof.
  intros Hschema Hnd Hid Hget.
  destruct (get_result_inv _ _ _ _ _ Hschema Hget) as (row & Hsel & Hrow).
  destruct (select_by_id_inv _ _ _ _ _ Hsel) as (found & -> & Hfound).
  destruct (deserializeRow_inv _ _ Hnd _ _ Hrow) as [Hin _].
  specialize (Hin "id" Tstring Hid).
  rewrite project_lookup, Hfound in Hin
    by (apply list_elem_of_fmap; now exists ("id", Tstring)).
  destruct Hin as (v & Hv & Hrec). cbn in Hv. congruence.
Qed.










(* ===================================================================== *)
(** ** The examples of the specification *)
(* ===================================================================== *)

(** Increment: from no [score], by 10 gives 10, then by 5 gives 15; on an
    id that is not there it is rejected with [MissingValue]. *)
Example increment_twice :
  result (increment [] scores_store (VStr "t") (VStr "x") "score" (Fin 10)) = Ok (Fin 10) /\
  result (increment []
            (final (increment [] scores_store (VStr "t") (VStr "x") "score" (Fin 10)))
            (VStr "t") (VStr "x") "score" (Fin 5)) = Ok (Fin 15) /\
  result (increment [] scores_store (VStr "t") (VStr "nobody") "score" (Fin 1))
  = Throw (createError "Record with id 'nobody' not found in table 't'" MissingValue).
Proof. repeat split; vm_compute; reflexivity. Qed.

(** Deletion: of an id that is not there gives 0; of one that is there
    gives 1, and [get] then returns [null]. *)
Example delete_then_get :
  result (delete [] scores_store (VStr "t") (VStr "missing-id")) = Ok (Fin 0) /\
  result (delete [] scores_store (VStr "t") (VStr "x")) = Ok (Fin 1) /\
  snd (get [] (final (delete [] scores_store (VStr "t") (VStr "x"))) (VStr "t") (VStr "x"))
  = Ok None.
Proof. repeat split; vm_compute; reflexivity. Qed.

(** Prefix search: [startsWith] by [a-] returns the two rows of that
    prefix, by [c-] none. *)
Example startsWith_prefix :
  snd (startsWith [] prefixes_store (VStr "t") (VStr "a-"))
  = Ok [ {[ "id" := VStr "a-1" ]}; {[ "id" := VStr "a-2" ]} ] /\
  snd (startsWith [] prefixes_store (VStr "t") (VStr "c-")) = Ok [].
Proof. repeat split; vm_compute; reflexivity. Qed.

(** Mirroring: a record added on the primary is read from the mirror. *)
Example add_reaches_mirror :
  (fun run =>
     match mirrors (final run) with
     | [mirror] => snd (get [0%nat] mirror (VStr "users") (VStr "user-001"))
     | _ => Ok None
     end) (add [] mirrored_store (VStr "users") john)
  = Ok (Some john).
Proof. vm_compute. reflexivity. Qed.

(* ===================================================================== *)
(** * Further properties of the code *)
(* ===================================================================== *)

(* ===================================================================== *)
(** ** The document written for a value *)
(* ===================================================================== *)
Module JSONWritten.
Import Js JSON JSONFacts.

Lemma as_document_arr (elems : list value) :
  as_document (VArr elems) = VArr (map item_document elems).
Proof. reflexivity. Qed.

Lemma as_document_obj (props : list (string * value)) :
  as_document (VObj props) = VObj (member_documents props).
Proof. reflexivity. Qed.

Lemma write_omitted (v : value) : write v = Omitted -> v = VUndefined.
Proof.
  destruct v as [| |[]|[]| | |elems|props]; try discriminate; [reflexivity | |].
  - rewrite write_arr. now destruct (write_items elems).
  - rewrite write_obj. now destruct (write_members props).
Qed.

Lemma member_documents_names (props : list (string * value)) :
  sublist (map fst (member_documents props)) (map fst props).
Proof.
  induction props as [|[k x] props IH]; [constructor|].
  cbn [member_documents]. fold member_documents.
  destruct x; cbn [map fst]; (now constructor).
Qed.

(** The document of a value has the text of the value, and is a
    document. *)
Lemma as_document_written (v : value) :
  distinct_names v = true ->
  forall t, write v = Text t ->
    write (as_document v) = Text t /\ is_document (as_document v) = true.
Proof.
  induction v as [| |b|n|s|z|elems IH|props IH] using value_nested_ind;
    intros Hnames t Hw; try discriminate Hw; try (split; [exact Hw | reflexivity]).
  - destruct n; cbn in *; split; try assumption; reflexivity.
  - rewrite as_document_arr. rewrite write_arr in *.
    destruct (write_items elems) as [ts|] eqn:Hts; [|discriminate].
    cbn [distinct_names] in Hnames.
    assert (H : write_items (map item_document elems) = Some ts /\
                forallb is_document (map item_document elems) = true).
    { clear Hw. revert ts Hts Hnames.
      induction IH as [|x elems Hx _ IHl]; intros ts Hts Hnames.
      - cbn in Hts. injection Hts as <-. split; reflexivity.
      - cbn [write_items] in Hts. fold write_items in Hts.
        cbn [forallb] in Hnames. apply andb_true_iff in Hnames as [Hn Hns].
        destruct (item_text (write x)) as [s|] eqn:Hs; [|discriminate].
        destruct (write_items elems) as [ss|] eqn:Hss; [|discriminate].
        injection Hts as <-. destruct (IHl ss eq_refl Hns) as [Hitems Hdocs].
        cbn [map write_items forallb]. fold write_items. rewrite Hitems, Hdocs.
        destruct (write x) as [| |s'] eqn:Hwx; try discriminate Hs.
        + apply write_omitted in Hwx as ->. cbn in Hs. injection Hs as <-.
          split; reflexivity.
        + cbn in Hs. injection Hs as <-. destruct (Hx Hn s' eq_refl) as [Hwd Hd].
          assert (item_document x = as_document x) as ->.
          { destruct x; try reflexivity. discriminate Hwx. }
          rewrite Hwd, Hd. split; reflexivity. }
    destruct H as [Hitems Hdocs]. rewrite Hitems. split; [exact Hw | exact Hdocs].
  - rewrite as_document_obj. rewrite write_obj in *.
    destruct (write_members props) as [ms|] eqn:Hms; [|discriminate].
    cbn [distinct_names] in Hnames. apply andb_true_iff in Hnames as [Hnd Hnames].
    apply bool_decide_eq_true in Hnd.
    assert (H : write_members (member_documents props) = Some ms /\
                forallb (fun kx => is_document (snd kx)) (member_documents props) = true).
    { clear Hw Hnd. revert ms Hms Hnames.
      induction IH as [|[k x] props Hx _ IHl]; intros ms Hms Hnames.
      - cbn in Hms. injection Hms as <-. split; reflexivity.
      - cbn [write_members] in Hms. fold write_members in Hms.
        cbn [forallb snd] in Hnames. apply andb_true_iff in Hnames as [Hn Hns].
        destruct (member_text k (write x)) as [s|] eqn:Hs; [|discriminate].
        destruct (write_members props) as [ss|] eqn:Hss; [|discriminate].
        injection Hms as <-. destruct (IHl ss eq_refl Hns) as [Hmembers Hdocs].
        cbn [snd] in Hx.
        destruct (write x) as [| |s'] eqn:Hwx; try discriminate Hs.
        + apply write_omitted in Hwx as ->. cbn in Hs. injection Hs as <-.
          cbn [member_documents]. fold member_documents. now split.
        + cbn in Hs. injection Hs as <-. destruct (Hx Hn s' eq_refl) as [Hwd Hd].
          assert (member_documents ((k, x) :: props)
                  = (k, as_document x) :: member_documents props) as ->.
          { destruct x; try reflexivity. discriminate Hwx. }
          cbn [write_members forallb snd]. fold write_members.
          rewrite Hwd, Hmembers, Hd, Hdocs. split; reflexivity. }
    destruct H as [Hmembers Hdocs]. rewrite Hmembers. split; [exact Hw|].
    cbn [is_document]. rewrite Hdocs, andb_true_r. apply bool_decide_eq_true.
    eapply sublist_NoDup; [exact Hnd | apply member_documents_names].
Qed.

(** [JSON.parse] reads, from the text [JSON.stringify] writes for a
    value, the document of the value. *)
Lemma parse_stringify (v : value) (t : string) :
  distinct_names v = true -> stringify v = inr (VStr t) ->
  parse (VStr t) = Some (as_document v).
Proof.
  intros Hnames Hs. unfold stringify in Hs.
  destruct (write v) as [| |t'] eqn:Hw; try discriminate Hs. injection Hs as ->.
  destruct (as_document_written v Hnames t Hw) as [Hwd Hdoc].
  destruct (parse_text_write _ Hdoc) as (t' & Hw' & Hp).
  rewrite Hwd in Hw'. injection Hw' as <-. exact Hp.
Qed.

(** A document is its own document. *)
Lemma as_document_document (v : value) : is_document v = true -> as_document v = v.
Proof.
  induction v as [| |b|n|s|z|elems IH|props IH] using value_nested_ind;
    intros Hdoc; try reflexivity; try discriminate Hdoc.
  - destruct n; try discriminate Hdoc. reflexivity.
  - rewrite as_document_arr. f_equal. cbn [is_document] in Hdoc.
    induction IH as [|x elems Hx _ IHl]; [reflexivity|].
    cbn [forallb] in Hdoc. apply andb_true_iff in Hdoc as [Hd Hds].
    cbn [map]. rewrite (IHl Hds). f_equal.
    destruct x; try reflexivity; try discriminate Hd; now apply Hx.
  - rewrite as_document_obj. f_equal. cbn [is_document] in Hdoc.
    apply andb_true_iff in Hdoc as [_ Hdoc].
    induction IH as [|[k x] props Hx _ IHl]; [reflexivity|].
    cbn [forallb snd] in Hdoc. apply andb_true_iff in Hdoc as [Hd Hds].
    cbn [member_documents snd] in *. fold member_documents. rewrite (IHl Hds).
    destruct x; try discriminate Hd; try reflexivity; now rewrite (Hx Hd).
Qed.

Lemma document_distinct_names (v : value) : is_document v = true -> distinct_names v = true.
Proof.
  induction v as [| |b|n|s|z|elems IH|props IH] using value_nested_ind;
    intros Hdoc; try reflexivity.
  - cbn [is_document distinct_names] in *.
    induction IH as [|x elems Hx _ IHl]; [reflexivity|].
    cbn [forallb] in *. apply andb_true_iff in Hdoc as [Hd Hds].
    now rewrite (Hx Hd), (IHl Hds).
  - cbn [is_document distinct_names] in *. apply andb_true_iff in Hdoc as [-> Hdoc].
    cbn [andb].
    induction IH as [|[k x] props Hx _ IHl]; [reflexivity|].
    cbn [forallb snd] in *. apply andb_true_iff in Hdoc as [Hd Hds].
    now rewrite (Hx Hd), (IHl Hds).
Qed.

End JSONWritten.

Import JSONWritten.

(* ===================================================================== *)
(** ** Validation *)
(* ===================================================================== *)








(* ===================================================================== *)
(** ** What [add] throws *)
(* ===================================================================== *)





(* ===================================================================== *)
(** ** The instances of a tree *)
(* ===================================================================== *)

Lemma everywhere_unfold (P : SquirrelDB -> Prop) d schemas ms :
  everywhere P (Instance d schemas ms) <->
  P (Instance d schemas ms) /\ Forall (everywhere P) ms.
Proof.
  unfold everywhere. cbn [instances]. rewrite Forall_cons.
  assert (H : Forall P (concat (map instances ms)) <->
              Forall (fun m => Forall P (instances m)) ms).
  { induction ms as [|m ms IH]; cbn.
    - split; constructor.
    - rewrite Forall_app, Forall_cons, IH. reflexivity. }
  now rewrite H.
Qed.

(** When the loop over the mirrors ran to its end, every mirror returned
    and was left as its call left it. *)
Lemma replicate_returned {A : Type} (self : list nat)
    (call : list nat -> SquirrelDB -> Run A) (ms : list SquirrelDB) :
  forall i events ms',
    replicate self call i ms = (events, None, ms') ->
    Forall2 (fun m m' => exists p a, result (call p m) = Ok a /\ m' = final (call p m)) ms ms'.
Proof.
  induction ms as [|m ms IH]; intros i events ms'; cbn [replicate].
  - intros [= <- <-]. constructor.
  - destruct (result (call (self ++ [i])%list m)) as [a|e] eqn:E; [|discriminate].
    destruct (replicate self call (S i) ms) as [[events' thrown] ms''] eqn:Er.
    intros [= <- -> <-]. constructor; [eauto | eapply IH, Er].
Qed.

(** Whatever the loop did, a mirror is left as it was or as its call left
    it. *)
Lemma replicate_left {A : Type} (self : list nat)
    (call : list nat -> SquirrelDB -> Run A) (ms : list SquirrelDB) :
  forall i,
    Forall2 (fun m m' => m' = m \/ exists p, m' = final (call p m)) ms
            (replicate self call i ms).2.
Proof.
  induction ms as [|m ms IH]; intros i; cbn [replicate].
  - constructor.
  - destruct (result (call (self ++ [i])%list m)) as [a|e] eqn:E.
    + specialize (IH (S i)).
      destruct (replicate self call (S i) ms) as [[events' thrown] ms'']. cbn in *.
      constructor; [eauto | exact IH].
    + cbn. constructor; [eauto|]. apply Forall2_same_length_lookup_2; [reflexivity|].
      intros j x y Hx Hy. left. congruence.
Qed.

(** The loop on mirrors that a first run of the same calls has left, when
    a second call returns as the first did and changes nothing. *)
Lemma replicate_again {A : Type} (self : list nat)
    (call : list nat -> SquirrelDB -> Run A) (ms : list SquirrelDB) :
  Forall (fun m => forall p a, result (call p m) = Ok a ->
            (exists a', result (call p (final (call p m))) = Ok a') /\
            final (call p (final (call p m))) = final (call p m)) ms ->
  forall i events ms',
    replicate self call i ms = (events, None, ms') ->
    exists events', replicate self call i ms' = (events', None, ms').
Proof.
  induction 1 as [|m ms Hm _ IH]; intros i events ms'; cbn [replicate].
  - intros [= <- <-]. eauto.
  - destruct (result (call (self ++ [i])%list m)) as [a|e] eqn:E; [|discriminate].
    destruct (replicate self call (S i) ms) as [[events1 thrown] ms1] eqn:Er.
    intros [= <- -> <-]. destruct (Hm _ _ E) as [(a' & Ha') Hf].
    destruct (IH _ _ _ Er) as (events2 & Hagain).
    cbn [replicate]. rewrite Ha', Hf, Hagain. eauto.
Qed.

(* ===================================================================== *)
(** ** Records written by [add] *)
(* ===================================================================== *)


Lemma read_back_storable (v : value) (type : ColumnType) :
  storable v type = true -> read_back type v = v.
Proof.
  unfold read_back. destruct type; cbn [storable].
  - destruct v; try discriminate. reflexivity.
  - destruct v as [| | |[]| | | |]; try discriminate; reflexivity.
  - destruct v as [| |[]| | | | |]; try discriminate; reflexivity.
  - intros Hdoc. destruct v; try discriminate Hdoc; cbn [is_undefined];
      now apply as_document_document.
Qed.

(** What [add] writes for a validated column, [get] reads back as
    [read_back] says. *)
Lemma validated_cell_reads_back (data : RowData) (c : string) (type : ColumnType) :
  validateColumn data (c, type) = Ok tt ->
  (type = Tjson -> forall v, data !! c = Some v -> distinct_names v = true) ->
  exists cell,
    cell_written data c type = Some cell /\
    deserializeValue (Sqlite.to_js cell) type = Ok (read_back type (prop data c)).
Proof.
  intros Hvalid Hnames. unfold cell_written, prop, validateColumn in *.
  destruct (data !! c) as [v|]; cbn [from_option id];
    [|exists Sqlite.SNull; split; reflexivity].
  destruct (is_undefined v) eqn:Eu.
  { exists Sqlite.SNull. unfold read_back. rewrite Eu. split; reflexivity. }
  unfold read_back. rewrite Eu.
  destruct (is_null v) eqn:En.
  { destruct v; try discriminate En. destruct type; eexists; split; reflexivity. }
  destruct type.
  - destruct v; try discriminate Hvalid. eexists; split; reflexivity.
  - destruct v as [| | |n| | | |]; try discriminate Hvalid.
    destruct n; eexists; split; reflexivity.
  - destruct v as [| |[]| | | | |]; try discriminate Hvalid; eexists; split; reflexivity.
  - cbn [serializeValue]. destruct (JSON.stringify v) as [[]|out] eqn:Es; [discriminate|].
    assert (exists t, out = VStr t) as (t & ->).
    { unfold JSON.stringify in Es. destruct (JSON.write v) as [| |t] eqn:Hw;
        try discriminate Es.
      - apply write_omitted in Hw. subst v. discriminate Eu.
      - injection Es as <-. eauto. }
    exists (Sqlite.SText t). split; [reflexivity|].
    unfold deserializeValue. cbn [Sqlite.to_js is_null].
    now rewrite (parse_stringify v t (Hnames eq_refl v eq_refl) Es).
Qed.

(** What [get] finds after [add] has written a validated record on the
    instance itself. *)
Lemma get_after_add_local_reads_back this (name : string) (schema : TableSchema)
    (data : RowData) db' ms' :
  registered this name schema ->
  (forall c v, (c, Tjson) ∈ columns schema -> data !! c = Some v ->
     distinct_names v = true) ->
  add_local this (VStr name) data = Ok db' ->
  exists record,
    get_result (Instance db' (tableSchemas this) ms') (VStr name) (prop data "id")
      = Ok (Some record) /\
    (forall c type, (c, type) ∈ columns schema ->
       record !! c = Some (read_back type (prop data c))) /\
    (forall c, c ∉ map fst (columns schema) -> record !! c = None).
Proof.
  intros Hreg Hnames Hlocal.
  destruct (add_local_inv _ _ _ _ Hlocal)
    as (schema' & names & values & Hs' & _ & Hvalid & _ & _).
  pose proof Hreg as (Hschema & _). rewrite Hschema in Hs'. injection Hs' as <-.
  assert (Hcells : forall c type, (c, type) ∈ columns schema ->
            exists cell, cell_written data c type = Some cell /\
              deserializeValue (Sqlite.to_js cell) type = Ok (read_back type (prop data c))).
  { intros c type Hc. apply validated_cell_reads_back.
    - now apply (for_each_ok _ _ Hvalid (c, type)).
    - intros -> v. now apply Hnames. }
  destruct (get_after_add_local this name schema data db' ms' Hreg Hlocal)
    as (record & Hget & Hin & Hout).
  { intros c type Hc. destruct (Hcells c type Hc) as (cell & Hcell & Hd). eauto. }
  exists record. split; [exact Hget|]. split; [|exact Hout].
  intros c type Hc. destruct (Hcells c type Hc) as (cell & Hcell & Hd).
  specialize (Hin c type cell Hc Hcell). rewrite Hd in Hin.
  destruct (record !! c); cbn in Hin; congruence.
Qed.



(** *** Rows of other ids *)

Lemma same_key_id (t : Sqlite.table) (row old : gmap string Sqlite.cell) :
  keyed_by_id t -> Sqlite.same_key t row old = true ->
  exists a, a <> Sqlite.SNull /\ row !! "id" = Some a /\ old !! "id" = Some a.
Proof.
  intros Hkeyed. unfold Sqlite.same_key. rewrite existsb_exists.
  intros (c & Hc & Hk). apply andb_true_iff in Hk as [Hpk Hk].
  apply list_elem_of_In in Hc. eapply Forall_forall in Hkeyed; [|exact Hc].
  rewrite Hkeyed in Hpk. apply String.eqb_eq in Hpk. rewrite Hpk in Hk.
  destruct (row !! "id") as [[|n|s]|]; try discriminate Hk;
    destruct (old !! "id") as [[|n'|s']|]; try discriminate Hk;
    apply bool_decide_eq_true in Hk; rewrite <- Hk; eexists; (split; [|split; reflexivity]);
    discriminate.
Qed.

(** The rows of another id that [INSERT OR REPLACE] keeps are those that
    were there. *)
Lemma kept_rows_of_other_id (t : Sqlite.table) (row : gmap string Sqlite.cell) (s' : string)
    (rows : list (gmap string Sqlite.cell)) :
  keyed_by_id t -> row !! "id" <> Some (Sqlite.SText s') ->
  filter (fun r => Sqlite.id_is (Sqlite.SText s') r = true)
    (filter (fun old => Sqlite.same_key t row old = false) rows)
  = filter (fun r => Sqlite.id_is (Sqlite.SText s') r = true) rows.
Proof.
  intros Hkeyed Hrow. induction rows as [|r rows IH]; [reflexivity|].
  destruct (Sqlite.same_key t row r) eqn:Ek.
  - rewrite (filter_cons_False _ r) by (rewrite Ek; discriminate).
    rewrite (filter_cons_False _ r); [exact IH|].
    intros Hr. apply id_is_text in Hr.
    destruct (same_key_id t row r Hkeyed Ek) as (a & _ & Ha & Hb). congruence.
  - rewrite (filter_cons_True _ r) by exact Ek.
    destruct (Sqlite.id_is (Sqlite.SText s') r) eqn:Ei.
    + rewrite !filter_cons_True by assumption. now rewrite IH.
    + rewrite !filter_cons_False by (rewrite Ei; discriminate). exact IH.
Qed.

(** A query by id sees the columns of a table and its rows of that id. *)
Lemma select_by_id_rows d d' name (t t' : Sqlite.table) cols (s : string) :
  d !! name = Some t -> d' !! name = Some t' ->
  Sqlite.t_columns t' = Sqlite.t_columns t ->
  filter (fun r => Sqlite.id_is (Sqlite.SText s) r = true) (Sqlite.t_rows t')
    = filter (fun r => Sqlite.id_is (Sqlite.SText s) r = true) (Sqlite.t_rows t) ->
  Sqlite.select_by_id d' name cols (VStr s) = Sqlite.select_by_id d name cols (VStr s).
Proof.
  intros Ht Ht' Hcols Hrows. unfold Sqlite.select_by_id, Sqlite.query.
  rewrite Ht, Ht'. unfold Sqlite.has_column, Sqlite.column_names. rewrite Hcols.
  destruct (_ && _); [|reflexivity]. cbn [Sqlite.bind]. now rewrite Hrows.
Qed.

Lemma get_result_rows this this' (name : string) (t t' : Sqlite.table) (s : string) :
  tableSchemas this' = tableSchemas this ->
  db this !! name = Some t -> db this' !! name = Some t' ->
  Sqlite.t_columns t' = Sqlite.t_columns t ->
  filter (fun r => Sqlite.id_is (Sqlite.SText s) r = true) (Sqlite.t_rows t')
    = filter (fun r => Sqlite.id_is (Sqlite.SText s) r = true) (Sqlite.t_rows t) ->
  get_result this' (VStr name) (VStr s) = get_result this (VStr name) (VStr s).
Proof.
  intros Hs Ht Ht' Hcols Hrows. unfold get_result. rewrite Hs.
  destruct (tableSchemas this !! name) as [schema|]; [|reflexivity].
  now rewrite (select_by_id_rows (db this) (db this') name t t').
Qed.

(** The id cell of the row [add] writes for a text [id] column. *)
Lemma written_row_id this (name : string) (schema : TableSchema) (data : RowData)
    (t : Sqlite.table) names values cells :
  registered this name schema -> db this !! name = Some t ->
  truthy (prop data "id") = true ->
  for_each (validateColumn data) (columns schema) = Ok tt ->
  columnsToInsert data (columns schema) = Ok (names, values) ->
  Sqlite.bind_all values = Some cells ->
  exists s, data !! "id" = Some (VStr s) /\
    Sqlite.assign names cells (Sqlite.null_row t) !! "id" = Some (Sqlite.SText s).
Proof.
  intros (Hschema & Hnd & Hidcol & Hdb) Ht Htruthy Hvalid Hcols Hbind.
  rewrite Ht in Hdb.
  destruct (accepted_id_is_text schema data Hidcol Htruthy Hvalid) as (s & Hid & _).
  exists s. split; [exact Hid|].
  rewrite (written_row data (columns schema) names values cells (Sqlite.null_row t)
             Hnd Hcols Hbind "id" Tstring Hidcol).
  - unfold cell_written. now rewrite Hid.
  - apply null_row_lookup. eapply declared_column; eauto.
Qed.

(** X5: on a registered table keyed by [id], [add] of a record leaves the
    records of the other ids as they were: [get] by another id returns
    what it returned before. *)
Theorem add_keeps_other_records (self : list nat) (this : SquirrelDB) (name : string)
    (schema : TableSchema) (data : RowData) (other : string) :
  registered this name schema -> store_made this ->
  prop data "id" <> VStr other ->
  get_result (final (add self this (VStr name) data)) (VStr name) (VStr other)
  = get_result this (VStr name) (VStr other).
Proof.
  intros Hreg Hmade Hother. rewrite add_unfold.
  destruct (add_local this (VStr name) data) as [db'|] eqn:Hlocal; [|reflexivity].
  destruct (replicate _ _ _ _) as [[events thrown] ms']. cbn [final].
  destruct (add_local_inv _ _ _ _ Hlocal)
    as (schema' & names & values & Hs' & Htruthy & Hvalid & Hcols & Hins).
  pose proof Hreg as (Hschema & _). rewrite Hschema in Hs'. injection Hs' as <-.
  destruct (insert_or_replace_inv _ _ _ _ _ Hins) as (t & cells & Ht & _ & Hbind & ->).
  destruct (written_row_id this name schema data t names values cells
              Hreg Ht Htruthy Hvalid Hcols Hbind) as (s & Hid & Hrow).
  eapply get_result_rows; [reflexivity | exact Ht | apply lookup_insert_eq | reflexivity |].
  cbn [Sqlite.t_rows]. rewrite filter_app.
  rewrite kept_rows_of_other_id.
  - rewrite filter_cons_False, filter_nil; [apply app_nil_r|].
    intros Hr. apply id_is_text in Hr. rewrite Hrow in Hr. injection Hr as ->.
    apply Hother. unfold prop. now rewrite Hid.
  - exact (Hmade name t Ht).
  - rewrite Hrow. intros [= ->]. apply Hother. unfold prop. now rewrite Hid.
Qed.

Lemma store_made_fresh : store_made (new_SquirrelDB ∅).
Proof. apply map_Forall_empty. Qed.

Lemma add_keeps_other_records_witness :
  get_result (final (add [] prefixes_store (VStr "t") {[ "id" := VStr "a-1" ]}))
    (VStr "t") (VStr "a-2")
  = Ok (Some {[ "id" := VStr "a-2" ]}).
Proof.
  rewrite (add_keeps_other_records [] prefixes_store "t" (Schema [("id", Tstring)])
             {[ "id" := VStr "a-1" ]} "a-2").
  - vm_compute. reflexivity.
  - apply (bool_decide_unpack _). vm_compute. exact I.
  - apply (bool_decide_unpack _). vm_compute. exact I.
  - vm_compute. discriminate.
Defined.

(** *** Records read from rows *)

Lemma deserializeRows_each (rows : list (gmap string Sqlite.cell))
    (cols : list ColumnDefinition) (records : list RowData) :
  deserializeRows rows cols = Ok records <->
  Forall2 (fun row record => deserializeRow row cols ∅ = Ok record) rows records.
Proof.
  revert records. induction rows as [|row rows IH]; intros records; cbn [deserializeRows].
  - split.
    + intros [= <-]. constructor.
    + intros H. apply Forall2_nil_inv_l in H as ->. reflexivity.
  - split.
    + destruct (deserializeRow row cols ∅) as [first|] eqn:E; [|discriminate]. cbn.
      destruct (deserializeRows rows cols) as [others|]; [|discriminate]. cbn.
      intros [= <-]. constructor; [exact E | now apply IH].
    + intros H. apply Forall2_cons_inv_l in H as (first & others & Hf & Ho & ->).
      rewrite Hf. cbn. apply IH in Ho. rewrite Ho. reflexivity.
Qed.

(** Under a text [id] column, the record read from a row has the id of
    the row. *)
Lemma read_record_id (cols : list ColumnDefinition) (row : gmap string Sqlite.cell)
    (record : RowData) (s : string) :
  NoDup (map fst cols) -> ("id", Tstring) ∈ cols ->
  deserializeRow (Sqlite.project (map fst cols) row) cols ∅ = Ok record ->
  has_id s record = Sqlite.id_is (Sqlite.SText s) row.
Proof.
  intros Hnd Hid Hrec. destruct (deserializeRow_inv _ _ Hnd _ _ Hrec) as [Hin _].
  specialize (Hin "id" Tstring Hid).
  rewrite project_lookup in Hin by (apply list_elem_of_fmap; now exists ("id", Tstring)).
  unfold has_id, Sqlite.id_is.
  destruct (row !! "id") as [[|n|s0]|].
  - destruct Hin as (v & [= <-] & ->). reflexivity.
  - destruct Hin as (v & [= <-] & ->). cbn. symmetry. now apply bool_decide_eq_false.
  - destruct Hin as (v & [= <-] & ->). cbn.
    destruct (String.eqb_spec s0 s) as [->|Hne]; symmetry.
    + now apply bool_decide_eq_true.
    + apply bool_decide_eq_false. congruence.
  - rewrite Hin, lookup_empty. reflexivity.
Qed.

Lemma read_record_ids (cols : list ColumnDefinition) (s : string)
    (rows : list (gmap string Sqlite.cell)) :
  NoDup (map fst cols) -> ("id", Tstring) ∈ cols ->
  forall records,
    Forall2 (fun row record => deserializeRow row cols ∅ = Ok record)
      (map (Sqlite.project (map fst cols)) rows) records ->
    Forall2 (fun row record => deserializeRow row cols ∅ = Ok record)
      (map (Sqlite.project (map fst cols))
         (filter (fun r => Sqlite.id_is (Sqlite.SText s) r = true) rows))
      (filter (fun r => has_id s r = true) records).
Proof.
  intros Hnd Hid. induction rows as [|row rows IH]; intros records H; cbn [map] in H.
  - apply Forall2_nil_inv_l in H as ->. constructor.
  - apply Forall2_cons_inv_l in H as (first & others & Hf & Ho & ->).
    pose proof (read_record_id cols row first s Hnd Hid Hf) as Heq.
    destruct (Sqlite.id_is (Sqlite.SText s) row) eqn:Ei.
    + rewrite !filter_cons_True by assumption. cbn [map]. constructor; [exact Hf | now apply IH].
    + rewrite !filter_cons_False by (rewrite ?Heq, ?Ei; discriminate). now apply IH.
Qed.

Lemma all_inv self this (name : string) records :
  snd (all self this (VStr name)) = Ok records ->
  exists schema t,
    tableSchemas this !! name = Some schema /\ db this !! name = Some t /\
    forallb (Sqlite.has_column t) (map fst (columns schema)) = true /\
    deserializeRows (map (Sqlite.project (map fst (columns schema))) (Sqlite.t_rows t))
      (columns schema) = Ok records.
Proof.
  unfold all. cbn [snd]. destruct (tableSchemas this !! name) as [schema|]; [|discriminate].
  unfold Sqlite.select_all, Sqlite.query.
  destruct (db this !! name) as [t|]; [|discriminate].
  destruct (forallb _ _) eqn:Ef; [|discriminate]. cbn.
  intros H. exists schema, t. auto.
Qed.

(** X6: after [add] has returned on a registered table, the records [all]
    lists hold exactly one record of the id given, and it is the record
    [get] finds by that id: a record of that id that was there has been
    replaced, not kept beside the new one. *)
Theorem add_replaces_record_of_same_id (self : list nat) (this : SquirrelDB) (name : string)
    (schema : TableSchema) (data out : RowData) (records : list RowData) :
  registered this name schema ->
  result (add self this (VStr name) data) = Ok out ->
  snd (all self (final (add self this (VStr name) data)) (VStr name)) = Ok records ->
  exists s record,
    prop data "id" = VStr s /\
    snd (get self (final (add self this (VStr name) data)) (VStr name) (VStr s))
      = Ok (Some record) /\
    filter (fun r => has_id s r = true) records = [record].
Proof.
  intros Hreg Hok Hall.
  destruct (add_ok_inv _ _ _ _ _ Hok) as (db' & ms' & Hlocal & Hfinal).
  rewrite Hfinal in *. clear Hfinal.
  destruct (add_local_inv _ _ _ _ Hlocal)
    as (schema' & names & values & Hs' & Htruthy & Hvalid & Hcols & Hins).
  pose proof Hreg as (Hschema & Hnd & Hidcol & Hdb).
  rewrite Hschema in Hs'. injection Hs' as <-.
  destruct (insert_or_replace_inv _ _ _ _ _ Hins) as (t & cells & Ht & _ & Hbind & ->).
  rewrite Ht in Hdb.
  destruct (written_row_id this name schema data t names values cells
              Hreg Ht Htruthy Hvalid Hcols Hbind) as (s & Hid & Hrow).
  set (row := Sqlite.assign names cells (Sqlite.null_row t)) in *.
  apply all_inv in Hall as (schema' & t' & Hs' & Ht' & _ & Hrecords).
  cbn [tableSchemas db] in Hs', Ht'. rewrite Hschema in Hs'. injection Hs' as <-.
  rewrite lookup_insert_eq in Ht'. injection Ht' as <-. cbn [Sqlite.t_rows] in Hrecords.
  apply deserializeRows_each in Hrecords.
  pose proof (read_record_ids (columns schema) s _ Hnd Hidcol _ Hrecords) as Hsame.
  rewrite filter_app in Hsame.
  rewrite (kept_rows_miss t row s (getSQLiteType Tstring)) in Hsame;
    [|destruct (declared_column schema t "id" Tstring Hdb Hidcol) as [Hc _]; exact Hc
     |exact Hrow].
  rewrite filter_cons_True, filter_nil in Hsame by now apply id_is_text.
  cbn [app map] in Hsame.
  apply Forall2_cons_inv_l in Hsame as (record & rest & Hrecord & Hrest & Hfilter).
  apply Forall2_nil_inv_l in Hrest as ->.
  exists s, record. split; [unfold prop; now rewrite Hid|].
  split; [|exact Hfilter].
  unfold get, get_result. cbn [snd tableSchemas db]. rewrite Hschema.
  rewrite (select_written _ _ t row (map fst (columns schema)) s (getSQLiteType Tstring)).
  - now rewrite Hrecord.
  - destruct (declared_column schema t "id" Tstring Hdb Hidcol) as [Hc _]. exact Hc.
  - exact Hrow.
  - apply Forall_forall. intros c Hc. apply list_elem_of_fmap in Hc as ([c' type] & -> & Hc).
    eapply declared_column; eauto.
Qed.

Lemma add_replaces_record_of_same_id_witness :
  exists s record,
    prop ({[ "id" := VStr "a-1" ]} : RowData) "id" = VStr s /\
    snd (get [] (final (add [] prefixes_store (VStr "t") {[ "id" := VStr "a-1" ]}))
           (VStr "t") (VStr s)) = Ok (Some record) /\
    filter (fun r => has_id s r = true)
      [ ({[ "id" := VStr "a-2" ]} : RowData); {[ "id" := VStr "b-1" ]};
        {[ "id" := VStr "a-1" ]} ] = [record].
Proof.
  apply (add_replaces_record_of_same_id [] prefixes_store "t" (Schema [("id", Tstring)])
           {[ "id" := VStr "a-1" ]} {[ "id" := VStr "a-1" ]}).
  - apply (bool_decide_unpack _). vm_compute. exact I.
  - vm_compute. reflexivity.
  - vm_compute. reflexivity.
Defined.

(** *** Adding twice *)

Lemma filter_twice {A : Type} (f : A -> bool) (l : list A) :
  filter (fun x => f x = false) (filter (fun x => f x = false) l)
  = filter (fun x => f x = false) l.
Proof.
  induction l as [|x l IH]; [reflexivity|]. destruct (f x) eqn:E.
  - rewrite (filter_cons_False _ x) by (rewrite E; discriminate). exact IH.
  - rewrite (filter_cons_True _ x) by exact E. rewrite filter_cons_True by exact E.
    now rewrite IH.
Qed.

(** On the instance itself, [add] of the record it has just written
    writes the same database again. *)
Lemma add_local_again this (name : string) (schema : TableSchema) (data : RowData) db' ms' :
  registered this name schema ->
  add_local this (VStr name) data = Ok db' ->
  add_local (Instance db' (tableSchemas this) ms') (VStr name) data = Ok db'.
Proof.
  intros Hreg Hlocal.
  destruct (add_local_inv _ _ _ _ Hlocal)
    as (schema' & names & values & Hs' & Htruthy & Hvalid & Hcols & Hins).
  pose proof Hreg as (Hschema & Hnd & Hidcol & Hdb).
  rewrite Hschema in Hs'. injection Hs' as <-.
  destruct (insert_or_replace_inv _ _ _ _ _ Hins) as (t & cells & Ht & Hhas & Hbind & ->).
  rewrite Ht in Hdb.
  destruct (written_row_id this name schema data t names values cells
              Hreg Ht Htruthy Hvalid Hcols Hbind) as (s & Hid & Hrow).
  set (row := Sqlite.assign names cells (Sqlite.null_row t)) in *.
  unfold add_local, validateRowData. cbn [tableSchemas db]. rewrite Hschema, Htruthy.
  cbn [negb]. rewrite Hvalid. cbn. rewrite Hcols. cbn.
  unfold Sqlite.insert_or_replace. rewrite lookup_insert_eq.
  change (forallb (Sqlite.has_column (Sqlite.Table (Sqlite.t_columns t) _)) names)
    with (forallb (Sqlite.has_column t) names).
  rewrite Hhas, Hbind. cbn [negb].
  change (Sqlite.null_row (Sqlite.Table (Sqlite.t_columns t) _)) with (Sqlite.null_row t).
  fold row. cbn [Sqlite.t_rows Sqlite.t_columns].
  change (fun old => Sqlite.same_key (Sqlite.Table (Sqlite.t_columns t) _) row old = false)
    with (fun old => Sqlite.same_key t row old = false).
  rewrite filter_app, filter_twice.
  rewrite filter_cons_False, filter_nil, app_nil_r.
  - unfold snapshot. now rewrite insert_insert_eq.
  - assert (Sqlite.same_key t row row = true) as ->; [|discriminate].
    unfold Sqlite.same_key. apply existsb_exists.
    exists (Sqlite.Column "id" (getSQLiteType Tstring) true). split.
    + apply list_elem_of_In. destruct (declared_column schema t "id" Tstring Hdb Hidcol) as [Hc _].
      exact Hc.
    + cbn. rewrite Hrow. now apply bool_decide_eq_true.
Qed.

(** X7: [add] of a record twice is [add] of it once: when the first call has
    returned on a tree of instances that have the table registered, the
    second returns too and leaves every instance as the first left it. *)
Theorem add_twice_is_add_once (self : list nat) (this : SquirrelDB) (name : string)
    (schema : TableSchema) (data out : RowData) :
  everywhere (fun inst => registered inst name schema) this ->
  result (add self this (VStr name) data) = Ok out ->
  result (add self (final (add self this (VStr name) data)) (VStr name) data) = Ok data /\
  final (add self (final (add self this (VStr name) data)) (VStr name) data)
  = final (add self this (VStr name) data).
Proof.
  revert self out.
  induction this as [d schemas ms IH] using SquirrelDB_nested_ind.
  intros self out [Hreg Hmirrors]%everywhere_unfold.
  rewrite (add_unfold self (Instance d schemas ms)).
  destruct (add_local _ (VStr name) data) as [db'|] eqn:Hlocal; [|discriminate].
  cbn [mirrors tableSchemas].
  destruct (replicate self _ 0%nat ms) as [[events thrown] ms'] eqn:Er.
  cbn [result final]. destruct thrown as [e|]; [discriminate|]. intros _.
  rewrite add_unfold.
  pose proof (add_local_again _ name schema data db' ms' Hreg Hlocal) as Hagain.
  cbn [tableSchemas] in Hagain. rewrite Hagain. cbn [mirrors tableSchemas].
  destruct (replicate_again self (fun p mirror => add p mirror (VStr name) data) ms)
    with (i := 0%nat) (events := events) (ms' := ms') as (events' & ->); [|exact Er|].
  - apply Forall_forall. intros m Hm p a Ha.
    eapply Forall_forall in IH; [|exact Hm]. eapply Forall_forall in Hmirrors; [|exact Hm].
    destruct (IH p a Hmirrors Ha) as [Hres Hfin]. split; [eauto | exact Hfin].
  - split; reflexivity.
Qed.

Lemma add_twice_is_add_once_witness :
  result (add [] (final (add [] mirrored_store (VStr "users") john)) (VStr "users") john)
    = Ok john /\
  final (add [] (final (add [] mirrored_store (VStr "users") john)) (VStr "users") john)
    = final (add [] mirrored_store (VStr "users") john).
Proof.
  apply (add_twice_is_add_once [] mirrored_store "users" (with_id users_schema) john john).
  - apply (bool_decide_unpack _). vm_compute. exact I.
  - vm_compute. reflexivity.
Defined.

(* ===================================================================== *)
(** ** What the readers return *)
(* ===================================================================== *)

Lemma deserializeValue_typed (stored v : value) (type : ColumnType) :
  deserializeValue stored type = Ok v ->
  v = VNull \/ (type = Tstring /\ v = stored) \/ (type <> Tstring /\ of_type v type = true).
Proof.
  unfold deserializeValue. destruct (is_null stored); [intros [= <-]; now left|].
  destruct type.
  - intros [= <-]. right; left. auto.
  - intros [= <-]. right; right. split; [discriminate | reflexivity].
  - intros [= <-]. right; right. split; [discriminate | reflexivity].
  - destruct (JSON.parse stored) as [document|] eqn:Ep; [|discriminate].
    intros [= <-]. right; right. split; [discriminate|]. cbn [of_type].
    unfold JSON.parse in Ep. eapply parse_text_document, Ep.
Qed.

Lemma deserializeRow_read_from (schema : TableSchema) (row : gmap string Sqlite.cell)
    (cols : list ColumnDefinition) :
  (forall column, column ∈ cols -> column ∈ columns schema) ->
  forall acc record,
    read_from schema acc -> deserializeRow row cols acc = Ok record ->
    read_from schema record.
Proof.
  induction cols as [|[c0 t0] cols IH]; intros Hsub acc record Hacc; cbn [deserializeRow].
  - now intros [= <-].
  - assert (Hsub' : forall column, column ∈ cols -> column ∈ columns schema).
    { intros column Hc. apply Hsub. now right. }
    destruct (row !! c0) as [cell|]; [|now apply IH].
    destruct (deserializeValue (Sqlite.to_js cell) t0) as [v0|] eqn:Ev; [|discriminate]. cbn.
    apply IH; [exact Hsub'|]. intros c v Hc.
    destruct (decide (c = c0)) as [->|Hne].
    + rewrite lookup_insert_eq in Hc. injection Hc as <-.
      exists t0. split; [apply Hsub; left|].
      destruct (deserializeValue_typed _ _ _ Ev) as [H | [[H1 H2] | H]]; eauto 6.
    + rewrite lookup_insert_ne in Hc by congruence. now apply Hacc.
Qed.

Lemma read_from_empty (schema : TableSchema) : read_from schema ∅.
Proof. intros c v Hc. now rewrite lookup_empty in Hc. Qed.

Lemma deserializeRows_read_from (schema : TableSchema)
    (rows : list (gmap string Sqlite.cell)) (records : list RowData) :
  deserializeRows rows (columns schema) = Ok records ->
  Forall (read_from schema) records.
Proof.
  intros H. apply deserializeRows_each in H.
  induction H as [|row record rows records Hr _ IH]; constructor; [|exact IH].
  eapply deserializeRow_read_from; [|apply read_from_empty | exact Hr]. auto.
Qed.

(** X8: the records [get], [all] and [startsWith] return are built from the
    schema: a field of such a record is a column of the schema, whatever
    other columns the stored table has, and it holds [null] or a value of
    the column's type: a number for a number column, a boolean for a
    boolean column, a JSON document for a JSON column; a text column
    holds what is stored, as it is. *)
Theorem readers_return_typed_declared_fields (self : list nat) (this : SquirrelDB)
    (name : string) (schema : TableSchema) :
  tableSchemas this !! name = Some schema ->
  (forall id record, snd (get self this (VStr name) id) = Ok (Some record) ->
     read_from schema record) /\
  (forall records, snd (all self this (VStr name)) = Ok records ->
     Forall (read_from schema) records) /\
  (forall query records, snd (startsWith self this (VStr name) query) = Ok records ->
     Forall (read_from schema) records).
Proof.
  intros Hschema. unfold get, get_result, all, startsWith. cbn [snd]. rewrite Hschema.
  split; [|split].
  - intros id record. destruct id; try discriminate.
    destruct (Sqlite.select_by_id _ _ _ _) as [|[row|]]; try discriminate.
    destruct (deserializeRow _ _ _) as [record'|] eqn:E; [|discriminate].
    cbn. intros [= <-].
    eapply deserializeRow_read_from; [|apply read_from_empty | exact E]. auto.
  - intros records. destruct (Sqlite.select_all _ _ _) as [|rows]; [discriminate|].
    apply deserializeRows_read_from.
  - intros query records. destruct query; try discriminate.
    destruct (Sqlite.select_like _ _ _ _) as [|rows]; [discriminate|].
    apply deserializeRows_read_from.
Qed.

Lemma readers_return_typed_declared_fields_witness :
  Forall (read_from (with_id users_schema))
    [ list_to_map [("id", VStr "user-001"); ("name", VStr "John Doe"); ("age", VNum (Fin 30));
                   ("active", VBool true);
                   ("meta", VObj [("role", VStr "admin");
                                  ("tags", VArr [VNum (Fin 1); VNull])])] ].
Proof.
  destruct (readers_return_typed_declared_fields []
              (final (add [] users_store (VStr "users") john)) "users" (with_id users_schema))
    as (_ & Hall & _).
  - vm_compute. reflexivity.
  - apply Hall. vm_compute. reflexivity.
Defined.

(** *** [get] and [all] *)

Lemma select_by_id_found d name cols (s : string) row :
  Sqlite.select_by_id d name cols (VStr s) = inr (Some row) ->
  exists t found, d !! name = Some t /\ found ∈ Sqlite.t_rows t /\
    row = Sqlite.project cols found /\
    Sqlite.id_is (Sqlite.SText s) found = true.
Proof.
  unfold Sqlite.select_by_id, Sqlite.query. destruct (d !! name) as [t|]; [|discriminate].
  destruct (_ && _); [|discriminate]. cbn [Sqlite.bind].
  destruct (filter _ (Sqlite.t_rows t)) as [|found rest] eqn:Ef; [discriminate|].
  cbn. intros [= <-]. exists t, found. split; [reflexivity|].
  assert (Hin : found ∈ filter (fun r => Sqlite.id_is (Sqlite.SText s) r = true)
                          (Sqlite.t_rows t)) by (rewrite Ef; left).
  apply list_elem_of_filter in Hin as [Hid Hin]. auto.
Qed.

(** X9: a record [get] returns is one of the records [all] lists, when [all]
    returns. *)
Theorem get_returns_a_listed_record (self : list nat) (this : SquirrelDB) (name s : string)
    (record : RowData) (records : list RowData) :
  snd (get self this (VStr name) (VStr s)) = Ok (Some record) ->
  snd (all self this (VStr name)) = Ok records ->
  record ∈ records.
Proof.
  intros Hget Hall. apply all_inv in Hall as (schema & t & Hschema & Ht & _ & Hrecords).
  destruct (get_result_inv _ _ _ _ _ Hschema Hget) as (row & Hsel & Hrow).
  apply select_by_id_found in Hsel as (t' & found & Ht' & Hfound & -> & _).
  rewrite Ht in Ht'. injection Ht' as <-.
  apply deserializeRows_each in Hrecords.
  apply list_elem_of_lookup in Hfound as (i & Hi).
  destruct (Forall2_lookup_l _ _ _ i (Sqlite.project (map fst (columns schema)) found) Hrecords)
    as (record' & Hi' & Hr').
  { rewrite list_lookup_fmap, Hi. reflexivity. }
  apply list_elem_of_lookup. exists i. congruence.
Qed.

Lemma get_returns_a_listed_record_witness :
  {[ "id" := VStr "a-2" ]} ∈
    [ ({[ "id" := VStr "a-1" ]} : RowData); {[ "id" := VStr "a-2" ]}; {[ "id" := VStr "b-1" ]} ].
Proof.
  apply (get_returns_a_listed_record [] prefixes_store "t" "a-2"); vm_compute; reflexivity.
Defined.

(** X10: on a registered table, a record [all] lists with a string as its id
    is found by that id: [has] returns [true]. *)
Theorem listed_record_is_found (self : list nat) (this : SquirrelDB) (name s : string)
    (schema : TableSchema) (record : RowData) (records : list RowData) :
  registered this name schema ->
  snd (all self this (VStr name)) = Ok records ->
  record ∈ records -> record !! "id" = Some (VStr s) ->
  snd (has self this (VStr name) (VStr s)) = Ok true.
Proof.
  intros (Hschema & Hnd & Hidcol & Hdb) Hall Hin Hid.
  apply all_inv in Hall as (schema' & t & Hs' & Ht & Hcols & Hrecords).
  rewrite Hschema in Hs'. injection Hs' as <-. rewrite Ht in Hdb.
  apply deserializeRows_each in Hrecords.
  pose proof (read_record_ids (columns schema) s _ Hnd Hidcol _ Hrecords) as Hsame.
  assert (Hne : record ∈ filter (fun r => has_id s r = true) records).
  { apply list_elem_of_filter. split; [|exact Hin]. unfold has_id. rewrite Hid.
    apply String.eqb_refl. }
  unfold has, get, get_result. cbn [snd tableSchemas]. rewrite Hschema.
  unfold Sqlite.select_by_id, Sqlite.query. rewrite Ht, Hcols.
  destruct (declared_column schema t "id" Tstring Hdb Hidcol) as [_ Hc].
  unfold Sqlite.has_column at 1. rewrite (bool_decide_eq_true_2 _ Hc).
  cbn [negb orb andb Sqlite.bind].
  destruct (filter (fun r => Sqlite.id_is (Sqlite.SText s) r = true) (Sqlite.t_rows t))
    as [|found rest].
  - cbn in Hsame. apply Forall2_nil_inv_l in Hsame. rewrite Hsame in Hne.
    now apply elem_of_nil in Hne.
  - cbn [map] in Hsame. apply Forall2_cons_inv_l in Hsame as (first & others & Hf & _ & _).
    cbn. rewrite Hf. reflexivity.
Qed.

Lemma listed_record_is_found_witness :
  snd (has [] prefixes_store (VStr "t") (VStr "b-1")) = Ok true.
Proof.
  apply (listed_record_is_found [] prefixes_store "t" "b-1" (Schema [("id", Tstring)])
           {[ "id" := VStr "b-1" ]}
           [ {[ "id" := VStr "a-1" ]}; {[ "id" := VStr "a-2" ]}; {[ "id" := VStr "b-1" ]} ]).
  - apply (bool_decide_unpack _). vm_compute. exact I.
  - vm_compute. reflexivity.
  - right. right. left.
  - vm_compute. reflexivity.
Defined.

(* ===================================================================== *)
(** ** Deleting *)
(* ===================================================================== *)

Lemma filter_complement {A : Type} (f : A -> bool) (l : list A) :
  filter (fun x => f x = true) (filter (fun x => f x = false) l) = [].
Proof.
  induction l as [|x l IH]; [reflexivity|]. destruct (f x) eqn:E.
  - rewrite (filter_cons_False _ x) by (rewrite E; discriminate). exact IH.
  - rewrite (filter_cons_True _ x) by exact E.
    rewrite filter_cons_False by (rewrite E; discriminate). exact IH.
Qed.

Lemma filter_lengths {A : Type} (f : A -> bool) (l : list A) :
  (length (filter (fun x => f x = true) l) + length (filter (fun x => f x = false) l)
   = length l)%nat.
Proof.
  induction l as [|x l IH]; [reflexivity|]. destruct (f x) eqn:E.
  - rewrite filter_cons_True by exact E.
    rewrite filter_cons_False by (rewrite E; discriminate). cbn. lia.
  - rewrite filter_cons_False by (rewrite E; discriminate).
    rewrite filter_cons_True by exact E. cbn. lia.
Qed.

Lemma delete_local_inv this (name s : string) db' changes :
  delete_local this (VStr name) (VStr s) = Ok (db', changes) ->
  exists t,
    db this !! name = Some t /\ Sqlite.has_column t "id" = true /\
    db' = <[name := Sqlite.Table (Sqlite.t_columns t)
             (filter (fun r => Sqlite.id_is (Sqlite.SText s) r = false) (Sqlite.t_rows t))]>
            (db this) /\
    changes = Z.of_nat (length (Sqlite.t_rows t)
                        - length (filter (fun r => Sqlite.id_is (Sqlite.SText s) r = false)
                                    (Sqlite.t_rows t))).
Proof.
  unfold delete_local, Sqlite.delete_by_id, Sqlite.query.
  destruct (db this !! name) as [t|]; [|discriminate]. cbn [forallb negb orb andb].
  destruct (Sqlite.has_column t "id") eqn:Eid; [|discriminate]. cbn [Sqlite.bind].
  intros [= <- <-]. exists t. auto.
Qed.

Lemma delete_ok_inv self this tableName id k :
  result (delete self this tableName id) = Ok k ->
  exists db' changes events ms',
    delete_local this tableName id = Ok (db', changes) /\
    replicate self (fun p mirror => delete p mirror tableName id) 0%nat (mirrors this)
      = (events, None, ms') /\
    k = Fin (if 0 <? changes then 1 else 0) /\
    final (delete self this tableName id) = Instance db' (tableSchemas this) ms'.
Proof.
  rewrite delete_unfold.
  destruct (delete_local this tableName id) as [[db' changes]|]; [|discriminate].
  destruct (replicate _ _ _ _) as [[events thrown] ms']. cbn.
  destruct thrown; [discriminate|]. intros [= <-]. eauto 10.
Qed.

(** What a successful call establishes on the instance, it establishes
    on every instance of the tree. *)
Lemma replicate_everywhere {A : Type} (P Q : SquirrelDB -> Prop) (self : list nat)
    (call : list nat -> SquirrelDB -> Run A) (ms : list SquirrelDB) :
  Forall (fun m => forall p a, everywhere P m -> result (call p m) = Ok a ->
            everywhere Q (final (call p m))) ms ->
  Forall (everywhere P) ms ->
  forall i events ms',
    replicate self call i ms = (events, None, ms') -> Forall (everywhere Q) ms'.
Proof.
  intros IH HP i events ms' Hrep. apply replicate_returned in Hrep.
  induction Hrep as [|m m' ms ms' (p & a & Ha & ->) _ IHrep]; [constructor|].
  apply Forall_cons in IH as [IHm IH]. apply Forall_cons in HP as [HPm HP].
  constructor; [eapply IHm; eauto | now apply IHrep].
Qed.

Lemma delete_everywhere (P Q : SquirrelDB -> Prop) (tableName id : value) :
  (forall inst db' changes ms', P inst ->
     delete_local inst tableName id = Ok (db', changes) ->
     Q (Instance db' (tableSchemas inst) ms')) ->
  forall this self k,
    everywhere P this -> result (delete self this tableName id) = Ok k ->
    everywhere Q (final (delete self this tableName id)).
Proof.
  intros Hlocal. induction this as [d schemas ms IH] using SquirrelDB_nested_ind.
  intros self k [HP Hmirrors]%everywhere_unfold Hok.
  destruct (delete_ok_inv _ _ _ _ _ Hok) as (db' & changes & events & ms' & Hl & Hrep & _ & ->).
  apply everywhere_unfold. split; [eapply Hlocal; eauto|].
  eapply replicate_everywhere; [|exact Hmirrors | exact Hrep].
  eapply Forall_impl; [exact IH|]. cbn. intros m Hm p a. apply Hm.
Qed.

Lemma registered_columns this (name : string) (schema : TableSchema) (t : Sqlite.table) :
  registered this name schema -> db this !! name = Some t ->
  forallb (Sqlite.has_column t) (map fst (columns schema)) = true /\
  Sqlite.has_column t "id" = true.
Proof.
  intros (_ & _ & Hidcol & Hdb) Ht. rewrite Ht in Hdb. split.
  - apply forallb_forall. intros c Hc. apply list_elem_of_In in Hc.
    apply list_elem_of_fmap in Hc as ([c' type] & -> & Hc).
    apply bool_decide_eq_true. eapply declared_column; eauto.
  - apply bool_decide_eq_true. eapply declared_column; eauto.
Qed.

Lemma get_after_delete_local this (name s : string) (schema : TableSchema) db' changes ms' :
  registered this name schema ->
  delete_local this (VStr name) (VStr s) = Ok (db', changes) ->
  get_result (Instance db' (tableSchemas this) ms') (VStr name) (VStr s) = Ok None.
Proof.
  intros Hreg Hdel. destruct (delete_local_inv _ _ _ _ _ Hdel) as (t & Ht & Hid & -> & _).
  destruct (registered_columns this name schema t Hreg Ht) as [Hcols _].
  destruct Hreg as (Hschema & _).
  unfold get_result. cbn [tableSchemas db]. rewrite Hschema.
  unfold Sqlite.select_by_id, Sqlite.query. rewrite lookup_insert_eq.
  change (Sqlite.has_column (Sqlite.Table (Sqlite.t_columns t) ?rows))
    with (Sqlite.has_column t).
  rewrite Hcols, Hid. cbn [negb orb andb Sqlite.bind Sqlite.t_rows].
  now rewrite filter_complement.
Qed.

(** X11: after [delete] has returned on a tree of instances that have the
    table registered, no instance has a record of that id: [get] returns
    [null] and [has] returns [false], on the instance and on every
    mirror. *)
Theorem get_after_delete (self : list nat) (this : SquirrelDB) (name s : string)
    (schema : TableSchema) (k : number) :
  everywhere (fun inst => registered inst name schema) this ->
  result (delete self this (VStr name) (VStr s)) = Ok k ->
  everywhere (fun inst =>
                forall p, snd (get p inst (VStr name) (VStr s)) = Ok None /\
                          snd (has p inst (VStr name) (VStr s)) = Ok false)
             (final (delete self this (VStr name) (VStr s))).
Proof.
  apply delete_everywhere. intros inst db' changes ms' Hreg Hdel p.
  unfold has, get. cbn [snd].
  now rewrite (get_after_delete_local inst name s schema db' changes ms' Hreg Hdel).
Qed.

Lemma get_after_delete_witness :
  everywhere (fun inst =>
                forall p, snd (get p inst (VStr "t") (VStr "a-1")) = Ok None /\
                          snd (has p inst (VStr "t") (VStr "a-1")) = Ok false)
             (final (delete [] (attach prefixes_store prefixes_store) (VStr "t") (VStr "a-1"))).
Proof.
  apply (get_after_delete [] (attach prefixes_store prefixes_store) "t" "a-1"
           (Schema [("id", Tstring)]) (Fin 1)).
  - apply (bool_decide_unpack _). vm_compute. exact I.
  - vm_compute. reflexivity.
Defined.

Lemma select_by_id_none d name cols (s : string) :
  Sqlite.select_by_id d name cols (VStr s) = inr None ->
  exists t, d !! name = Some t /\
    filter (fun r => Sqlite.id_is (Sqlite.SText s) r = true) (Sqlite.t_rows t) = [].
Proof.
  unfold Sqlite.select_by_id, Sqlite.query. destruct (d !! name) as [t|]; [|discriminate].
  destruct (_ && _); [|discriminate]. cbn [Sqlite.bind].
  destruct (filter _ (Sqlite.t_rows t)) as [|found rest] eqn:Ef; [|discriminate].
  intros _. exists t. split; [reflexivity | exact Ef].
Qed.

Lemma has_inv self this (name s : string) (found : bool) :
  snd (has self this (VStr name) (VStr s)) = Ok found ->
  exists t, db this !! name = Some t /\
    (found = false <->
     filter (fun r => Sqlite.id_is (Sqlite.SText s) r = true) (Sqlite.t_rows t) = []).
Proof.
  unfold has, get, get_result. cbn [snd].
  destruct (tableSchemas this !! name) as [schema|]; [|discriminate].
  destruct (Sqlite.select_by_id _ _ _ _) as [|[row|]] eqn:Esel; [discriminate | |].
  - destruct (deserializeRow _ _ _); [|discriminate]. cbn [fmap result_fmap]. intros [= <-].
    apply select_by_id_found in Esel as (t & row' & Ht & Hin & _ & Hid).
    exists t. split; [exact Ht|]. split; [discriminate|]. intros Hnil.
    assert (H : row' ∈ filter (fun r => Sqlite.id_is (Sqlite.SText s) r = true)
                        (Sqlite.t_rows t)) by (apply list_elem_of_filter; auto).
    rewrite Hnil in H. now apply elem_of_nil in H.
  - cbn [fmap result_fmap]. intros [= <-]. apply select_by_id_none in Esel as (t & Ht & Hnil).
    exists t. split; [exact Ht|]. split; auto.
Qed.

(** X12: [delete] returns 1 when [has] returned [true] before it, and 0 when
    [has] returned [false]. *)
Theorem delete_reports_whether_record_existed (self : list nat) (this : SquirrelDB)
    (name s : string) (found : bool) (k : number) :
  snd (has self this (VStr name) (VStr s)) = Ok found ->
  result (delete self this (VStr name) (VStr s)) = Ok k ->
  k = Fin (if found then 1 else 0).
Proof.
  intros Hhas Hok. apply has_inv in Hhas as (t & Ht & Hfound).
  destruct (delete_ok_inv _ _ _ _ _ Hok) as (db' & changes & _ & _ & Hdel & _ & -> & _).
  destruct (delete_local_inv _ _ _ _ _ Hdel) as (t' & Ht' & _ & _ & ->).
  rewrite Ht in Ht'. injection Ht' as <-.
  pose proof (filter_lengths (Sqlite.id_is (Sqlite.SText s)) (Sqlite.t_rows t)) as Hlen.
  f_equal. destruct found.
  - destruct (filter (fun r => Sqlite.id_is (Sqlite.SText s) r = true) (Sqlite.t_rows t))
      as [|row rest] eqn:Ef.
    + now destruct Hfound as [_ Hfound]; specialize (Hfound eq_refl).
    + cbn [length] in Hlen. destruct (Z.ltb_spec 0
        (Z.of_nat (length (Sqlite.t_rows t)
                   - length (filter (fun r => Sqlite.id_is (Sqlite.SText s) r = false)
                               (Sqlite.t_rows t))))); [reflexivity | lia].
  - destruct Hfound as [Hfound _]. rewrite (Hfound eq_refl) in Hlen. cbn [length] in Hlen.
    destruct (Z.ltb_spec 0
        (Z.of_nat (length (Sqlite.t_rows t)
                   - length (filter (fun r => Sqlite.id_is (Sqlite.SText s) r = false)
                               (Sqlite.t_rows t))))); [lia | reflexivity].
Qed.

Lemma delete_reports_whether_record_existed_witness :
  Fin 1 = Fin (if true then 1 else 0).
Proof.
  apply (delete_reports_whether_record_existed [] prefixes_store "t" "a-1");
    vm_compute; reflexivity.
Defined.

Lemma delete_local_again this (name s : string) db' changes ms' :
  delete_local this (VStr name) (VStr s) = Ok (db', changes) ->
  delete_local (Instance db' (tableSchemas this) ms') (VStr name) (VStr s) = Ok (db', 0).
Proof.
  intros Hdel. destruct (delete_local_inv _ _ _ _ _ Hdel) as (t & Ht & Hid & -> & _).
  unfold delete_local, Sqlite.delete_by_id, Sqlite.query. cbn [db].
  rewrite lookup_insert_eq. cbn [forallb negb orb andb].
  change (Sqlite.has_column (Sqlite.Table (Sqlite.t_columns t) ?rows))
    with (Sqlite.has_column t).
  rewrite Hid. cbn [Sqlite.bind Sqlite.t_rows Sqlite.t_columns].
  rewrite filter_twice, insert_insert_eq, Nat.sub_diag. reflexivity.
Qed.

(** X13: [delete] twice is [delete] once: when the first call has returned, a
    second call returns 0 and leaves every instance of the tree as the
    first left it. *)
Theorem delete_twice_is_delete_once (self : list nat) (this : SquirrelDB) (name s : string)
    (k : number) :
  result (delete self this (VStr name) (VStr s)) = Ok k ->
  result (delete self (final (delete self this (VStr name) (VStr s))) (VStr name) (VStr s))
    = Ok (Fin 0) /\
  final (delete self (final (delete self this (VStr name) (VStr s))) (VStr name) (VStr s))
    = final (delete self this (VStr name) (VStr s)).
Proof.
  revert self k.
  induction this as [d schemas ms IH] using SquirrelDB_nested_ind.
  intros self k Hok.
  destruct (delete_ok_inv _ _ _ _ _ Hok) as (db' & changes & events & ms' & Hdel & Hrep & _ & ->).
  cbn [mirrors tableSchemas] in *.
  rewrite delete_unfold.
  pose proof (delete_local_again _ name s db' changes ms' Hdel) as Hagain.
  cbn [tableSchemas] in Hagain. rewrite Hagain. cbn [mirrors tableSchemas].
  destruct (replicate_again self (fun p mirror => delete p mirror (VStr name) (VStr s)) ms)
    with (i := 0%nat) (events := events) (ms' := ms') as (events' & ->); [|exact Hrep|].
  - apply Forall_forall. intros m Hm p a Ha.
    eapply Forall_forall in IH; [|exact Hm].
    destruct (IH p a Ha) as [Hres Hfin]. split; [eauto | exact Hfin].
  - split; reflexivity.
Qed.

Lemma delete_twice_is_delete_once_witness :
  result (delete [] (final (delete [] (attach prefixes_store prefixes_store)
                              (VStr "t") (VStr "a-1"))) (VStr "t") (VStr "a-1"))
    = Ok (Fin 0) /\
  final (delete [] (final (delete [] (attach prefixes_store prefixes_store)
                             (VStr "t") (VStr "a-1"))) (VStr "t") (VStr "a-1"))
    = final (delete [] (attach prefixes_store prefixes_store) (VStr "t") (VStr "a-1")).
Proof.
  apply (delete_twice_is_delete_once [] (attach prefixes_store prefixes_store) "t" "a-1"
           (Fin 1)).
  vm_compute. reflexivity.
Defined.




(** *** [deleteAll] *)

Lemma deleteAll_local_inv this (name : string) db' changes :
  deleteAll_local this (VStr name) = Ok (db', changes) ->
  exists t,
    db this !! name = Some t /\
    db' = <[name := Sqlite.Table (Sqlite.t_columns t) []]> (db this) /\
    changes = Z.of_nat (length (Sqlite.t_rows t)).
Proof.
  unfold deleteAll_local, Sqlite.delete_all, Sqlite.query.
  destruct (db this !! name) as [t|]; [|discriminate]. cbn [forallb negb orb andb].
  intros [= <- <-]. exists t. auto.
Qed.

Lemma deleteAll_ok_inv self this tableName k :
  result (deleteAll self this tableName) = Ok k ->
  exists db' changes events ms',
    deleteAll_local this tableName = Ok (db', changes) /\
    replicate self (fun p mirror => deleteAll p mirror tableName) 0%nat (mirrors this)
      = (events, None, ms') /\
    k = Fin changes /\
    final (deleteAll self this tableName) = Instance db' (tableSchemas this) ms'.
Proof.
  rewrite deleteAll_unfold.
  destruct (deleteAll_local this tableName) as [[db' changes]|]; [|discriminate].
  destruct (replicate _ _ _ _) as [[events thrown] ms']. cbn.
  destruct thrown; [discriminate|]. intros [= <-]. eauto 10.
Qed.

(** X15: after [deleteAll] has returned on a registered table, the table is
    empty: [all] returns the empty list and [get] returns [null] for
    every id; the number returned is the number of records [all] listed
    before, when it returned. *)
Theorem deleteAll_empties_the_table (self : list nat) (this : SquirrelDB) (name : string)
    (schema : TableSchema) (k : number) :
  registered this name schema ->
  result (deleteAll self this (VStr name)) = Ok k ->
  snd (all self (final (deleteAll self this (VStr name))) (VStr name)) = Ok [] /\
  (forall s : string,
     snd (get self (final (deleteAll self this (VStr name))) (VStr name) (VStr s)) = Ok None) /\
  (forall records, snd (all self this (VStr name)) = Ok records ->
     k = Fin (Z.of_nat (length records))).
Proof.
  intros Hreg Hok.
  destruct (deleteAll_ok_inv _ _ _ _ Hok) as (db' & changes & _ & ms' & Hdel & _ & -> & ->).
  destruct (deleteAll_local_inv _ _ _ _ Hdel) as (t & Ht & -> & ->).
  destruct (registered_columns this name schema t Hreg Ht) as [Hcols Hid].
  pose proof Hreg as (Hschema & _).
  split; [|split].
  - unfold all. cbn [snd tableSchemas db]. rewrite Hschema.
    unfold Sqlite.select_all, Sqlite.query. rewrite lookup_insert_eq.
    change (Sqlite.has_column (Sqlite.Table (Sqlite.t_columns t) ?rows))
      with (Sqlite.has_column t).
    rewrite Hcols. reflexivity.
  - intros s. unfold get, get_result. cbn [snd tableSchemas db]. rewrite Hschema.
    unfold Sqlite.select_by_id, Sqlite.query. rewrite lookup_insert_eq.
    change (Sqlite.has_column (Sqlite.Table (Sqlite.t_columns t) ?rows))
      with (Sqlite.has_column t).
    rewrite Hcols, Hid. reflexivity.
  - intros records Hall. apply all_inv in Hall as (schema' & t' & _ & Ht' & _ & Hrecords).
    rewrite Ht in Ht'. injection Ht' as <-.
    apply deserializeRows_each, Forall2_length in Hrecords.
    rewrite length_map in Hrecords. now rewrite Hrecords.
Qed.

Lemma deleteAll_empties_the_table_witness :
  snd (all [] (final (deleteAll [] prefixes_store (VStr "t"))) (VStr "t")) = Ok [] /\
  Fin 3 = Fin (Z.of_nat (length [ ({[ "id" := VStr "a-1" ]} : RowData);
                                  {[ "id" := VStr "a-2" ]}; {[ "id" := VStr "b-1" ]} ])).
Proof.
  destruct (deleteAll_empties_the_table [] prefixes_store "t" (Schema [("id", Tstring)]) (Fin 3))
    as (Hall & _ & Hcount).
  - apply (bool_decide_unpack _). vm_compute. exact I.
  - vm_compute. reflexivity.
  - split; [exact Hall|]. apply Hcount. vm_compute. reflexivity.
Defined.

(* ===================================================================== *)
(** ** Other tables *)
(* ===================================================================== *)

Lemma same_reads_lookup (name : string) (a b : SquirrelDB) :
  db a !! name = db b !! name -> tableSchemas a !! name = tableSchemas b !! name ->
  same_reads name a b.
Proof.
  intros Hdb Hs. unfold same_reads, get_result, all, startsWith,
    Sqlite.select_by_id, Sqlite.select_all, Sqlite.select_like, Sqlite.query.
  cbn [snd]. rewrite Hdb, Hs. repeat split.
Qed.

Lemma create_table_keeps d name cols d' (other : string) :
  Sqlite.create_table_if_not_exists d name cols = inr d' ->
  other <> name -> d' !! other = d !! other.
Proof.
  unfold Sqlite.create_table_if_not_exists. destruct (negb _); [discriminate|].
  destruct (d !! name).
  - now intros [= <-].
  - destruct (bool_decide _); [|discriminate]. intros [= <-] Hne.
    now apply lookup_insert_ne.
Qed.

Lemma initTable_keeps_others self this (name other : string) schema :
  other <> name ->
  db (final (initTable self this (VStr name) schema)) !! other = db this !! other /\
  tableSchemas (final (initTable self this (VStr name) schema)) !! other
    = tableSchemas this !! other.
Proof.
  intros Hne. rewrite initTable_unfold. unfold initTable_local, createTableIfNotExists.
  destruct schema as [| |schema]; try (split; reflexivity).
  destruct (Sqlite.create_table_if_not_exists _ _ _) as [|d'] eqn:Ec; [split; reflexivity|].
  destruct (replicate _ _ _ _) as [[events thrown] ms']. cbn [final db tableSchemas].
  split; [eapply create_table_keeps; eauto | now apply lookup_insert_ne].
Qed.

Lemma add_keeps_others self this (name other : string) data :
  other <> name ->
  db (final (add self this (VStr name) data)) !! other = db this !! other /\
  tableSchemas (final (add self this (VStr name) data)) !! other = tableSchemas this !! other.
Proof.
  intros Hne. rewrite add_unfold.
  destruct (add_local this (VStr name) data) as [db'|] eqn:Hlocal; [|split; reflexivity].
  destruct (replicate _ _ _ _) as [[events thrown] ms']. cbn [final db tableSchemas].
  split; [|reflexivity].
  destruct (add_local_inv _ _ _ _ Hlocal) as (_ & names & values & _ & _ & _ & _ & Hins).
  destruct (insert_or_replace_inv _ _ _ _ _ Hins) as (t & cells & _ & _ & _ & ->).
  now apply lookup_insert_ne.
Qed.

Lemma fold_case_differ (a b : string) : fold_case a <> fold_case b -> a <> b.
Proof. intros H ->. now apply H. Qed.

(** X16: [initTable], [add], [delete], [deleteAll] and [increment] on a table
    change nothing of what the readers return for another table.  The
    two names are plain identifiers, since a name goes into the text of
    the statement as it is, and they differ by more than the case of
    their letters, which the storage engine does not tell apart. *)
Theorem mutations_leave_other_tables_alone (self : list nat) (this : SquirrelDB)
    (name other : string) :
  Sqlite.identifier name = true -> Sqlite.identifier other = true ->
  fold_case other <> fold_case name ->
  (forall schema, same_reads other (final (initTable self this (VStr name) schema)) this) /\
  (forall data, same_reads other (final (add self this (VStr name) data)) this) /\
  (forall id, same_reads other (final (delete self this (VStr name) id)) this) /\
  same_reads other (final (deleteAll self this (VStr name))) this /\
  (forall id column delta,
     same_reads other (final (increment self this (VStr name) id column delta)) this).
Proof.
  intros _ _ Hne%fold_case_differ. split; [|split; [|split; [|split]]].
  - intros schema. now apply same_reads_lookup; apply initTable_keeps_others.
  - intros data. now apply same_reads_lookup; apply add_keeps_others.
  - intros id. apply same_reads_lookup; [|rewrite delete_unfold].
    + rewrite delete_unfold.
      destruct id; try reflexivity.
      destruct (delete_local this (VStr name) (VStr s)) as [[db' changes]|] eqn:Hdel;
        [|reflexivity].
      destruct (replicate _ _ _ _) as [[events thrown] ms']. cbn [final db].
      destruct (delete_local_inv _ _ _ _ _ Hdel) as (t & _ & _ & -> & _).
      now apply lookup_insert_ne.
    + destruct (delete_local this (VStr name) id) as [[db' changes]|]; [|reflexivity].
      now destruct (replicate _ _ _ _) as [[events thrown] ms'].
  - apply same_reads_lookup; rewrite deleteAll_unfold.
    + destruct (deleteAll_local this (VStr name)) as [[db' changes]|] eqn:Hdel; [|reflexivity].
      destruct (replicate _ _ _ _) as [[events thrown] ms']. cbn [final db].
      destruct (deleteAll_local_inv _ _ _ _ Hdel) as (t & _ & -> & _).
      now apply lookup_insert_ne.
    + destruct (deleteAll_local this (VStr name)) as [[db' changes]|]; [|reflexivity].
      now destruct (replicate _ _ _ _) as [[events thrown] ms'].
  - intros id column delta. rewrite increment_unfold.
    destruct (get_result this (VStr name) id) as [[record|]|];
      try (apply same_reads_lookup; reflexivity).
    destruct (or_else _ _); try (apply same_reads_lookup; reflexivity).
    cbn [final]. now apply same_reads_lookup; apply add_keeps_others.
Qed.

Lemma mutations_leave_other_tables_alone_witness :
  same_reads "users" (final (deleteAll [] (final (add [] users_store (VStr "users") john))
                               (VStr "t")))
    (final (add [] users_store (VStr "users") john)) /\
  same_reads "users"
    (final (initTable [] (final (add [] users_store (VStr "users") john)) (VStr "t")
              (SchemaOf (Schema [("id", Tstring)]))))
    (final (add [] users_store (VStr "users") john)).
Proof.
  destruct (mutations_leave_other_tables_alone []
              (final (add [] users_store (VStr "users") john)) "t" "users")
    as (Hinit & _ & _ & Hall & _);
    [reflexivity | reflexivity | vm_compute; discriminate|].
  split; [exact Hall | apply Hinit].
Defined.

(* ===================================================================== *)
(** ** Searching by prefix *)
(* ===================================================================== *)












(* ===================================================================== *)
(** ** Incrementing a number column *)
(* ===================================================================== *)

Lemma column_type_unique (cols : list ColumnDefinition) (c : string) (t1 t2 : ColumnType) :
  NoDup (map fst cols) -> (c, t1) ∈ cols -> (c, t2) ∈ cols -> t1 = t2.
Proof.
  induction cols as [|[c0 t0] cols IH]; intros Hnd H1 H2; [now apply elem_of_nil in H1|].
  cbn [map fst] in Hnd. apply NoDup_cons in Hnd as [Hfresh Hnd].
  apply elem_of_cons in H1 as [H1 | H1]; apply elem_of_cons in H2 as [H2 | H2].
  - congruence.
  - exfalso. injection H1 as -> ->. apply Hfresh. apply list_elem_of_fmap. now exists (c0, t2).
  - exfalso. injection H2 as -> ->. apply Hfresh. apply list_elem_of_fmap. now exists (c0, t1).
  - now apply IH.
Qed.





(* ===================================================================== *)
(** ** Registering tables *)
(* ===================================================================== *)

Lemma initTable_ok_inv self this (name : string) (schema : TableSchema) :
  result (initTable self this (VStr name) (SchemaOf schema)) = Ok tt ->
  exists db' events ms',
    Sqlite.create_table_if_not_exists (db this) name
      (map (fun '(c, type) => Sqlite.Column c (getSQLiteType type) (String.eqb c "id"))
           (columns (with_id schema))) = inr db' /\
    replicate self (fun p mirror => initTable p mirror (VStr name) (SchemaOf (with_id schema)))
      0%nat (mirrors this) = (events, None, ms') /\
    final (initTable self this (VStr name) (SchemaOf schema))
    = Instance db' (<[name := with_id schema]> (tableSchemas this)) ms'.
Proof.
  rewrite initTable_unfold. unfold initTable_local, createTableIfNotExists.
  destruct (Sqlite.create_table_if_not_exists _ _ _) as [|db']; [discriminate|].
  destruct (replicate _ _ _ _) as [[events thrown] ms']. cbn.
  destruct thrown; [discriminate|]. intros _. eauto 10.
Qed.

(** X20: after [initTable] has returned, every instance of the tree has the
    table registered with the same schema: the caller's columns, behind
    an [id] column when the caller gave none. *)
Theorem initTable_registers_on_every_instance (self : list nat) (this : SquirrelDB)
    (name : string) (schema : TableSchema) :
  result (initTable self this (VStr name) (SchemaOf schema)) = Ok tt ->
  everywhere (fun inst => tableSchemas inst !! name = Some (with_id schema))
    (final (initTable self this (VStr name) (SchemaOf schema))).
Proof.
  revert self schema.
  induction this as [d schemas ms IH] using SquirrelDB_nested_ind.
  intros self schema Hok.
  destruct (initTable_ok_inv _ _ _ _ Hok) as (db' & events & ms' & _ & Hrep & ->).
  apply everywhere_unfold. split; [apply lookup_insert_eq|].
  cbn [mirrors] in Hrep. apply replicate_returned in Hrep.
  clear Hok. induction Hrep as [|m m' ms ms' (p & a & Ha & ->) _ IHrep]; [constructor|].
  apply Forall_cons in IH as [IHm IH]. constructor; [|now apply IHrep].
  destruct a. specialize (IHm p (with_id schema) Ha).
  now rewrite with_id_idempotent in IHm.
Qed.

Lemma initTable_registers_on_every_instance_witness :
  everywhere (fun inst => tableSchemas inst !! "users" = Some (with_id users_schema))
    (final (initTable [] (attach (attach (new_SquirrelDB ∅) (new_SquirrelDB ∅))
                                 (attach (new_SquirrelDB ∅) (new_SquirrelDB ∅)))
              (VStr "users") (SchemaOf users_schema))).
Proof.
  apply initTable_registers_on_every_instance. vm_compute. reflexivity.
Defined.



Lemma create_table_again d name cols d' :
  Sqlite.create_table_if_not_exists d name cols = inr d' ->
  Sqlite.create_table_if_not_exists d' name cols = inr d'.
Proof.
  unfold Sqlite.create_table_if_not_exists. destruct (negb _); [discriminate|].
  destruct (d !! name) as [t|] eqn:Ht.
  - intros [= <-]. now rewrite Ht.
  - destruct (bool_decide _); [|discriminate]. intros [= <-].
    now rewrite lookup_insert_eq.
Qed.

(** X22: [initTable] twice with the same schema is [initTable] once: when the
    first call has returned, the second returns too and leaves every
    instance of the tree as the first left it. *)
Theorem initTable_twice_is_initTable_once (self : list nat) (this : SquirrelDB)
    (name : string) (schema : TableSchema) :
  result (initTable self this (VStr name) (SchemaOf schema)) = Ok tt ->
  result (initTable self (final (initTable self this (VStr name) (SchemaOf schema)))
            (VStr name) (SchemaOf schema)) = Ok tt /\
  final (initTable self (final (initTable self this (VStr name) (SchemaOf schema)))
           (VStr name) (SchemaOf schema))
  = final (initTable self this (VStr name) (SchemaOf schema)).
Proof.
  revert self schema.
  induction this as [d schemas ms IH] using SquirrelDB_nested_ind.
  intros self schema Hok.
  destruct (initTable_ok_inv _ _ _ _ Hok) as (db' & events & ms' & Hcreate & Hrep & ->).
  cbn [mirrors tableSchemas db] in *.
  rewrite initTable_unfold. unfold initTable_local, createTableIfNotExists.
  cbn [db tableSchemas mirrors]. rewrite (create_table_again _ _ _ _ Hcreate).
  destruct (replicate_again self
              (fun p mirror => initTable p mirror (VStr name) (SchemaOf (with_id schema))) ms)
    with (i := 0%nat) (events := events) (ms' := ms') as (events' & ->); [|exact Hrep|].
  - apply Forall_forall. intros m Hm p [] Ha.
    eapply Forall_forall in IH; [|exact Hm].
    destruct (IH p (with_id schema) Ha) as [Hres Hfin]. split; [eauto | exact Hfin].
  - rewrite insert_insert_eq. split; reflexivity.
Qed.

Lemma initTable_twice_is_initTable_once_witness :
  result (initTable [] mirrored_store (VStr "users") (SchemaOf users_schema)) = Ok tt /\
  final (initTable [] mirrored_store (VStr "users") (SchemaOf users_schema)) = mirrored_store.
Proof.
  apply (initTable_twice_is_initTable_once [] (attach (new_SquirrelDB ∅) (new_SquirrelDB ∅))
           "users" users_schema).
  vm_compute. reflexivity.
Defined.

(* ===================================================================== *)
(** ** What every method keeps *)
(* ===================================================================== *)

Lemma replicate_preserves {A : Type} (P : SquirrelDB -> Prop) (self : list nat)
    (call : list nat -> SquirrelDB -> Run A) (ms : list SquirrelDB) :
  Forall (fun m => forall p, everywhere P m -> everywhere P (final (call p m))) ms ->
  Forall (everywhere P) ms ->
  forall i, Forall (everywhere P) (replicate self call i ms).2.
Proof.
  intros IH HP i. pose proof (replicate_left self call ms i) as Hleft.
  induction Hleft as [|m m' ms ms' Hm _ IHleft]; [constructor|].
  apply Forall_cons in IH as [IHm IH]. apply Forall_cons in HP as [HPm HP].
  constructor; [|now apply IHleft].
  destruct Hm as [-> | (p & ->)]; [exact HPm | now apply IHm].
Qed.

Lemma store_made_insert (this : SquirrelDB) (name : string) (t : Sqlite.table) schemas ms :
  store_made this -> keyed_by_id t ->
  store_made (Instance (<[name := t]> (db this)) schemas ms).
Proof. intros Hmade Ht. unfold store_made. cbn [db]. now apply map_Forall_insert_2. Qed.

Lemma created_table_keyed_by_id (schema : TableSchema) :
  keyed_by_id
    (Sqlite.Table
       (map (fun '(c, type) => Sqlite.Column c (getSQLiteType type) (String.eqb c "id"))
            (columns schema)) []).
Proof.
  unfold keyed_by_id. cbn [Sqlite.t_columns]. apply Forall_forall.
  intros column Hc. apply list_elem_of_fmap in Hc as ([c type] & -> & _). reflexivity.
Qed.

Lemma initTable_local_store_made this tableName schema db' schemas' schema' ms' :
  store_made this -> initTable_local this tableName schema = Ok (db', schemas', schema') ->
  store_made (Instance db' schemas' ms').
Proof.
  intros Hmade. unfold initTable_local, createTableIfNotExists.
  destruct tableName; try discriminate. destruct schema as [| |schema]; try discriminate.
  unfold Sqlite.create_table_if_not_exists. destruct (negb _); [discriminate|].
  destruct (db this !! s).
  - intros [= <- <- <-]. exact Hmade.
  - destruct (bool_decide _); [|discriminate]. intros [= <- <- <-].
    apply store_made_insert; [exact Hmade | apply created_table_keyed_by_id].
Qed.

Lemma add_local_store_made this tableName data db' schemas' ms' :
  store_made this -> add_local this tableName data = Ok db' ->
  store_made (Instance db' schemas' ms').
Proof.
  intros Hmade Hlocal. destruct tableName; try discriminate Hlocal.
  destruct (add_local_inv _ _ _ _ Hlocal) as (_ & names & values & _ & _ & _ & _ & Hins).
  destruct (insert_or_replace_inv _ _ _ _ _ Hins) as (t & cells & Ht & _ & _ & ->).
  apply store_made_insert; [exact Hmade|]. exact (Hmade _ _ Ht).
Qed.

Lemma delete_local_store_made this tableName id db' changes schemas' ms' :
  store_made this -> delete_local this tableName id = Ok (db', changes) ->
  store_made (Instance db' schemas' ms').
Proof.
  intros Hmade Hlocal. destruct tableName; try discriminate Hlocal.
  destruct id; try discriminate Hlocal.
  destruct (delete_local_inv _ _ _ _ _ Hlocal) as (t & Ht & _ & -> & _).
  apply store_made_insert; [exact Hmade|]. exact (Hmade _ _ Ht).
Qed.

Lemma deleteAll_local_store_made this tableName db' changes schemas' ms' :
  store_made this -> deleteAll_local this tableName = Ok (db', changes) ->
  store_made (Instance db' schemas' ms').
Proof.
  intros Hmade Hlocal. destruct tableName; try discriminate Hlocal.
  destruct (deleteAll_local_inv _ _ _ _ Hlocal) as (t & Ht & -> & _).
  apply store_made_insert; [exact Hmade|]. exact (Hmade _ _ Ht).
Qed.

Lemma initTable_store_made this : forall self tableName schema,
  everywhere store_made this ->
  everywhere store_made (final (initTable self this tableName schema)).
Proof.
  induction this as [d schemas ms IH] using SquirrelDB_nested_ind.
  intros self tableName schema Hmade. rewrite initTable_unfold.
  destruct (initTable_local _ tableName schema) as [[[db' schemas'] schema']|] eqn:Hlocal;
    [|exact Hmade].
  apply everywhere_unfold in Hmade as [Hhere Hmirrors]. cbn [mirrors].
  pose proof (replicate_preserves store_made self
    (fun p mirror => initTable p mirror tableName (SchemaOf schema')) ms) as Hrep.
  specialize (Hrep ltac:(eapply Forall_impl; [exact IH | cbn; eauto]) Hmirrors 0%nat).
  destruct (replicate _ _ _ ms) as [[events thrown] ms']. cbn in *.
  apply everywhere_unfold. split; [|exact Hrep].
  eapply initTable_local_store_made; eauto.
Qed.

Lemma add_store_made this : forall self tableName data,
  everywhere store_made this ->
  everywhere store_made (final (add self this tableName data)).
Proof.
  induction this as [d schemas ms IH] using SquirrelDB_nested_ind.
  intros self tableName data Hmade. rewrite add_unfold.
  destruct (add_local _ tableName data) as [db'|] eqn:Hlocal; [|exact Hmade].
  apply everywhere_unfold in Hmade as [Hhere Hmirrors]. cbn [mirrors tableSchemas].
  pose proof (replicate_preserves store_made self
    (fun p mirror => add p mirror tableName data) ms) as Hrep.
  specialize (Hrep ltac:(eapply Forall_impl; [exact IH | cbn; eauto]) Hmirrors 0%nat).
  destruct (replicate _ _ _ ms) as [[events thrown] ms']. cbn in *.
  apply everywhere_unfold. split; [|exact Hrep].
  eapply add_local_store_made; eauto.
Qed.

Lemma delete_store_made this : forall self tableName id,
  everywhere store_made this ->
  everywhere store_made (final (delete self this tableName id)).
Proof.
  induction this as [d schemas ms IH] using SquirrelDB_nested_ind.
  intros self tableName id Hmade. rewrite delete_unfold.
  destruct (delete_local _ tableName id) as [[db' changes]|] eqn:Hlocal; [|exact Hmade].
  apply everywhere_unfold in Hmade as [Hhere Hmirrors]. cbn [mirrors tableSchemas].
  pose proof (replicate_preserves store_made self
    (fun p mirror => delete p mirror tableName id) ms) as Hrep.
  specialize (Hrep ltac:(eapply Forall_impl; [exact IH | cbn; eauto]) Hmirrors 0%nat).
  destruct (replicate _ _ _ ms) as [[events thrown] ms']. cbn in *.
  apply everywhere_unfold. split; [|exact Hrep].
  eapply delete_local_store_made; eauto.
Qed.

Lemma deleteAll_store_made this : forall self tableName,
  everywhere store_made this ->
  everywhere store_made (final (deleteAll self this tableName)).
Proof.
  induction this as [d schemas ms IH] using SquirrelDB_nested_ind.
  intros self tableName Hmade. rewrite deleteAll_unfold.
  destruct (deleteAll_local _ tableName) as [[db' changes]|] eqn:Hlocal; [|exact Hmade].
  apply everywhere_unfold in Hmade as [Hhere Hmirrors]. cbn [mirrors tableSchemas].
  pose proof (replicate_preserves store_made self
    (fun p mirror => deleteAll p mirror tableName) ms) as Hrep.
  specialize (Hrep ltac:(eapply Forall_impl; [exact IH | cbn; eauto]) Hmirrors 0%nat).
  destruct (replicate _ _ _ ms) as [[events thrown] ms']. cbn in *.
  apply everywhere_unfold. split; [|exact Hrep].
  eapply deleteAll_local_store_made; eauto.
Qed.

Lemma increment_final self this tableName id column delta :
  final (increment self this tableName id column delta) = this \/
  exists record, final (increment self this tableName id column delta)
                 = final (add self this tableName record).
Proof.
  unfold increment. destruct tableName; auto.
  destruct (get self this (VStr s) id) as [events [[record|]|]]; auto.
  destruct (or_else _ _); auto. right. eauto.
Qed.

(** X23: the tables of a store are keyed by [id]: [createTableIfNotExists]
    creates a table with the column [id] as its only primary key, and no
    method changes the columns of a table.  On a tree of instances all of
    whose tables are so (a new instance on an empty database is one),
    every method leaves a tree of such instances, whether it returns or
    throws. *)
Theorem tables_stay_keyed_by_id (self : list nat) (this : SquirrelDB) :
  everywhere store_made this ->
  (forall tableName schema,
     everywhere store_made (final (initTable self this tableName schema))) /\
  (forall tableName data, everywhere store_made (final (add self this tableName data))) /\
  (forall tableName id, everywhere store_made (final (delete self this tableName id))) /\
  (forall tableName, everywhere store_made (final (deleteAll self this tableName))) /\
  (forall tableName id column delta,
     everywhere store_made (final (increment self this tableName id column delta))).
Proof.
  intros Hmade. split; [|split; [|split; [|split]]].
  - intros. now apply initTable_store_made.
  - intros. now apply add_store_made.
  - intros. now apply delete_store_made.
  - intros. now apply deleteAll_store_made.
  - intros tableName id column delta.
    destruct (increment_final self this tableName id column delta) as [-> | (record & ->)];
      [exact Hmade | now apply add_store_made].
Qed.

Lemma tables_stay_keyed_by_id_witness :
  everywhere store_made mirrored_store /\
  everywhere store_made (final (add [] (attach (new_SquirrelDB ∅) (new_SquirrelDB ∅))
                                  (VStr "users") john)).
Proof.
  destruct (tables_stay_keyed_by_id [] (attach (new_SquirrelDB ∅) (new_SquirrelDB ∅)))
    as (Hinit & Hadd & _).
  - apply (bool_decide_unpack _). vm_compute. exact I.
  - split; [apply Hinit | apply Hadd].
Defined.

(** *** Registries *)

Lemma replicate_without_data {A : Type} (self : list nat)
    (call : list nat -> SquirrelDB -> Run A) (ms : list SquirrelDB) :
  Forall (fun m => forall p, without_data (final (call p m)) = without_data m) ms ->
  forall i, map without_data (replicate self call i ms).2 = map without_data ms.
Proof.
  intros IH i. pose proof (replicate_left self call ms i) as Hleft.
  induction Hleft as [|m m' ms ms' Hm _ IHleft]; [reflexivity|].
  apply Forall_cons in IH as [IHm IH]. cbn [map]. rewrite (IHleft IH). f_equal.
  destruct Hm as [-> | (p & ->)]; [reflexivity | apply IHm].
Qed.

Lemma add_without_data this : forall self tableName data,
  without_data (final (add self this tableName data)) = without_data this.
Proof.
  induction this as [d schemas ms IH] using SquirrelDB_nested_ind.
  intros self tableName data. rewrite add_unfold.
  destruct (add_local _ tableName data) as [db'|]; [|reflexivity].
  cbn [mirrors tableSchemas].
  pose proof (replicate_without_data self (fun p mirror => add p mirror tableName data) ms)
    as Hrep.
  specialize (Hrep ltac:(eapply Forall_impl; [exact IH | cbn; eauto]) 0%nat).
  destruct (replicate _ _ _ ms) as [[events thrown] ms']. cbn in *. now rewrite Hrep.
Qed.

Lemma delete_without_data this : forall self tableName id,
  without_data (final (delete self this tableName id)) = without_data this.
Proof.
  induction this as [d schemas ms IH] using SquirrelDB_nested_ind.
  intros self tableName id. rewrite delete_unfold.
  destruct (delete_local _ tableName id) as [[db' changes]|]; [|reflexivity].
  cbn [mirrors tableSchemas].
  pose proof (replicate_without_data self (fun p mirror => delete p mirror tableName id) ms)
    as Hrep.
  specialize (Hrep ltac:(eapply Forall_impl; [exact IH | cbn; eauto]) 0%nat).
  destruct (replicate _ _ _ ms) as [[events thrown] ms']. cbn in *. now rewrite Hrep.
Qed.

Lemma deleteAll_without_data this : forall self tableName,
  without_data (final (deleteAll self this tableName)) = without_data this.
Proof.
  induction this as [d schemas ms IH] using SquirrelDB_nested_ind.
  intros self tableName. rewrite deleteAll_unfold.
  destruct (deleteAll_local _ tableName) as [[db' changes]|]; [|reflexivity].
  cbn [mirrors tableSchemas].
  pose proof (replicate_without_data self (fun p mirror => deleteAll p mirror tableName) ms)
    as Hrep.
  specialize (Hrep ltac:(eapply Forall_impl; [exact IH | cbn; eauto]) 0%nat).
  destruct (replicate _ _ _ ms) as [[events thrown] ms']. cbn in *. now rewrite Hrep.
Qed.

(** X24: only [initTable] changes a registry: [add], [delete], [deleteAll]
    and [increment] leave the registry of every instance of the tree, and
    the tree itself, as they were, whether they return or throw. *)
Theorem only_initTable_changes_registries (self : list nat) (this : SquirrelDB) :
  (forall tableName data,
     without_data (final (add self this tableName data)) = without_data this) /\
  (forall tableName id,
     without_data (final (delete self this tableName id)) = without_data this) /\
  (forall tableName,
     without_data (final (deleteAll self this tableName)) = without_data this) /\
  (forall tableName id column delta,
     without_data (final (increment self this tableName id column delta))
     = without_data this).
Proof.
  split; [|split; [|split]].
  - intros. apply add_without_data.
  - intros. apply delete_without_data.
  - intros. apply deleteAll_without_data.
  - intros tableName id column delta.
    destruct (increment_final self this tableName id column delta) as [-> | (record & ->)];
      [reflexivity | apply add_without_data].
Qed.

(* ===================================================================== *)
(** ** Replication delivers *)
(* ===================================================================== *)

Lemma add_ok_everywhere_inv self this tableName data out :
  result (add self this tableName data) = Ok out ->
  exists db' events ms',
    add_local this tableName data = Ok db' /\
    replicate self (fun p mirror => add p mirror tableName data) 0%nat (mirrors this)
      = (events, None, ms') /\
    final (add self this tableName data) = Instance db' (tableSchemas this) ms'.
Proof.
  rewrite add_unfold. destruct (add_local this tableName data) as [db'|]; [|discriminate].
  destruct (replicate _ _ _ _) as [[events thrown] ms']. cbn.
  destruct thrown; [discriminate|]. intros _. eauto 10.
Qed.

Lemma add_everywhere (P Q : SquirrelDB -> Prop) (tableName : value) (data : RowData) :
  (forall inst db' ms', P inst -> add_local inst tableName data = Ok db' ->
     Q (Instance db' (tableSchemas inst) ms')) ->
  forall this self out,
    everywhere P this -> result (add self this tableName data) = Ok out ->
    everywhere Q (final (add self this tableName data)).
Proof.
  intros Hlocal. induction this as [d schemas ms IH] using SquirrelDB_nested_ind.
  intros self out [HP Hmirrors]%everywhere_unfold Hok.
  destruct (add_ok_everywhere_inv _ _ _ _ _ Hok) as (db' & events & ms' & Hl & Hrep & ->).
  apply everywhere_unfold. split; [eapply Hlocal; eauto|].
  eapply replicate_everywhere; [|exact Hmirrors | exact Hrep].
  eapply Forall_impl; [exact IH|]. cbn. intros m Hm p a. apply Hm.
Qed.



(* ===================================================================== *)
(** ** Arguments that are not strings *)
(* ===================================================================== *)

(** X26: every method first checks that the table name is a string: otherwise
    it throws the [InvalidType] error that names the type received,
    changes nothing and calls no mirror.  [get], [has] and [delete] then
    check the id, and [startsWith] the query, in the same way;
    [increment] has no check of its own on the id and throws the error of
    its [get]. *)
Theorem methods_check_their_string_arguments (self : list nat) (this : SquirrelDB) :
  (forall tableName, typeof tableName <> "string" ->
     (forall schema,
        initTable self this tableName schema
        = MkRun [(self, CallInitTable tableName schema)]
                (Throw (not_a_string "Table name" tableName)) this) /\
     (forall data,
        add self this tableName data
        = MkRun [(self, CallAdd tableName data)]
                (Throw (not_a_string "Table name" tableName)) this) /\
     (forall id,
        snd (get self this tableName id) = Throw (not_a_string "Table name" tableName) /\
        snd (has self this tableName id) = Throw (not_a_string "Table name" tableName) /\
        delete self this tableName id
        = MkRun [(self, CallDelete tableName id)]
                (Throw (not_a_string "Table name" tableName)) this) /\
     snd (all self this tableName) = Throw (not_a_string "Table name" tableName) /\
     deleteAll self this tableName
     = MkRun [(self, CallDeleteAll tableName)]
             (Throw (not_a_string "Table name" tableName)) this /\
     (forall query,
        snd (startsWith self this tableName query)
        = Throw (not_a_string "Table name" tableName)) /\
     (forall id column delta,
        increment self this tableName id column delta
        = MkRun [(self, CallIncrement tableName id column delta)]
                (Throw (not_a_string "Table name" tableName)) this)) /\
  (forall (name : string) id, typeof id <> "string" ->
     snd (get self this (VStr name) id) = Throw (not_a_string "ID" id) /\
     snd (has self this (VStr name) id) = Throw (not_a_string "ID" id) /\
     delete self this (VStr name) id
     = MkRun [(self, CallDelete (VStr name) id)] (Throw (not_a_string "ID" id)) this /\
     snd (startsWith self this (VStr name) id) = Throw (not_a_string "Query" id) /\
     (forall column delta,
        increment self this (VStr name) id column delta
        = MkRun [(self, CallIncrement (VStr name) id column delta);
                 (self, CallGet (VStr name) id)]
                (Throw (not_a_string "ID" id)) this)).
Proof.
  split.
  - intros tableName Htype.
    assert (Hname : forall s, tableName <> VStr s) by (intros s ->; now apply Htype).
    repeat split; intros;
      rewrite ?initTable_unfold, ?add_unfold, ?delete_unfold, ?deleteAll_unfold;
      destruct tableName; try reflexivity; exfalso; eapply Hname; reflexivity.
  - intros name id Htype.
    assert (Hid : forall s, id <> VStr s) by (intros s ->; now apply Htype).
    repeat split; intros; rewrite ?delete_unfold, ?increment_unfold;
      destruct id; try reflexivity; exfalso; eapply Hid; reflexivity.
Qed.

Lemma methods_check_their_string_arguments_witness :
  snd (get [] users_store (VNum (Fin 7)) (VStr "x"))
    = Throw (createError ("Table name must be a string, received " ++ quoted "number")
              InvalidType) /\
  snd (get [] users_store (VStr "users") VNull)
    = Throw (createError ("ID must be a string, received " ++ quoted "object") InvalidType).
Proof.
  destruct (methods_check_their_string_arguments [] users_store) as [Hname Hid].
  split.
  - destruct (Hname (VNum (Fin 7))) as (_ & _ & Hget & _); [discriminate|].
    apply (Hget (VStr "x")).
  - destruct (Hid "users" VNull) as (Hget & _); [discriminate | exact Hget].
Defined.

(* ===================================================================== *)
(** ** What the readers throw *)
(* ===================================================================== *)







(* ===================================================================== *)
(** ** [increment] and the mirrors *)
(* ===================================================================== *)

Lemma everywhere_here (P : SquirrelDB -> Prop) (this : SquirrelDB) :
  everywhere P this -> P this.
Proof. destruct this. now intros [H _]%everywhere_unfold. Qed.

(** The record [get] returns after [add] is determined by the record
    given. *)
Lemma read_back_record_unique (schema : TableSchema) (data r1 r2 : RowData) :
  (forall c type, (c, type) ∈ columns schema ->
     r1 !! c = Some (read_back type (prop data c))) ->
  (forall c, c ∉ map fst (columns schema) -> r1 !! c = None) ->
  (forall c type, (c, type) ∈ columns schema ->
     r2 !! c = Some (read_back type (prop data c))) ->
  (forall c, c ∉ map fst (columns schema) -> r2 !! c = None) ->
  r1 = r2.
Proof.
  intros Hin1 Hout1 Hin2 Hout2. apply map_eq. intros c.
  destruct (decide (c ∈ map fst (columns schema))) as [Hc|Hc].
  - apply list_elem_of_fmap in Hc as ([c' type] & -> & Hc). cbn [fst].
    now rewrite (Hin1 c' type Hc), (Hin2 c' type Hc).
  - now rewrite (Hout1 c Hc), (Hout2 c Hc).
Qed.

(** X28: [increment] writes the record of the instance on every mirror:
    after it has returned on a tree of instances that have the table
    registered, [get] by the id returns one and the same record on every
    instance of the tree, with the number returned in the column, whatever
    the mirrors held under that id before.  The mirrors take the value of
    the instance; they do not add the delta to their own. *)
Theorem increment_writes_the_record_on_every_mirror (self : list nat) (this : SquirrelDB)
    (name s : string) (schema : TableSchema) (column : string) (delta k : number)
    (record : RowData) :
  everywhere (fun inst => registered inst name schema) this ->
  (column, Tnumber) ∈ columns schema ->
  get_result this (VStr name) (VStr s) = Ok (Some record) ->
  result (increment self this (VStr name) (VStr s) column delta) = Ok k ->
  exists record',
    record' !! column = Some (read_back Tnumber (VNum k)) /\
    everywhere (fun inst => get_result inst (VStr name) (VStr s) = Ok (Some record'))
      (final (increment self this (VStr name) (VStr s) column delta)).
Proof.
  intros Hreg Hcol Hget. pose proof (everywhere_here _ _ Hreg) as (Hschema & Hnd & Hidcol & _).
  assert (Hne : column <> "id").
  { intros ->. pose proof (column_type_unique _ _ _ _ Hnd Hcol Hidcol). discriminate. }
  destruct (get_result_inv _ _ _ _ _ Hschema Hget) as (row & Hsel & Hrow).
  destruct (deserializeRow_inv _ _ Hnd _ _ Hrow) as [Hin _].
  pose proof (found_record_id _ _ _ _ _ Hschema Hnd Hidcol Hget) as Hid.
  rewrite increment_unfold, Hget.
  destruct (or_else (prop record column) (VNum (Fin 0))) as [| | |prior| | | |];
    try discriminate.
  cbn zeta. set (sum := Js.add prior delta).
  set (record1 := <[column := VNum sum]> record). cbn [result final].
  destruct (result (add self this (VStr name) record1)) as [out|] eqn:Hadd; [|discriminate].
  cbn. intros [= <-].
  assert (Hnames : forall c v, (c, Tjson) ∈ columns schema -> record1 !! c = Some v ->
            distinct_names v = true).
  { intros c v Hc Hv. assert (Hother : c <> column).
    { intros ->. pose proof (column_type_unique _ _ _ _ Hnd Hc Hcol). discriminate. }
    unfold record1 in Hv. rewrite lookup_insert_ne in Hv by congruence.
    specialize (Hin c Tjson Hc).
    destruct (row !! c) as [cell|]; [|rewrite Hin, lookup_empty in Hv; discriminate].
    destruct Hin as (v' & Hd & Hv'). rewrite Hv in Hv'. injection Hv' as <-.
    destruct (deserializeValue_typed _ _ _ Hd) as [-> | [[H _] | [_ H]]];
      [reflexivity | discriminate | now apply JSONWritten.document_distinct_names]. }
  assert (Hid1 : prop record1 "id" = VStr s).
  { unfold prop, record1. rewrite lookup_insert_ne by congruence. now rewrite Hid. }
  pose proof (add_everywhere
    (fun inst => registered inst name schema)
    (fun inst => exists r,
       get_result inst (VStr name) (VStr s) = Ok (Some r) /\
       (forall c type, (c, type) ∈ columns schema ->
          r !! c = Some (read_back type (prop record1 c))) /\
       (forall c, c ∉ map fst (columns schema) -> r !! c = None))
    (VStr name) record1) as Hall.
  specialize (Hall ltac:(intros inst db' ms' Hi Hl; rewrite <- Hid1;
                         now apply get_after_add_local_reads_back) this self out Hreg Hadd).
  destruct (everywhere_here _ _ Hall) as (record' & _ & Hin' & Hout').
  exists record'. split.
  - rewrite (Hin' column Tnumber Hcol). unfold prop, record1. now rewrite lookup_insert_eq.
  - eapply Forall_impl; [exact Hall|]. cbn. intros inst (r & Hr & Hinr & Houtr).
    now rewrite Hr, (read_back_record_unique schema record1 r record' Hinr Houtr Hin' Hout').
Qed.

Lemma increment_writes_the_record_on_every_mirror_witness :
  exists record',
    record' !! "score" = Some (read_back Tnumber (VNum (Fin 5))) /\
    everywhere (fun inst => get_result inst (VStr "t") (VStr "x") = Ok (Some record'))
      (final (increment []
                (attach scores_store
                   (final (add [] scores_store (VStr "t")
                             (<[ "score" := VNum (Fin 100) ]> {[ "id" := VStr "x" ]}))))
                (VStr "t") (VStr "x") "score" (Fin 5))).
Proof.
  apply (increment_writes_the_record_on_every_mirror []
           (attach scores_store
              (final (add [] scores_store (VStr "t")
                        (<[ "score" := VNum (Fin 100) ]> {[ "id" := VStr "x" ]}))))
           "t" "x" (Schema [("id", Tstring); ("score", Tnumber)]) "score" (Fin 5) (Fin 5)
           (<[ "score" := VNull ]> {[ "id" := VStr "x" ]})).
  - apply (bool_decide_unpack _). vm_compute. exact I.
  - apply (bool_decide_unpack _). vm_compute. exact I.
  - vm_compute. reflexivity.
  - vm_compute. reflexivity.
Defined.
